(** * GCN-LSTM time-series notebook: the preprocessing and evaluation pipeline

    A shallow embedding of the data-handling cells of
    [gcn-lstm-time-series.ipynb]: [train_test_split], [scale_data],
    [sequence_data_preparation], the rescaling cells, the naive benchmark
    and the per-segment performance loop.

    Conventions of the embedding.
    - A 2-D [ndarray] is a [matrix]: its column count (numpy's [shape[1]])
      and its rows, one row per sensor.
    - A Python exception is a [Raise] in the [result] monad; numpy's
      floating-point warnings (division by zero, invalid value) are not
      exceptions and leave no trace in the result.
    - Array cells are [num]: rationals extended with the IEEE special
      values [PInf], [NInf] and [NaN].  The operations [nadd], [nsub],
      [nmul] and [ndiv] are the IEEE operations without their rounding
      step, and what is stated of them is what rounding leaves untouched:
      shapes, exceptions, special values, and cells that both sides compute
      by the same operations.  Module [Binary64] adds the rounding step,
      to nearest with ties to even and with overflow to the infinities, for
      the cells whose arithmetic the source fixes operation by operation;
      what depends on the computed values is stated there.  The sign of a
      zero is not kept. *)

From stdpp Require Import base list numbers option gmap.
From Stdlib Require Import ZArith QArith Qcanon Qround Qpower Lia Lqa.

Close Scope Qc_scope.
Close Scope Q_scope.

(** ** Python outcomes *)

(** [Stuck] is not a Python exception: the store model below answers it when
    a reference holds no object of the expected kind, which no run of the
    notebook can bring about. *)
Inductive exn := IndexError | ValueError | OverflowError | Stuck.

Inductive result (A : Type) :=
  | Ok (a : A)
  | Raise (e : exn).
Arguments Ok {A} a.
Arguments Raise {A} e.

Global Instance exn_eq_dec : EqDecision exn.
Proof. solve_decision. Defined.
Global Instance result_eq_dec `{EqDecision A} : EqDecision (result A).
Proof. solve_decision. Defined.

Global Instance result_ret : MRet result := λ A a, Ok a.
Global Instance result_bind : MBind result := λ A B f m,
  match m with
  | Ok a => f a
  | Raise e => Raise e
  end.

Definition raises {A} (r : result A) : Prop :=
  match r with
  | Ok _ => False
  | Raise _ => True
  end.

(** ** Array cells *)

Inductive num :=
  | Fin (q : Qc)
  | PInf
  | NInf
  | NaN.

Global Instance num_eq_dec : EqDecision num.
Proof. solve_decision. Defined.
Global Instance num_inhabited : Inhabited num := populate NaN.

Definition finite (x : num) : Prop :=
  match x with
  | Fin _ => True
  | _ => False
  end.

Global Instance finite_dec x : Decision (finite x).
Proof. destruct x; simpl; apply _. Defined.

(** ** Two-dimensional arrays *)

Record matrix := Matrix {
  ncols : nat;
  mrows : list (list num)
}.

Global Instance matrix_eq_dec : EqDecision matrix.
Proof. solve_decision. Defined.

Definition nrows (m : matrix) : nat := length (mrows m).

(** Every row has [shape[1]] cells. *)
Definition wf_matrix (m : matrix) : Prop :=
  Forall (λ r, length r = ncols m) (mrows m).

Global Instance wf_matrix_dec m : Decision (wf_matrix m).
Proof. unfold wf_matrix. apply _. Defined.

(** The cell at row [r], column [c], when it exists. *)
Definition entry (m : matrix) (r c : nat) : option num :=
  mrows m !! r ≫= (.!! c).

(** ** Python indexing *)

(** CPython's [PySlice_AdjustIndices] for a step of one: a negative bound
    counts from the end, and both bounds are clamped to [0, n]. *)
Definition adjust_index (k : Z) (n : nat) : nat :=
  if (k <? 0)%Z then Z.to_nat (Z.max 0 (k + Z.of_nat n))
  else Z.to_nat (Z.min k (Z.of_nat n)).

(** The bounds of [lo:hi] on an axis of length [n]; an omitted bound is
    [None] and stands for the start, respectively the end, of the axis. *)
Definition slice_start (lo : option Z) (n : nat) : nat :=
  from_option (λ k, adjust_index k n) 0 lo.
Definition slice_stop (hi : option Z) (n : nat) : nat :=
  from_option (λ k, adjust_index k n) n hi.

(** [m[:, lo:hi]] (and [df.iloc[:, lo:hi]]): the columns from [start] up to
    [stop], none when [stop <= start]. *)
Definition slice_cols (lo hi : option Z) (m : matrix) : matrix :=
  let start := slice_start lo (ncols m) in
  let stop := slice_stop hi (ncols m) in
  Matrix (stop - start) ((λ r, take (stop - start) (drop start r)) <$> mrows m).

(** [m[:, k]] for an integer [k]: a negative [k] counts from the end, an
    index outside the axis raises [IndexError]. *)
Definition col (k : Z) (m : matrix) : result (list num) :=
  let idx := if (k <? 0)%Z then (k + Z.of_nat (ncols m))%Z else k in
  if bool_decide (0 ≤ idx < Z.of_nat (ncols m))%Z
  then Ok ((λ r, default NaN (r !! Z.to_nat idx)) <$> mrows m)
  else Raise IndexError.

(** [range(n)] *)
Definition range (n : Z) : list nat := seq 0 (Z.to_nat n).

(** [for i in idxs: s = body(i, s)], stopping at the first exception. *)
Fixpoint for_each {S} (idxs : list nat) (body : nat → S → result S) (s : S)
  : result S :=
  match idxs with
  | [] => Ok s
  | i :: rest => s' ← body i s; for_each rest body s'
  end.

(** ** Windowing: [sequence_data_preparation] *)

(** One iteration of either loop: [a = data[:, i : i + seq_len + pre_len]],
    [X.append(a[:, :seq_len])], [Y.append(a[:, -1])]. *)
Definition window_step (seq_len pre_len : Z) (data : matrix) (i : nat)
    (acc : list matrix * list (list num))
  : result (list matrix * list (list num)) :=
  let a :=
    slice_cols (Some (Z.of_nat i)) (Some (Z.of_nat i + seq_len + pre_len)%Z) data in
  let X := acc.1 ++ [slice_cols None (Some seq_len) a] in
  y ← col (-1) a;
  Ok (X, acc.2 ++ [y]).

(** One of the two loops, from its empty lists. *)
Definition windows (seq_len pre_len : Z) (data : matrix)
  : result (list matrix * list (list num)) :=
  for_each (range (Z.of_nat (ncols data) - (seq_len + pre_len - 1))%Z)
           (window_step seq_len pre_len data) ([], []).

(** [np.array] of the four Python lists stacks their items along a new
    leading axis; the lists stand for the stacked arrays (an empty list for
    the empty 1-D array [np.array([])]). *)
Definition sequence_data_preparation (seq_len pre_len : Z)
    (train_data test_data : matrix)
  : result (list matrix * list (list num) * list matrix * list (list num)) :=
  '(trainX, trainY) ← windows seq_len pre_len train_data;
  '(testX, testY) ← windows seq_len pre_len test_data;
  Ok (trainX, trainY, testX, testY).


(** ** Arithmetic on cells *)

Definition nsub (x y : num) : num :=
  match x, y with
  | NaN, _ | _, NaN => NaN
  | Fin a, Fin b => Fin (a - b)%Qc
  | PInf, PInf | NInf, NInf => NaN
  | PInf, _ | _, NInf => PInf
  | NInf, _ | _, PInf => NInf
  end.

Definition nadd (x y : num) : num :=
  match x, y with
  | NaN, _ | _, NaN => NaN
  | Fin a, Fin b => Fin (a + b)%Qc
  | PInf, NInf | NInf, PInf => NaN
  | PInf, _ | _, PInf => PInf
  | NInf, _ | _, NInf => NInf
  end.

(** An infinity times a finite factor: the sign of the factor decides, and
    zero times infinity is invalid. *)
Definition inf_times (pos : bool) (b : Qc) : num :=
  match (b ?= 0)%Qc with
  | Eq => NaN
  | Gt => if pos then PInf else NInf
  | Lt => if pos then NInf else PInf
  end.

Definition nmul (x y : num) : num :=
  match x, y with
  | NaN, _ | _, NaN => NaN
  | Fin a, Fin b => Fin (a * b)%Qc
  | PInf, Fin b | Fin b, PInf => inf_times true b
  | NInf, Fin b | Fin b, NInf => inf_times false b
  | PInf, PInf | NInf, NInf => PInf
  | PInf, NInf | NInf, PInf => NInf
  end.

(** Division by zero gives an infinity of the sign of the numerator, and
    [NaN] for [0 / 0]; the zero denominators of this program are differences
    of equal values and counts, which are [+0]. *)
Definition ndiv (x y : num) : num :=
  match x, y with
  | NaN, _ | _, NaN => NaN
  | Fin a, Fin b =>
      if decide (b = 0%Qc) then
        match (a ?= 0)%Qc with
        | Eq => NaN
        | Gt => PInf
        | Lt => NInf
        end
      else Fin (a / b)%Qc
  | Fin _, (PInf | NInf) => Fin 0%Qc
  | (PInf | NInf), (PInf | NInf) => NaN
  | PInf, Fin b => if decide (b < 0)%Qc then NInf else PInf
  | NInf, Fin b => if decide (b < 0)%Qc then PInf else NInf
  end.

Definition nabs (x : num) : num :=
  match x with
  | Fin a => Fin (if decide (a < 0)%Qc then (- a)%Qc else a)
  | PInf | NInf => PInf
  | NaN => NaN
  end.

(** [np.maximum] and [np.minimum] of two cells: [NaN] propagates. *)
Definition nmax (x y : num) : num :=
  match x, y with
  | NaN, _ | _, NaN => NaN
  | PInf, _ | _, PInf => PInf
  | NInf, z | z, NInf => z
  | Fin a, Fin b => Fin (if decide (a ≤ b)%Qc then b else a)
  end.

Definition nmin (x y : num) : num :=
  match x, y with
  | NaN, _ | _, NaN => NaN
  | NInf, _ | _, NInf => NInf
  | PInf, z | z, PInf => z
  | Fin a, Fin b => Fin (if decide (a ≤ b)%Qc then a else b)
  end.

(** [x != 0] on floats; [NaN != 0] is true. *)
Definition nonzero (x : num) : bool := negb (bool_decide (x = Fin 0%Qc)).

Definition is_nan (x : num) : bool :=
  match x with
  | NaN => true
  | _ => false
  end.

(** [int(x)] of a float: truncation toward zero. *)
Definition py_int (x : num) : result Z :=
  match x with
  | Fin q => Ok (Z.quot (Qnum q) (Zpos (Qden q)))
  | PInf | NInf => Raise OverflowError
  | NaN => Raise ValueError
  end.

(** A Python [int] as a float operand. *)
Definition of_int (z : Z) : num := Fin (Qc_of_Z z).

(** ** Reductions and broadcasting *)

(** [m.max()] and [m.min()] over all cells; a zero-size array has no
    maximum. *)
Definition amax (m : matrix) : result num :=
  match concat (mrows m) with
  | [] => Raise ValueError
  | x :: l => Ok (foldl nmax x l)
  end.

Definition amin (m : matrix) : result num :=
  match concat (mrows m) with
  | [] => Raise ValueError
  | x :: l => Ok (foldl nmin x l)
  end.

(** [m - c] and [m / c] for a scalar [c]. *)
Definition msub_scalar (m : matrix) (c : num) : matrix :=
  Matrix (ncols m) ((λ r : list num, (λ x, nsub x c) <$> r) <$> mrows m).
Definition mdiv_scalar (m : matrix) (c : num) : matrix :=
  Matrix (ncols m) ((λ r : list num, (λ x, ndiv x c) <$> r) <$> mrows m).

(** [Y * c] for a stacked array of vectors. *)
Definition smul (Y : list (list num)) (c : num) : list (list num) :=
  (λ r : list num, (λ y, nmul y c) <$> r) <$> Y.

(** [np.mean] of a 1-D array: the sum over the count ([NaN] when empty). *)
Definition nsum (v : list num) : num := foldl nadd (Fin 0%Qc) v.
Definition mean (v : list num) : num := ndiv (nsum v) (of_int (Z.of_nat (length v))).

(** [np.nanmean]: the mean of the cells that are not [NaN]. *)
Definition nanmean (v : list num) : num := mean (filter (λ x, is_nan x = false) v).

(** [u - v] for 1-D arrays: equal lengths, or one of them of length one. *)
Definition vsub (u v : list num) : result (list num) :=
  if decide (length u = length v) then Ok (zip_with nsub u v)
  else match u, v with
       | [x], _ => Ok ((λ y, nsub x y) <$> v)
       | _, [y] => Ok ((λ x, nsub x y) <$> u)
       | _, _ => Raise ValueError
       end.

(** ** [train_test_split] *)

Definition train_test_split (data : matrix) (train_portion : num)
  : result (matrix * matrix) :=
  let time_len := ncols data in
  train_size ← py_int (nmul (of_int (Z.of_nat time_len)) train_portion);
  let train_data := slice_cols None (Some train_size) data in
  let test_data := slice_cols (Some train_size) None data in
  Ok (train_data, test_data).

(** ** [scale_data] *)

(** The affine map of the scaler on one cell. *)
Definition transform (min_speed max_speed x : num) : num :=
  ndiv (nsub x min_speed) (nsub max_speed min_speed).

Definition scale_data (train_data test_data : matrix) : result (matrix * matrix) :=
  max_speed ← amax train_data;
  min_speed ← amin train_data;
  let train_scaled :=
    mdiv_scalar (msub_scalar train_data min_speed) (nsub max_speed min_speed) in
  let test_scaled :=
    mdiv_scalar (msub_scalar test_data min_speed) (nsub max_speed min_speed) in
  Ok (train_scaled, test_scaled).

(** ** Rescaling for the report *)

(** [Y * max_speed]: the inverse used for reporting. *)
Definition rescale (max_speed y : num) : num := nmul y max_speed.

(** [f] on every item in turn, stopping at the first exception. *)
Fixpoint traverse {A B} (f : A → result B) (l : list A) : result (list B) :=
  match l with
  | [] => Ok []
  | a :: l' => b ← f a; bs ← traverse f l'; Ok (b :: bs)
  end.

(** [np.array(testX)[:, :, -1]]: the last cell of every row of every
    window; the empty 1-D array [np.array([])] has no third axis. *)
Definition last_of_windows (X : list matrix) : result (list (list num)) :=
  match X with
  | [] => Raise IndexError
  | _ => traverse (col (-1)) X
  end.

(** [X.shape[-1]] of the stacked windows ([0] for [np.array([])]). *)
Definition shape_last (X : list matrix) : nat :=
  match X with
  | [] => 0
  | x :: _ => ncols x
  end.

(** [Y.T[j]] for a stacked array of vectors: the cells of sensor [j], one per
    example. *)
Definition transposed_row (j : nat) (Y : list (list num)) : result (list num) :=
  match Y with
  | [] => Raise IndexError
  | y :: _ =>
      if decide (j < length y)%nat then Ok ((λ r, default NaN (r !! j)) <$> Y)
      else Raise IndexError
  end.

(** ** Performance measures *)

Record measures := Measures {
  seg_mael : list num;
  seg_masel : list num;
  seg_nmael : list num
}.

Global Instance measures_eq_dec : EqDecision measures.
Proof. solve_decision. Defined.

(** The body of the loop over [j]. *)
Definition measure_step (test_rescref test_rescpred testnpredc : list (list num))
    (j : nat) (acc : measures) : result measures :=
  ref ← transposed_row j test_rescref;
  pred ← transposed_row j test_rescpred;
  d ← vsub ref pred;
  let mae := mean (nabs <$> d) in
  npred ← transposed_row j testnpredc;
  nd ← vsub ref npred;
  let nmae := mean (nabs <$> nd) in
  let masel :=
    if nonzero nmae then seg_masel acc ++ [ndiv mae nmae]
    else seg_masel acc ++ [NaN] in
  Ok (Measures (seg_mael acc ++ [mae]) masel (seg_nmael acc ++ [nmae])).

(** The loop [for j in range(testX.shape[-1])]. *)
Definition segment_measures (testX : list matrix)
    (test_rescref test_rescpred testnpredc : list (list num)) : result measures :=
  for_each (range (Z.of_nat (shape_last testX)))
           (measure_step test_rescref test_rescpred testnpredc)
           (Measures [] [] []).

(** What the three [print]s show. *)
Record totals := Totals {
  total_mae : num;
  total_naive_mae : num;
  total_mase : num
}.

Global Instance totals_eq_dec : EqDecision totals.
Proof. solve_decision. Defined.

Definition summary (ms : measures) : totals :=
  Totals (mean (seg_mael ms)) (mean (seg_nmael ms)) (nanmean (seg_masel ms)).

(** ** The cells between prediction and report *)

(** "Rescale values": [max_speed] and [min_speed] are read off the training
    partition again, and the targets are multiplied by [max_speed]. *)
Definition rescale_reference (train_data : matrix) (trainY testY : list (list num))
  : result (num * list (list num) * list (list num)) :=
  max_speed ← amax train_data;
  min_speed ← amin train_data;
  let train_rescref := smul trainY max_speed in
  let test_rescref := smul testY max_speed in
  Ok (max_speed, train_rescref, test_rescref).

(** "Rescale model predicted values" *)
Definition rescale_predictions (max_speed : num) (ythat yhat : list (list num))
  : list (list num) * list (list num) :=
  let train_rescpred := smul ythat max_speed in
  let test_rescpred := smul yhat max_speed in
  (train_rescpred, test_rescpred).

(** "Naive prediction benchmark" *)
Definition naive_prediction (max_speed : num) (testX : list matrix)
  : result (list (list num)) :=
  testnpred ← last_of_windows testX;
  let testnpredc := smul testnpred max_speed in
  Ok testnpredc.

(** The three cells followed by the performance loop, given the predictions
    [ythat] and [yhat] of the trained network on [trainX] and [testX]. *)
Definition evaluate (train_data : matrix) (testX : list matrix)
    (trainY testY ythat yhat : list (list num)) : result (measures * totals) :=
  '(max_speed, train_rescref, test_rescref) ←
    rescale_reference train_data trainY testY;
  let '(train_rescpred, test_rescpred) :=
    rescale_predictions max_speed ythat yhat in
  testnpredc ← naive_prediction max_speed testX;
  ms ← segment_measures testX test_rescref test_rescpred testnpredc;
  Ok (ms, summary ms).

(** ** The preprocessing calls in sequence *)

Definition preprocess (speed_data : matrix) (train_rate : num)
    (seq_len pre_len : Z)
  : result (list matrix * list (list num) * list matrix * list (list num)) :=
  '(train_data, test_data) ← train_test_split speed_data train_rate;
  '(train_scaled, test_scaled) ← scale_data train_data test_data;
  sequence_data_preparation seq_len pre_len train_scaled test_scaled.

(** ** Descriptions used by the statements *)

(** The window and the target that start at column [i], read directly off
    the rows of the matrix. *)
Definition window_at (seq_len : Z) (data : matrix) (i : nat) : matrix :=
  Matrix (Z.to_nat seq_len)
         ((λ r, take (Z.to_nat seq_len) (drop i r)) <$> mrows data).

Definition target_at (seq_len pre_len : Z) (data : matrix) (i : nat) : list num :=
  (λ r, default NaN (r !! (i + Z.to_nat (seq_len + pre_len - 1))%nat)) <$> mrows data.

(** The slice [a] that round [i] of either loop works on. *)
Definition round_slice (seq_len pre_len : Z) (data : matrix) (i : nat) : matrix :=
  slice_cols (Some (Z.of_nat i)) (Some (Z.of_nat i + seq_len + pre_len)%Z) data.

(** [x] holds columns [i, i + seq_len) of every row of [data]. *)
Definition is_window (data : matrix) (seq_len i : nat) (x : matrix) : Prop :=
  ncols x = seq_len ∧ nrows x = nrows data ∧
  ∀ r k, (k < seq_len)%nat → entry x r k = entry data r (i + k).

(** [y] holds column [c] of every row of [data]. *)
Definition is_column (data : matrix) (c : nat) (y : list num) : Prop :=
  length y = nrows data ∧ ∀ r, y !! r = entry data r c.

(** [X] and [Y] are the examples of [data], in increasing order of their
    start index: [T - (seq_len + pre_len - 1)] of them, the one at index [i]
    being the window at [i] and the column [i + seq_len + pre_len - 1]. *)
Definition windowed (seq_len pre_len : Z) (data : matrix)
    (X : list matrix) (Y : list (list num)) : Prop :=
  Z.of_nat (length X) = (Z.of_nat (ncols data) - (seq_len + pre_len - 1))%Z ∧
  length Y = length X ∧
  ∀ i, (i < length X)%nat →
    ∃ x y, X !! i = Some x ∧ Y !! i = Some y ∧
      is_window data (Z.to_nat seq_len) i x ∧
      is_column data (i + Z.to_nat (seq_len + pre_len - 1)) y.

(** The cell of example [i] and sensor [r] in a stacked array of vectors. *)
Definition cell (Y : list (list num)) (i r : nat) : option num :=
  Y !! i ≫= (.!! r).

(** The last cell of every row. *)
Definition last_cells (w : matrix) : list num :=
  (λ r, default NaN (r !! (ncols w - 1)%nat)) <$> mrows w.

(** All cells of a matrix, row after row. *)
Definition cells (m : matrix) : list num := concat (mrows m).

(** A cell bounded above, respectively below, by a rational. *)
Definition at_most (M : Qc) (x : num) : Prop :=
  match x with
  | Fin q => (q ≤ M)%Qc
  | NInf => True
  | _ => False
  end.

Definition at_least (m : Qc) (x : num) : Prop :=
  match x with
  | Fin q => (m ≤ q)%Qc
  | PInf => True
  | _ => False
  end.

(** A cell that is a rational of the unit interval. *)
Definition in_unit_interval (x : num) : Prop :=
  match x with
  | Fin q => (0 ≤ q ≤ 1)%Qc
  | _ => False
  end.

(** Entry by entry, a zero naive error is marked with [NaN] and any other
    naive error divides the model error. *)
Definition marked (ms : measures) : Prop :=
  ∀ j nmae, seg_nmael ms !! j = Some nmae →
    ∃ mae, seg_mael ms !! j = Some mae ∧
      seg_masel ms !! j = Some (if nonzero nmae then ndiv mae nmae else NaN).

(** The number of sensors: [X.shape[1]] of the stacked windows. *)
Definition shape_sensors (X : list matrix) : nat :=
  match X with
  | [] => 0
  | x :: _ => nrows x
  end.

(** The loop as the specification describes it, one round per sensor: the
    body of the notebook's loop over [range(testX.shape[1])]. *)
Definition segment_measures_per_sensor (testX : list matrix)
    (test_rescref test_rescpred testnpredc : list (list num)) : result measures :=
  for_each (range (Z.of_nat (shape_sensors testX)))
           (measure_step test_rescref test_rescpred testnpredc)
           (Measures [] [] []).

(** ** Sample data *)

(** A row of integer readings, and the rational reading [n / d]. *)
Definition readings (l : list Z) : list num := of_int <$> l.
Definition reading (n : Z) (d : positive) : num := Fin (Q2Qc (n # d)).

(** Two sensors over fifteen timesteps of a linear ramp, and its split into
    nine training and six test columns. *)
Definition ramp : matrix :=
  Matrix 15 [readings [0; 1; 2; 3; 4; 5; 6; 7; 8; 9; 10; 11; 12; 13; 14]%Z;
             readings [10; 11; 12; 13; 14; 15; 16; 17; 18; 19; 20; 21; 22; 23; 24]%Z].
Definition ramp_train : matrix :=
  Matrix 9 [readings [0; 1; 2; 3; 4; 5; 6; 7; 8]%Z;
            readings [10; 11; 12; 13; 14; 15; 16; 17; 18]%Z].
Definition ramp_test : matrix :=
  Matrix 6 [readings [9; 10; 11; 12; 13; 14]%Z;
            readings [19; 20; 21; 22; 23; 24]%Z].

(** Two sensors with four scaled test readings each, the three examples they
    give for windows of one reading and a horizon of one step, and the
    predictions of a model that always answers 1. *)
Definition demo_train_data : matrix := Matrix 2 [readings [0; 2]%Z].
Definition demo_test_scaled : matrix :=
  Matrix 4 [readings [0; 1; 2; 1]%Z; readings [1; 1; 1; 1]%Z].
Definition demo_testX : list matrix :=
  [Matrix 1 [readings [0]%Z; readings [1]%Z];
   Matrix 1 [readings [1]%Z; readings [1]%Z];
   Matrix 1 [readings [2]%Z; readings [1]%Z]].
Definition demo_testY : list (list num) :=
  [readings [1; 1]%Z; readings [2; 1]%Z; readings [1; 1]%Z].
Definition demo_yhat : list (list num) :=
  [readings [1; 1]%Z; readings [1; 1]%Z; readings [1; 1]%Z].

(** One sensor with training readings 1, 3, 5 and test readings 2, 4, 6, and
    the two partitions after scaling. *)
Definition odd_train : matrix := Matrix 3 [readings [1; 3; 5]%Z].
Definition even_test : matrix := Matrix 3 [readings [2; 4; 6]%Z].
Definition odd_train_scaled : matrix :=
  Matrix 3 [[of_int 0; reading 1 2; of_int 1]].
Definition even_test_scaled : matrix :=
  Matrix 3 [[reading 1 4; reading 3 4; reading 5 4]].

(** ** Descriptions used by the further properties *)

(** A stacked array of [E] vectors of [N] cells each. *)
Definition stacked (E N : nat) (Y : list (list num)) : Prop :=
  length Y = E ∧ Forall (λ y, length y = N) Y.

Global Instance stacked_dec E N Y : Decision (stacked E N Y).
Proof. unfold stacked. apply _. Defined.

(** The cells of sensor [j], one per example. *)
Definition column (j : nat) (Y : list (list num)) : list num :=
  (λ r, default NaN (r !! j)) <$> Y.

(** The mean absolute difference of sensor [j] between two stacked arrays,
    and the ratio or marker the loop records for two such errors. *)
Definition column_mae (A B : list (list num)) (j : nat) : num :=
  mean (nabs <$> zip_with nsub (column j A) (column j B)).

Definition ratio_or_marker (mae nmae : num) : num :=
  if nonzero nmae then ndiv mae nmae else NaN.

(** * The arithmetic cells in binary64 *)

(** The operations [nsub], [nmul] and [ndiv] above are the IEEE 754
    operations without their rounding step.  This module adds the step:
    every arithmetic result is rounded to the nearest binary64 number, ties
    to even, and a result beyond the largest finite double becomes an
    infinity.  It restates the cells whose arithmetic the source fixes
    operation by operation: [train_test_split], [scale_data], the rescaling
    cells and the naive benchmark.  Comparisons, [max()], [min()] and
    slicing involve no rounding and are shared with the model above.
    ([np.mean] adds in an order that the source does not fix, so the
    performance loop has no counterpart here.)  The sign of a zero is not
    kept. *)
Module Binary64.

(** [floor (log2 u)] for a positive rational [u]: the difference of the bit
    lengths of numerator and denominator, or one less. *)
Definition floor_log2 (u : Q) : Z :=
  let k := (Z.log2 (Qnum u) - Z.log2 (Zpos (Qden u)))%Z in
  if Qle_bool (2 ^ k) u then k else (k - 1)%Z.

(** The integer nearest to [u], the even one of two equally near. *)
Definition nearest_even (u : Q) : Z :=
  let m := Qfloor u in
  match (2 * (u - inject_Z m) ?= 1)%Q with
  | Lt => m
  | Gt => (m + 1)%Z
  | Eq => if Z.even m then m else (m + 1)%Z
  end.

(** The exponent of the last place of a positive [u]: 53 significant bits,
    and never below that of the subnormal numbers. *)
Definition exponent (u : Q) : Z := Z.max (floor_log2 u - 52) (-1074).

(** The multiple of [2 ^ exponent u] nearest to [u]. *)
Definition rounded (u : Q) : Q :=
  (inject_Z (nearest_even (u / 2 ^ exponent u)) * 2 ^ exponent u)%Q.

(** The double nearest to a positive [u]; from [2 ^ 1024] on it is [PInf]. *)
Definition round_pos (u : Q) : num :=
  if Qle_bool (2 ^ 1024) (rounded u) then PInf else Fin (Q2Qc (rounded u)).

Definition nopp (x : num) : num :=
  match x with
  | Fin q => Fin (- q)%Qc
  | PInf => NInf
  | NInf => PInf
  | NaN => NaN
  end.

Definition round (x : num) : num :=
  match x with
  | Fin q =>
      match (q ?= 0)%Qc with
      | Eq => Fin 0%Qc
      | Gt => round_pos q
      | Lt => nopp (round_pos (- q)%Qc)
      end
  | _ => x
  end.

(** A decimal literal such as [0.8]: the double nearest to [n / d]. *)
Definition double (n : Z) (d : positive) : num := round (reading n d).

Definition nsub (x y : num) : num := round (nsub x y).
Definition nmul (x y : num) : num := round (nmul x y).
Definition ndiv (x y : num) : num := round (ndiv x y).

(** A Python [int] as a float operand: the nearest double, and
    [OverflowError] for an integer too large for any. *)
Definition float_of_int (z : Z) : result num :=
  match round (of_int z) with
  | Fin q => Ok (Fin q)
  | _ => Raise OverflowError
  end.

Definition msub_scalar (m : matrix) (c : num) : matrix :=
  Matrix (ncols m) ((λ r : list num, (λ x, nsub x c) <$> r) <$> mrows m).
Definition mdiv_scalar (m : matrix) (c : num) : matrix :=
  Matrix (ncols m) ((λ r : list num, (λ x, ndiv x c) <$> r) <$> mrows m).
Definition smul (Y : list (list num)) (c : num) : list (list num) :=
  (λ r : list num, (λ y, nmul y c) <$> r) <$> Y.

Definition train_test_split (data : matrix) (train_portion : num)
  : result (matrix * matrix) :=
  let time_len := ncols data in
  t ← float_of_int (Z.of_nat time_len);
  train_size ← py_int (nmul t train_portion);
  let train_data := slice_cols None (Some train_size) data in
  let test_data := slice_cols (Some train_size) None data in
  Ok (train_data, test_data).

Definition transform (min_speed max_speed x : num) : num :=
  ndiv (nsub x min_speed) (nsub max_speed min_speed).

Definition scale_data (train_data test_data : matrix) : result (matrix * matrix) :=
  max_speed ← amax train_data;
  min_speed ← amin train_data;
  let train_scaled :=
    mdiv_scalar (msub_scalar train_data min_speed) (nsub max_speed min_speed) in
  let test_scaled :=
    mdiv_scalar (msub_scalar test_data min_speed) (nsub max_speed min_speed) in
  Ok (train_scaled, test_scaled).

Definition rescale (max_speed y : num) : num := nmul y max_speed.

Definition rescale_reference (train_data : matrix) (trainY testY : list (list num))
  : result (num * list (list num) * list (list num)) :=
  max_speed ← amax train_data;
  min_speed ← amin train_data;
  let train_rescref := smul trainY max_speed in
  let test_rescref := smul testY max_speed in
  Ok (max_speed, train_rescref, test_rescref).

Definition rescale_predictions (max_speed : num) (ythat yhat : list (list num))
  : list (list num) * list (list num) :=
  let train_rescpred := smul ythat max_speed in
  let test_rescpred := smul yhat max_speed in
  (train_rescpred, test_rescpred).

Definition naive_prediction (max_speed : num) (testX : list matrix)
  : result (list (list num)) :=
  testnpred ← last_of_windows testX;
  let testnpredc := smul testnpred max_speed in
  Ok testnpredc.

Definition preprocess (speed_data : matrix) (train_rate : num)
    (seq_len pre_len : Z)
  : result (list matrix * list (list num) * list matrix * list (list num)) :=
  '(train_data, test_data) ← train_test_split speed_data train_rate;
  '(train_scaled, test_scaled) ← scale_data train_data test_data;
  sequence_data_preparation seq_len pre_len train_scaled test_scaled.

End Binary64.

(** * The same functions over a store of Python objects

    numpy slices are views on the buffer of the array they are taken from,
    [np.array] and arithmetic allocate a new buffer, and [list.append]
    updates a list object in place.  This second model keeps the store
    explicit so that aliasing and mutation can be stated. *)

Module Heap.

Definition loc := nat.

(** An array value: an array that owns the buffer at [l], a 2-D view of
    [width] columns of that buffer from column [start] on, or a 1-D view of
    its column [k]. *)
Inductive aref :=
  | Own (l : loc)
  | Cols (l : loc) (start width : nat)
  | Column (l : loc) (k : nat).

Inductive obj :=
  | DataFrame (m : matrix)
  | Buffer (m : matrix)
  | StackX (X : list matrix)
  | StackY (Y : list (list num))
  | PyList (items : list aref).

Global Instance aref_eq_dec : EqDecision aref.
Proof. solve_decision. Defined.
Global Instance obj_eq_dec : EqDecision obj.
Proof. solve_decision. Defined.

Abbreviation heap := (gmap loc obj).

(** A computation on the store; the store survives an exception. *)
Definition M (A : Type) : Type := heap → result A * heap.

Definition ret {A} (a : A) : M A := λ h, (Ok a, h).
Definition bind {A B} (c : M A) (k : A → M B) : M B := λ h,
  match c h with
  | (Ok a, h') => k a h'
  | (Raise e, h') => (Raise e, h')
  end.
Definition raise {A} (e : exn) : M A := λ h, (Raise e, h).
Definition lift {A} (r : result A) : M A := λ h, (r, h).

Global Instance M_ret : MRet M := @ret.
Global Instance M_bind : MBind M := λ A B k c, bind c k.

(** A new object at an unused location. *)
Definition alloc (o : obj) : M loc := λ h,
  let l := fresh (dom h) in (Ok l, <[l := o]> h).

(** The cells of the buffer or frame at [l]. *)
Definition matrix_at (l : loc) : M matrix := λ h,
  match h !! l with
  | Some (DataFrame m) | Some (Buffer m) => (Ok m, h)
  | _ => (Raise Stuck, h)
  end.

Definition list_at (l : loc) : M (list aref) := λ h,
  match h !! l with
  | Some (PyList items) => (Ok items, h)
  | _ => (Raise Stuck, h)
  end.

(** [lst.append(v)]: the list object at [l] is updated in place. *)
Definition append (l : loc) (v : aref) : M unit := λ h,
  match h !! l with
  | Some (PyList items) => (Ok (), <[l := PyList (items ++ [v])]> h)
  | _ => (Raise Stuck, h)
  end.

(** [r.shape[1]] *)
Definition shape1 (r : aref) : M nat :=
  match r with
  | Own l => m ← matrix_at l; mret (ncols m)
  | Cols _ _ width => mret width
  | Column _ _ => raise IndexError
  end.

(** [r[:, lo:hi]]: a view, no cell is copied. *)
Definition slice_view (lo hi : option Z) (r : aref) : M aref :=
  match r with
  | Own l =>
      m ← matrix_at l;
      let start := slice_start lo (ncols m) in
      let stop := slice_stop hi (ncols m) in
      mret (Cols l start (stop - start))
  | Cols l s width =>
      let start := slice_start lo width in
      let stop := slice_stop hi width in
      mret (Cols l (s + start) (stop - start))
  | Column _ _ => raise IndexError
  end.

(** [r[:, k]]: a 1-D view of one column. *)
Definition col_view (k : Z) (r : aref) : M aref :=
  n ← shape1 r;
  let idx := if (k <? 0)%Z then (k + Z.of_nat n)%Z else k in
  if bool_decide (0 ≤ idx < Z.of_nat n)%Z then
    match r with
    | Own l => mret (Column l (Z.to_nat idx))
    | Cols l s _ => mret (Column l (s + Z.to_nat idx))
    | Column _ _ => raise IndexError
    end
  else raise IndexError.

(** The cells seen through a 2-D array value. *)
Definition read_matrix (r : aref) : M matrix :=
  match r with
  | Own l => matrix_at l
  | Cols l s width =>
      m ← matrix_at l;
      mret (Matrix width ((λ row, take width (drop s row)) <$> mrows m))
  | Column _ _ => raise Stuck
  end.

(** The cells seen through a 1-D array value. *)
Definition read_vector (r : aref) : M (list num) :=
  match r with
  | Column l k =>
      m ← matrix_at l;
      mret ((λ row, default NaN (row !! k)) <$> mrows m)
  | _ => raise Stuck
  end.

Fixpoint for_each {S} (idxs : list nat) (body : nat → S → M S) (s : S) : M S :=
  match idxs with
  | [] => mret s
  | i :: rest => s' ← body i s; for_each rest body s'
  end.

Fixpoint traverse {A B} (f : A → M B) (l : list A) : M (list B) :=
  match l with
  | [] => mret []
  | a :: l' => b ← f a; bs ← traverse f l'; mret (b :: bs)
  end.

(** [np.array(r)] of an array or frame: always a copy. *)
Definition np_array (r : aref) : M aref :=
  m ← read_matrix r;
  l ← alloc (Buffer m);
  mret (Own l).

(** [np.array(lst)] of a list of 2-D, respectively 1-D, array values: the
    items are copied into one new array. *)
Definition np_array_X (lst : loc) : M aref :=
  items ← list_at lst;
  X ← traverse read_matrix items;
  l ← alloc (StackX X);
  mret (Own l).

Definition np_array_Y (lst : loc) : M aref :=
  items ← list_at lst;
  Y ← traverse read_vector items;
  l ← alloc (StackY Y);
  mret (Own l).

(** [r.max()], [r.min()], [r - c], [r / c]; the arithmetic allocates its
    result. *)
Definition max_of (r : aref) : M num := m ← read_matrix r; lift (amax m).
Definition min_of (r : aref) : M num := m ← read_matrix r; lift (amin m).

Definition sub_scalar (r : aref) (c : num) : M aref :=
  m ← read_matrix r;
  l ← alloc (Buffer (msub_scalar m c));
  mret (Own l).

Definition div_scalar (r : aref) (c : num) : M aref :=
  m ← read_matrix r;
  l ← alloc (Buffer (mdiv_scalar m c));
  mret (Own l).

Definition train_test_split (data : loc) (train_portion : num)
  : M (aref * aref) :=
  time_len ← shape1 (Own data);
  train_size ← lift (py_int (nmul (of_int (Z.of_nat time_len)) train_portion));
  train_view ← slice_view None (Some train_size) (Own data);
  train_data ← np_array train_view;
  test_view ← slice_view (Some train_size) None (Own data);
  test_data ← np_array test_view;
  mret (train_data, test_data).

Definition scale_data (train_data test_data : aref) : M (aref * aref) :=
  max_speed ← max_of train_data;
  min_speed ← min_of train_data;
  train_shifted ← sub_scalar train_data min_speed;
  train_scaled ← div_scalar train_shifted (nsub max_speed min_speed);
  test_shifted ← sub_scalar test_data min_speed;
  test_scaled ← div_scalar test_shifted (nsub max_speed min_speed);
  mret (train_scaled, test_scaled).

(** One iteration of either loop, appending to the lists at [X] and [Y]. *)
Definition window_step (seq_len pre_len : Z) (data : aref) (X Y : loc)
    (i : nat) (_ : unit) : M unit :=
  a ← slice_view (Some (Z.of_nat i))
                 (Some (Z.of_nat i + seq_len + pre_len)%Z) data;
  w ← slice_view None (Some seq_len) a;
  append X w;;
  y ← col_view (-1) a;
  append Y y.

Definition windows (seq_len pre_len : Z) (data : aref) (X Y : loc) : M unit :=
  n ← shape1 data;
  for_each (range (Z.of_nat n - (seq_len + pre_len - 1))%Z)
           (window_step seq_len pre_len data X Y) ().

Definition sequence_data_preparation (seq_len pre_len : Z)
    (train_data test_data : aref) : M (aref * aref * aref * aref) :=
  trainX ← alloc (PyList []);
  trainY ← alloc (PyList []);
  testX ← alloc (PyList []);
  testY ← alloc (PyList []);
  windows seq_len pre_len train_data trainX trainY;;
  windows seq_len pre_len test_data testX testY;;
  trainX' ← np_array_X trainX;
  trainY' ← np_array_Y trainY;
  testX' ← np_array_X testX;
  testY' ← np_array_Y testY;
  mret (trainX', trainY', testX', testY').

(** The three preprocessing calls of the notebook, in order. *)
Definition preprocess (speed_data : loc) (train_rate : num) (seq_len pre_len : Z)
  : M (aref * aref * aref * aref) :=
  '(train_data, test_data) ← train_test_split speed_data train_rate;
  '(train_scaled, test_scaled) ← scale_data train_data test_data;
  sequence_data_preparation seq_len pre_len train_scaled test_scaled.

(** A computation that leaves every location of [D] as it found it, never
    frees a location, and whose result satisfies [Q]. *)
Definition keeps {A} (D : gset loc) (c : M A) (Q : A → Prop) : Prop :=
  ∀ h, D ⊆ dom h →
    dom h ⊆ dom (c h).2 ∧
    (∀ l, l ∈ D → (c h).2 !! l = h !! l) ∧
    (∀ a, (c h).1 = Ok a → Q a).

(** An array value that owns a buffer outside [D]. *)
Definition fresh_array (D : gset loc) (r : aref) : Prop :=
  ∃ l, r = Own l ∧ l ∉ D.

(** The views one round of the loop appends for start index [i] on the
    buffer at [l]. *)
Definition window_view (seq_len : Z) (l : loc) (i : nat) : aref :=
  Cols l i (Z.to_nat seq_len).
Definition target_view (seq_len pre_len : Z) (l : loc) (i : nat) : aref :=
  Column l (i + Z.to_nat (seq_len + pre_len - 1)).

End Heap.

(** * Rounding to binary64 *)

(** Rounding to nearest never reverses an order, keeps 0 and 1 and every
    integer of at most 53 bits, and maps no positive number below zero. *)

Lemma pow2_pos (e : Z) : (0 < 2 ^ e)%Q.
Proof. by apply Qpower_0_lt. Qed.

Lemma pow2_plus (a b : Z) : (2 ^ (a + b) == 2 ^ a * 2 ^ b)%Q.
Proof. by apply Qpower_plus. Qed.

Lemma pow2_succ (a : Z) : (2 ^ (a + 1) == 2 * 2 ^ a)%Q.
Proof. rewrite pow2_plus. change (2 ^ 1)%Q with (2 * 1)%Q. ring. Qed.

Lemma pow2_le (a b : Z) : (a ≤ b)%Z → (2 ^ a <= 2 ^ b)%Q.
Proof. intros H. by apply Qpower_le_compat_l. Qed.

Lemma pow2_lt_inv (a b : Z) : (2 ^ a < 2 ^ b)%Q → (a < b)%Z.
Proof. intros H. by apply (Qpower_lt_compat_l_inv 2). Qed.

Lemma pow2_inject (a : Z) : (0 ≤ a)%Z → (inject_Z (2 ^ a) == 2 ^ a)%Q.
Proof. intros H. by rewrite Zpower_Qpower. Qed.

Lemma floor_log2_spec (u : Q) :
  (0 < u)%Q → (2 ^ Binary64.floor_log2 u <= u)%Q ∧ (u < 2 ^ (Binary64.floor_log2 u + 1))%Q.
Proof.
  intros Hu. destruct u as [n d].
  assert (Hn : (0 < n)%Z) by (unfold Qlt in Hu; cbn in Hu; lia).
  unfold Binary64.floor_log2. cbn [Qnum Qden].
  set (a := Z.log2 n). set (b := Z.log2 (Zpos d)).
  destruct (Z.log2_spec n Hn) as [Ha1 Ha2]. fold a in Ha1, Ha2.
  destruct (Z.log2_spec (Zpos d) eq_refl) as [Hb1 Hb2]. fold b in Hb1, Hb2.
  assert (Ha0 : (0 ≤ a)%Z) by apply Z.log2_nonneg.
  assert (Hb0 : (0 ≤ b)%Z) by apply Z.log2_nonneg.
  rewrite Zle_Qle in Ha1, Hb1. rewrite Zlt_Qlt in Ha2, Hb2.
  rewrite <- Z.add_1_r in Ha2, Hb2.
  rewrite pow2_inject in Ha1 by lia. rewrite pow2_inject in Ha2 by lia.
  rewrite pow2_inject in Hb1 by lia. rewrite pow2_inject in Hb2 by lia.
  rewrite pow2_succ in Ha2, Hb2.
  assert (Hu' : ((n # d) * inject_Z (Zpos d) == inject_Z n)%Q).
  { rewrite (Qmake_Qdiv n d). field. done. }
  pose proof (pow2_pos a) as Hpa. pose proof (pow2_pos b) as Hpb.
  pose proof (pow2_pos (a - b)) as Hpk.
  assert (Hk : (2 ^ (a - b) * 2 ^ b == 2 ^ a)%Q).
  { rewrite <- pow2_plus. by replace (a - b + b)%Z with a by lia. }
  assert (Hk1 : (2 * 2 ^ (a - b - 1) == 2 ^ (a - b))%Q).
  { rewrite <- pow2_succ. by replace (a - b - 1 + 1)%Z with (a - b)%Z by lia. }
  destruct (Qle_bool (2 ^ (a - b)) (n # d)) eqn:Hc.
  - apply Qle_bool_iff in Hc. split; [done|]. rewrite pow2_succ.
    set (U := Qmake n d) in *. set (N := inject_Z n) in *.
    set (D := inject_Z (Zpos d)) in *.
    set (PA := (2 ^ a)%Q) in *. set (PB := (2 ^ b)%Q) in *.
    set (X := (2 ^ (a - b))%Q) in *. clearbody U N D PA PB X. nra.
  - assert (Hc' : (n # d < 2 ^ (a - b))%Q).
    { apply Qnot_le_lt. intros H. apply Qle_bool_iff in H. congruence. }
    replace (a - b - 1 + 1)%Z with (a - b)%Z by lia. split; [|done].
    pose proof (pow2_pos (a - b - 1)) as Hpy.
    set (U := Qmake n d) in *. set (N := inject_Z n) in *.
    set (D := inject_Z (Zpos d)) in *.
    set (PA := (2 ^ a)%Q) in *. set (PB := (2 ^ b)%Q) in *.
    set (X := (2 ^ (a - b))%Q) in *. set (Y := (2 ^ (a - b - 1))%Q) in *.
    clearbody U N D PA PB X Y. nra.
Qed.

Lemma floor_bounds (u : Q) :
  (inject_Z (Qfloor u) <= u)%Q ∧ (u < inject_Z (Qfloor u) + 1)%Q.
Proof.
  split; [apply Qfloor_le|].
  pose proof (Qlt_floor u) as H. by rewrite inject_Z_plus in H.
Qed.

Lemma nearest_even_range (u : Q) :
  (Qfloor u ≤ Binary64.nearest_even u ≤ Qfloor u + 1)%Z.
Proof.
  unfold Binary64.nearest_even. destruct (_ ?= _)%Q; [destruct (Z.even _)| |]; lia.
Qed.

Lemma nearest_even_le_int (u : Q) (K : Z) :
  (u <= inject_Z K)%Q → (Binary64.nearest_even u ≤ K)%Z.
Proof.
  intros Hu. destruct (floor_bounds u) as [H1 H2].
  assert (Hm : (Qfloor u ≤ K)%Z).
  { rewrite Zle_Qle. by apply Qle_trans with u. }
  destruct (decide (Qfloor u = K)) as [E|E].
  - unfold Binary64.nearest_even. rewrite E in *.
    destruct (Qcompare_spec (2 * (u - inject_Z K)) 1) as [H|H|H];
      [exfalso; lra|lia|exfalso; lra].
  - pose proof (nearest_even_range u). lia.
Qed.

Lemma nearest_even_ge_int (u : Q) (K : Z) :
  (inject_Z K <= u)%Q → (K ≤ Binary64.nearest_even u)%Z.
Proof.
  intros Hu. pose proof (nearest_even_range u) as Hr.
  assert (Hm : (K ≤ Qfloor u)%Z).
  { rewrite <- (Qfloor_Z K). by apply Qfloor_resp_le. }
  lia.
Qed.

Lemma nearest_even_mono (u v : Q) :
  (u <= v)%Q → (Binary64.nearest_even u ≤ Binary64.nearest_even v)%Z.
Proof.
  intros Huv.
  pose proof (nearest_even_range u) as Hu. pose proof (nearest_even_range v) as Hv.
  pose proof (Qfloor_resp_le _ _ Huv) as Hf.
  destruct (decide (Qfloor u = Qfloor v)) as [E|E]; [|lia].
  unfold Binary64.nearest_even in *. rewrite E in *.
  set (m := Qfloor v) in *.
  destruct (Qcompare_spec (2 * (u - inject_Z m)) 1) as [H1|H1|H1];
    destruct (Qcompare_spec (2 * (v - inject_Z m)) 1) as [H2|H2|H2];
    try lia; try (destruct (Z.even m); lia); exfalso; lra.
Qed.

Lemma nearest_even_comp (u v : Q) : (u == v)%Q → Binary64.nearest_even u = Binary64.nearest_even v.
Proof.
  intros E. apply Z.le_antisymm; apply nearest_even_mono; rewrite E; apply Qle_refl.
Qed.

Lemma floor_log2_mono (u v : Q) :
  (0 < u)%Q → (u <= v)%Q → (Binary64.floor_log2 u ≤ Binary64.floor_log2 v)%Z.
Proof.
  intros Hu Huv.
  destruct (floor_log2_spec u Hu) as [H1 _].
  destruct (floor_log2_spec v) as [_ H2]; [lra|].
  assert (H : (Binary64.floor_log2 u < Binary64.floor_log2 v + 1)%Z); [|lia].
  apply pow2_lt_inv. lra.
Qed.

Lemma div_pow2_le (u v : Q) (e : Z) :
  (u <= v)%Q → (u / 2 ^ e <= v / 2 ^ e)%Q.
Proof.
  intros H. pose proof (pow2_pos e) as He.
  apply Qmult_le_compat_r; [done|]. apply Qinv_le_0_compat. lra.
Qed.

Lemma rounded_above (v : Q) (k : Z) :
  (Binary64.exponent v ≤ k)%Z → (2 ^ k <= v)%Q → (2 ^ k <= Binary64.rounded v)%Q.
Proof.
  intros Hk Hv. unfold Binary64.rounded. set (e := Binary64.exponent v) in *.
  pose proof (pow2_pos e) as He.
  assert (Hp : (2 ^ k == inject_Z (2 ^ (k - e)) * 2 ^ e)%Q).
  { rewrite pow2_inject by lia. rewrite <- pow2_plus.
    by replace (k - e + e)%Z with k by lia. }
  rewrite Hp. apply Qmult_le_compat_r; [|lra].
  rewrite <- Zle_Qle. apply nearest_even_ge_int.
  apply Qle_shift_div_l; [done|]. by rewrite <- Hp.
Qed.

Lemma rounded_below (u : Q) (k : Z) :
  (Binary64.exponent u ≤ k)%Z → (u <= 2 ^ k)%Q → (Binary64.rounded u <= 2 ^ k)%Q.
Proof.
  intros Hk Hu. unfold Binary64.rounded. set (e := Binary64.exponent u) in *.
  pose proof (pow2_pos e) as He.
  assert (Hp : (2 ^ k == inject_Z (2 ^ (k - e)) * 2 ^ e)%Q).
  { rewrite pow2_inject by lia. rewrite <- pow2_plus.
    by replace (k - e + e)%Z with k by lia. }
  rewrite Hp. apply Qmult_le_compat_r; [|lra].
  rewrite <- Zle_Qle. apply nearest_even_le_int.
  apply Qle_shift_div_r; [done|]. by rewrite <- Hp.
Qed.

Lemma rounded_mono (u v : Q) :
  (0 < u)%Q → (u <= v)%Q → (Binary64.rounded u <= Binary64.rounded v)%Q.
Proof.
  intros Hu Huv.
  pose proof (floor_log2_mono u v Hu Huv) as HL.
  destruct (decide (Binary64.exponent u = Binary64.exponent v)) as [E|E].
  - unfold Binary64.rounded. rewrite E. set (e := Binary64.exponent v).
    pose proof (pow2_pos e) as He.
    apply Qmult_le_compat_r; [|lra].
    rewrite <- Zle_Qle. apply nearest_even_mono. by apply div_pow2_le.
  - assert (Hev : Binary64.exponent v = (Binary64.floor_log2 v - 52)%Z ∧
                  (Binary64.floor_log2 u + 1 ≤ Binary64.floor_log2 v)%Z ∧
                  (Binary64.exponent u ≤ Binary64.floor_log2 v)%Z)
      by (unfold Binary64.exponent in *; lia).
    destruct Hev as (Hev & Hlt & Heu).
    destruct (floor_log2_spec u Hu) as [_ Hu2].
    destruct (floor_log2_spec v) as [Hv1 _]; [lra|].
    apply Qle_trans with (2 ^ Binary64.floor_log2 v)%Q.
    + apply rounded_below; [done|].
      pose proof (pow2_le (Binary64.floor_log2 u + 1) (Binary64.floor_log2 v) Hlt). lra.
    + apply rounded_above; [lia|done].
Qed.

Lemma rounded_nonneg (u : Q) : (0 < u)%Q → (0 <= Binary64.rounded u)%Q.
Proof.
  intros Hu. unfold Binary64.rounded. pose proof (pow2_pos (Binary64.exponent u)) as He.
  apply Qmult_le_0_compat; [|lra].
  change 0%Q with (inject_Z 0). rewrite <- Zle_Qle.
  apply nearest_even_ge_int. change (inject_Z 0) with 0%Q.
  apply Qle_shift_div_l; [done|]. lra.
Qed.

Lemma Qc_of_Z_le (a b : Z) : (a ≤ b)%Z ↔ (Qc_of_Z a ≤ Qc_of_Z b)%Qc.
Proof. unfold Qcle. cbn. by rewrite Zle_Qle. Qed.

Lemma Q2Qc_le (a b : Q) : (Q2Qc a ≤ Q2Qc b)%Qc ↔ (a <= b)%Q.
Proof. unfold Qcle. cbn. by rewrite !Qred_correct. Qed.

Lemma Qc_sign_cases (q : Qc) :
  (q ?= 0)%Qc = Eq ∧ q = 0%Qc ∨
  (q ?= 0)%Qc = Gt ∧ (0 < q)%Qc ∨
  (q ?= 0)%Qc = Lt ∧ (q < 0)%Qc.
Proof.
  destruct (q ?= 0)%Qc eqn:E.
  - left. split; [done|]. by apply Qceq_alt.
  - right. right. split; [done|]. by apply Qclt_alt.
  - right. left. split; [done|]. by apply Qcgt_alt.
Qed.

(** A positive number is rounded to [PInf] or to a non-negative rational. *)
Lemma round_pos_cases (u : Q) :
  (0 < u)%Q →
  (Binary64.round_pos u = PInf ∧ (2 ^ 1024 <= Binary64.rounded u)%Q) ∨
  (Binary64.round_pos u = Fin (Q2Qc (Binary64.rounded u)) ∧
   (Binary64.rounded u < 2 ^ 1024)%Q ∧ (0 ≤ Q2Qc (Binary64.rounded u))%Qc).
Proof.
  intros Hu. unfold Binary64.round_pos.
  destruct (Qle_bool _ _) eqn:E.
  - left. split; [done|]. by apply Qle_bool_iff.
  - right. split; [done|]. split.
    + apply Qnot_le_lt. intros H. apply Qle_bool_iff in H. congruence.
    + change 0%Qc with (Q2Qc 0). apply Q2Qc_le. by apply rounded_nonneg.
Qed.

Lemma binary64_round_mono (p q rq : Qc) :
  (0 ≤ p)%Qc → (p ≤ q)%Qc → Binary64.round (Fin q) = Fin rq →
  ∃ rp, Binary64.round (Fin p) = Fin rp ∧ (0 ≤ rp)%Qc ∧ (rp ≤ rq)%Qc.
Proof.
  intros Hp Hpq Hq. unfold Binary64.round in *.
  destruct (Qc_sign_cases q) as [[Eq ->]|[[Eq Hq0]|[Eq Hq0]]]; rewrite Eq in Hq.
  - assert (p = 0%Qc) as -> by (by apply Qcle_antisym).
    injection Hq as <-. exists 0%Qc. by rewrite Eq.
  - destruct (round_pos_cases q Hq0) as [[Hr _]|(Hr & Hlt & Hr0)];
      rewrite Hr in Hq; [done|]. injection Hq as <-.
    destruct (Qc_sign_cases p) as [[Ep ->]|[[Ep Hp0]|[Ep Hp0]]]; rewrite Ep.
    + by exists 0%Qc.
    + pose proof (rounded_mono p q Hp0 Hpq) as Hm.
      destruct (round_pos_cases p Hp0) as [[_ Hge]|(Hr' & _ & Hr0')].
      * exfalso. lra.
      * rewrite Hr'. eexists. split; [done|]. split; [done|]. by apply Q2Qc_le.
    + exfalso. by apply (Qclt_not_le _ _ Hp0).
  - exfalso. apply (Qclt_not_le _ _ Hq0). by apply Qcle_trans with p.
Qed.

Lemma binary64_round_one : Binary64.round (Fin 1%Qc) = Fin 1%Qc.
Proof. compute_done. Qed.

Lemma binary64_round_unit (q : Qc) :
  (0 ≤ q)%Qc → (q ≤ 1)%Qc →
  ∃ r, Binary64.round (Fin q) = Fin r ∧ (0 ≤ r)%Qc ∧ (r ≤ 1)%Qc.
Proof.
  intros H0 H1. exact (binary64_round_mono q 1 1 H0 H1 binary64_round_one).
Qed.

Lemma nearest_even_int (K : Z) : Binary64.nearest_even (inject_Z K) = K.
Proof.
  apply Z.le_antisymm.
  - apply nearest_even_le_int, Qle_refl.
  - apply nearest_even_ge_int, Qle_refl.
Qed.

(** An integer of at most 53 bits is a double. *)
Lemma rounded_small_int (z : Z) :
  (0 < z < 2 ^ 53)%Z → (Binary64.rounded (inject_Z z) == inject_Z z)%Q.
Proof.
  intros [Hz0 Hz1].
  assert (Hpos : (0 < inject_Z z)%Q).
  { change 0%Q with (inject_Z 0). by rewrite <- Zlt_Qlt. }
  destruct (floor_log2_spec _ Hpos) as [H1 H2].
  set (L := Binary64.floor_log2 (inject_Z z)) in *.
  assert (HL : (0 ≤ L ≤ 52)%Z).
  { split.
    - assert (H : (0 < L + 1)%Z); [|lia].
      apply pow2_lt_inv. change (2 ^ 0)%Q with 1%Q.
      assert (1 <= inject_Z z)%Q.
      { change 1%Q with (inject_Z 1). rewrite <- Zle_Qle. lia. }
      lra.
    - assert (H : (L < 53)%Z); [|lia].
      apply pow2_lt_inv. rewrite <- (pow2_inject 53) by lia.
      apply Qle_lt_trans with (inject_Z z); [done|]. by rewrite <- Zlt_Qlt. }
  unfold Binary64.rounded, Binary64.exponent. fold L.
  replace (Z.max (L - 52) (-1074)) with (L - 52)%Z by lia.
  set (e := (L - 52)%Z).
  assert (He : (inject_Z z / 2 ^ e == inject_Z (z * 2 ^ (- e)))%Q).
  { rewrite inject_Z_mult, pow2_inject by lia. rewrite Qpower_opp.
    reflexivity. }
  rewrite (nearest_even_comp _ _ He), nearest_even_int.
  rewrite inject_Z_mult, pow2_inject by lia.
  rewrite <- Qmult_assoc, <- pow2_plus.
  replace (- e + e)%Z with 0%Z by lia. change (2 ^ 0)%Q with 1%Q. ring.
Qed.

Lemma binary64_round_small_int (z : Z) :
  (0 ≤ z < 2 ^ 53)%Z → Binary64.round (of_int z) = of_int z.
Proof.
  intros [Hz0 Hz1]. unfold Binary64.round, of_int.
  destruct (decide (z = 0%Z)) as [->|Hne]; [compute_done|].
  assert (Hpos : (0 < Qc_of_Z z)%Qc).
  { apply Qcnot_le_lt. intros H. apply (Qc_of_Z_le _ 0) in H. lia. }
  apply Qcgt_alt in Hpos as Hcmp. rewrite Hcmp.
  assert (Hr : (Binary64.rounded (Qc_of_Z z) == inject_Z z)%Q).
  { apply rounded_small_int. lia. }
  unfold Binary64.round_pos.
  destruct (Qle_bool _ _) eqn:E.
  - exfalso. apply Qle_bool_iff in E. rewrite Hr in E.
    rewrite <- (pow2_inject 1024) in E by lia. rewrite <- Zle_Qle in E.
    assert (2 ^ 53 < 2 ^ 1024)%Z by (by apply Z.pow_lt_mono_r). lia.
  - f_equal. apply Qc_is_canon. cbn [this Q2Qc]. by rewrite Qred_correct.
Qed.

(** * Properties *)

(** ** Python indexing *)

Lemma bind_Ok {A B} (f : A → result B) (a : A) : Ok a ≫= f = f a.
Proof. reflexivity. Qed.

Lemma adjust_index_inside (k n : nat) : (k ≤ n)%nat → adjust_index (Z.of_nat k) n = k.
Proof.
  intros Hk. unfold adjust_index.
  destruct (Z.ltb_spec (Z.of_nat k) 0); lia.
Qed.

Lemma adjust_index_nonneg (k : Z) (n : nat) :
  (0 ≤ k ≤ Z.of_nat n)%Z → adjust_index k n = Z.to_nat k.
Proof.
  intros Hk. unfold adjust_index.
  destruct (Z.ltb_spec k 0); lia.
Qed.

(** ** Windowing *)

Lemma window_step_Ok seq_len pre_len data i acc :
  (1 ≤ seq_len)%Z → (1 ≤ pre_len)%Z →
  (Z.of_nat i + seq_len + pre_len ≤ Z.of_nat (ncols data))%Z →
  window_step seq_len pre_len data i acc =
    Ok (acc.1 ++ [window_at seq_len data i],
        acc.2 ++ [target_at seq_len pre_len data i]).
Proof.
  intros Hs Hp Hi. unfold window_step, slice_cols, slice_start, slice_stop, col.
  cbn [from_option ncols mrows].
  rewrite (adjust_index_inside i) by lia.
  rewrite (adjust_index_nonneg (Z.of_nat i + seq_len + pre_len)) by lia.
  replace (Z.to_nat (Z.of_nat i + seq_len + pre_len) - i)%nat
    with (Z.to_nat (seq_len + pre_len)) by lia.
  rewrite (adjust_index_nonneg seq_len) by lia.
  rewrite Nat.sub_0_r.
  rewrite bool_decide_true by (cbn; lia).
  cbn [Z.ltb Z.compare]. rewrite bind_Ok.
  assert (Hw : ∀ r : list num,
    take (Z.to_nat seq_len) (drop 0 (take (Z.to_nat (seq_len + pre_len)) (drop i r)))
    = take (Z.to_nat seq_len) (drop i r)).
  { intros r. rewrite drop_0, take_take. f_equal. lia. }
  assert (Ht : ∀ r : list num,
    default NaN (take (Z.to_nat (seq_len + pre_len)) (drop i r)
                   !! Z.to_nat (-1 + Z.of_nat (Z.to_nat (seq_len + pre_len))))
    = default NaN (r !! (i + Z.to_nat (seq_len + pre_len - 1))%nat)).
  { intros r. rewrite lookup_take_lt by lia. rewrite lookup_drop.
    do 2 f_equal. lia. }
  unfold window_at, target_at. rewrite <- !list_fmap_compose.
  f_equal. f_equal; f_equal; f_equal.
  - f_equal. apply list_fmap_ext. intros _ r _. apply Hw.
  - apply list_fmap_ext. intros _ r _. apply Ht.
Qed.

Lemma for_each_window_step seq_len pre_len data n : ∀ start acc,
  (1 ≤ seq_len)%Z → (1 ≤ pre_len)%Z →
  ((0 < n)%nat →
   (Z.of_nat (start + n) + seq_len + pre_len - 1 ≤ Z.of_nat (ncols data))%Z) →
  for_each (seq start n) (window_step seq_len pre_len data) acc =
    Ok (acc.1 ++ (window_at seq_len data <$> seq start n),
        acc.2 ++ (target_at seq_len pre_len data <$> seq start n)).
Proof.
  induction n as [|n IH]; intros start acc Hs Hp Hn.
  - cbn. rewrite !app_nil_r. by destruct acc.
  - specialize (Hn ltac:(lia)).
    cbn [seq for_each]. rewrite window_step_Ok by lia. rewrite bind_Ok.
    rewrite IH by lia. cbn [fst snd]. rewrite !fmap_cons, <- !app_assoc.
    reflexivity.
Qed.

(** With positive parameters each loop runs to its end, whatever the number
    of columns, and leaves one example per start index. *)
Lemma windows_Ok seq_len pre_len data :
  (1 ≤ seq_len)%Z → (1 ≤ pre_len)%Z →
  let n := Z.to_nat (Z.of_nat (ncols data) - (seq_len + pre_len - 1)) in
  windows seq_len pre_len data =
    Ok (window_at seq_len data <$> seq 0 n,
        target_at seq_len pre_len data <$> seq 0 n).
Proof.
  intros Hs Hp n. unfold windows, range. fold n.
  rewrite for_each_window_step by (subst n; lia). reflexivity.
Qed.

Lemma window_at_is_window seq_len data i :
  is_window data (Z.to_nat seq_len) i (window_at seq_len data i).
Proof.
  unfold is_window, window_at, nrows, entry. cbn [ncols mrows].
  split; [done|]. split; [by rewrite length_fmap|].
  intros r k Hk. rewrite list_lookup_fmap.
  destruct (mrows data !! r) as [row|]; cbn; [|done].
  by rewrite lookup_take_lt, lookup_drop.
Qed.

Lemma target_at_is_column seq_len pre_len data i :
  wf_matrix data →
  (i + Z.to_nat (seq_len + pre_len - 1) < ncols data)%nat →
  is_column data (i + Z.to_nat (seq_len + pre_len - 1))
            (target_at seq_len pre_len data i).
Proof.
  intros Hwf Hc. unfold is_column, target_at, nrows, entry.
  split; [by rewrite length_fmap|].
  intros r. rewrite list_lookup_fmap.
  destruct (mrows data !! r) as [row|] eqn:Hrow; cbn; [|done].
  assert (Hlen : length row = ncols data)
    by exact (Forall_lookup_1 _ _ _ _ Hwf Hrow).
  destruct (lookup_lt_is_Some_2 row (i + Z.to_nat (seq_len + pre_len - 1)))
    as [x Hx]; [lia|].
  by rewrite Hx.
Qed.

Lemma windows_windowed seq_len pre_len data X Y :
  wf_matrix data → (1 ≤ seq_len)%Z → (1 ≤ pre_len)%Z →
  (seq_len + pre_len ≤ Z.of_nat (ncols data))%Z →
  windows seq_len pre_len data = Ok (X, Y) →
  windowed seq_len pre_len data X Y.
Proof.
  intros Hwf Hs Hp HT. rewrite windows_Ok by done. cbn zeta.
  intros [= <- <-]. unfold windowed.
  rewrite !length_fmap, !length_seq. split; [lia|]. split; [done|].
  intros i Hi.
  exists (window_at seq_len data i), (target_at seq_len pre_len data i).
  rewrite !list_lookup_fmap, !lookup_seq_lt by done. cbn.
  split; [done|]. split; [done|].
  split; [apply window_at_is_window|].
  apply target_at_is_column; [done|lia].
Qed.

(** C1. For positive [seq_len] and [pre_len] the call returns; a partition
    with [T >= seq_len + pre_len] columns yields exactly
    [T - (seq_len + pre_len - 1)] examples, listed by increasing start index
    [i]; the input of example [i] is columns [i, i + seq_len) of all rows and
    its target is column [i + seq_len + pre_len - 1] of all rows. *)
Theorem sequence_data_preparation_examples seq_len pre_len train_data test_data :
  wf_matrix train_data → wf_matrix test_data →
  (1 ≤ seq_len)%Z → (1 ≤ pre_len)%Z →
  ∃ trainX trainY testX testY,
    sequence_data_preparation seq_len pre_len train_data test_data
      = Ok (trainX, trainY, testX, testY) ∧
    ((seq_len + pre_len ≤ Z.of_nat (ncols train_data))%Z →
       windowed seq_len pre_len train_data trainX trainY) ∧
    ((seq_len + pre_len ≤ Z.of_nat (ncols test_data))%Z →
       windowed seq_len pre_len test_data testX testY).
Proof.
  intros Hwf1 Hwf2 Hs Hp. unfold sequence_data_preparation.
  pose proof (windows_Ok seq_len pre_len train_data Hs Hp) as H1.
  pose proof (windows_Ok seq_len pre_len test_data Hs Hp) as H2.
  cbn zeta in H1, H2. rewrite H1, H2. cbn.
  eexists _, _, _, _. split; [reflexivity|].
  split; intros HT; by apply windows_windowed.
Qed.

(** ** Reductions *)

Lemma entry_cells m r c x : entry m r c = Some x → x ∈ cells m.
Proof.
  unfold entry, cells. intros H.
  destruct (mrows m !! r) as [row|] eqn:Hrow; [|done]. cbn in H.
  apply list_elem_of_In, in_concat. exists row.
  split; apply list_elem_of_In; by eapply list_elem_of_lookup_2.
Qed.

Lemma nmax_at_most M x y : at_most M (nmax x y) → at_most M x ∧ at_most M y.
Proof.
  destruct x as [a| | |], y as [b| | |]; cbn; try tauto.
  case_decide as Hab; intros H; split; try done.
  - by etrans.
  - apply Qclt_le_weak. eapply Qclt_le_trans; [|done]. by apply Qclt_nge.
Qed.

Lemma nmin_at_least m x y : at_least m (nmin x y) → at_least m x ∧ at_least m y.
Proof.
  destruct x as [a| | |], y as [b| | |]; cbn; try tauto.
  case_decide as Hab; intros H; split; try done.
  - by etrans.
  - apply Qclt_le_weak. eapply Qcle_lt_trans; [done|]. by apply Qclt_nge.
Qed.

Lemma foldl_nmax_at_most M l : ∀ x,
  at_most M (foldl nmax x l) → at_most M x ∧ Forall (at_most M) l.
Proof.
  induction l as [|y l IH]; intros x H; cbn in *; [by split|].
  apply IH in H as [Hxy Hl]. apply nmax_at_most in Hxy as [Hx Hy].
  split; [done|]. by constructor.
Qed.

Lemma foldl_nmin_at_least m l : ∀ x,
  at_least m (foldl nmin x l) → at_least m x ∧ Forall (at_least m) l.
Proof.
  induction l as [|y l IH]; intros x H; cbn in *; [by split|].
  apply IH in H as [Hxy Hl]. apply nmin_at_least in Hxy as [Hx Hy].
  split; [done|]. by constructor.
Qed.

(** A finite maximum bounds every cell from above. *)
Lemma amax_upper_bound m M x :
  amax m = Ok (Fin M) → x ∈ cells m → at_most M x.
Proof.
  unfold amax, cells. destruct (concat (mrows m)) as [|y l]; [done|].
  intros [= H] Hx.
  assert (Hb : at_most M (foldl nmax y l)) by (rewrite H; cbn; done).
  apply foldl_nmax_at_most in Hb as [Hy Hl].
  apply elem_of_cons in Hx as [->|Hx]; [done|].
  by eapply (proj1 (Forall_forall _ _)) in Hl.
Qed.

Lemma amin_lower_bound m mn x :
  amin m = Ok (Fin mn) → x ∈ cells m → at_least mn x.
Proof.
  unfold amin, cells. destruct (concat (mrows m)) as [|y l]; [done|].
  intros [= H] Hx.
  assert (Hb : at_least mn (foldl nmin y l)) by (rewrite H; cbn; done).
  apply foldl_nmin_at_least in Hb as [Hy Hl].
  apply elem_of_cons in Hx as [->|Hx]; [done|].
  by eapply (proj1 (Forall_forall _ _)) in Hl.
Qed.

(** Between a finite minimum and a finite maximum every cell is finite. *)
Lemma cell_between m mn mx x :
  amin m = Ok (Fin mn) → amax m = Ok (Fin mx) → x ∈ cells m →
  ∃ q, x = Fin q ∧ (mn ≤ q ≤ mx)%Qc.
Proof.
  intros Hmin Hmax Hx.
  pose proof (amax_upper_bound _ _ _ Hmax Hx) as Hle.
  pose proof (amin_lower_bound _ _ _ Hmin Hx) as Hge.
  destruct x as [q| | |]; cbn in *; try done. by exists q.
Qed.

(** ** Scaling *)

Lemma entry_scaled m a d r c :
  entry (mdiv_scalar (msub_scalar m a) d) r c
  = (λ x, ndiv (nsub x a) d) <$> entry m r c.
Proof.
  unfold entry, mdiv_scalar, msub_scalar. cbn [mrows].
  rewrite !list_lookup_fmap.
  destruct (mrows m !! r) as [row|]; cbn; [|done].
  rewrite !list_lookup_fmap. by destruct (row !! c).
Qed.

Lemma scale_data_Ok train_data test_data mn mx :
  amin train_data = Ok mn → amax train_data = Ok mx →
  scale_data train_data test_data =
    Ok (mdiv_scalar (msub_scalar train_data mn) (nsub mx mn),
        mdiv_scalar (msub_scalar test_data mn) (nsub mx mn)).
Proof. intros Hmin Hmax. unfold scale_data. by rewrite Hmax, Hmin. Qed.

Lemma binary64_entry_scaled m a d r c :
  entry (Binary64.mdiv_scalar (Binary64.msub_scalar m a) d) r c
  = (λ x, Binary64.ndiv (Binary64.nsub x a) d) <$> entry m r c.
Proof.
  unfold entry, Binary64.mdiv_scalar, Binary64.msub_scalar. cbn [mrows].
  rewrite !list_lookup_fmap.
  destruct (mrows m !! r) as [row|]; cbn; [|done].
  rewrite !list_lookup_fmap. by destruct (row !! c).
Qed.

Lemma binary64_scale_data_Ok train_data test_data mn mx :
  amin train_data = Ok mn → amax train_data = Ok mx →
  Binary64.scale_data train_data test_data =
    Ok (Binary64.mdiv_scalar (Binary64.msub_scalar train_data mn)
          (Binary64.nsub mx mn),
        Binary64.mdiv_scalar (Binary64.msub_scalar test_data mn)
          (Binary64.nsub mx mn)).
Proof. intros Hmin Hmax. unfold Binary64.scale_data. by rewrite Hmax, Hmin. Qed.

(** Rounding changes neither the outcome of [scale_data] nor the shapes. *)
Lemma binary64_scale_data_outcome train_data test_data :
  match scale_data train_data test_data,
        Binary64.scale_data train_data test_data with
  | Ok (a, b), Ok (a', b') =>
      ncols a' = ncols a ∧ nrows a' = nrows a ∧
      ncols b' = ncols b ∧ nrows b' = nrows b
  | Raise e, Raise e' => e = e'
  | _, _ => False
  end.
Proof.
  unfold scale_data, Binary64.scale_data.
  destruct (amax train_data) as [mx|e]; cbn [mbind result_bind]; [|done].
  destruct (amin train_data) as [mn|e]; cbn [mbind result_bind]; [|done].
  unfold nrows. cbn. by rewrite !length_fmap.
Qed.

Lemma Qc_div_unit (a d : Qc) :
  (0 < d)%Qc → (0 ≤ a / d ≤ 1)%Qc ↔ (0 ≤ a ≤ d)%Qc.
Proof.
  intros Hd.
  assert (Hne : d ≠ 0%Qc) by (intros ->; by apply (irreflexivity Qclt 0%Qc)).
  rewrite (Qcmult_le_mono_pos_r 0 (a / d) d Hd).
  rewrite (Qcmult_le_mono_pos_r (a / d) 1 d Hd).
  replace (a / d * d)%Qc with a by (field; done).
  by rewrite Qcmult_0_l, Qcmult_1_l.
Qed.

Lemma binary64_nsub_Fin x y d :
  Binary64.nsub x y = Fin d → ∃ a b, x = Fin a ∧ y = Fin b.
Proof.
  unfold Binary64.nsub. destruct x as [a| | |], y as [b| | |]; try done.
  intros _. by exists a, b.
Qed.

(** With a finite, nonzero [max - min] a reading between the bounds is
    scaled into the unit interval. *)
Lemma binary64_transform_unit (mn mx q d : Qc) :
  Binary64.nsub (Fin mx) (Fin mn) = Fin d → d ≠ 0%Qc →
  (mn ≤ q)%Qc → (q ≤ mx)%Qc →
  in_unit_interval (Binary64.transform (Fin mn) (Fin mx) (Fin q)).
Proof.
  intros Hd Hd0 Hlo Hhi. unfold Binary64.transform. rewrite Hd.
  unfold Binary64.nsub in *. cbn [nsub] in *.
  destruct (binary64_round_mono (q - mn) (mx - mn) d) as (a & -> & Ha0 & Had);
    [by apply Qcle_minus_iff in Hlo
    |unfold Qcminus; by apply Qcplus_le_mono_r|done|].
  assert (Hdpos : (0 < d)%Qc).
  { destruct (Qcle_lt_or_eq 0 d) as [H|H]; [by apply Qcle_trans with a|done|].
    by destruct Hd0. }
  unfold Binary64.ndiv. cbn [ndiv]. rewrite decide_False by done.
  destruct (binary64_round_unit (a / d)) as (r & -> & Hr0 & Hr1);
    [by apply (Qc_div_unit a d Hdpos)..|].
  by split.
Qed.

(** C5, as the code has it. The bounds are the minimum and maximum of the
    training partition alone, whatever the second argument is, and the same
    map [(x - min) / (max - min)] with these bounds, evaluated in binary64,
    is applied to every cell of both partitions. When [max - min] is
    computed as a finite number other than zero, every scaled training cell
    lies in [0, 1], and so does every scaled test cell whose reading lies
    between the training bounds. *)
Theorem scale_data_fits_on_training train_data test_data mn mx :
  amin train_data = Ok mn → amax train_data = Ok mx →
  ∃ train_scaled test_scaled,
    Binary64.scale_data train_data test_data = Ok (train_scaled, test_scaled) ∧
    (∀ r c, entry train_scaled r c
            = Binary64.transform mn mx <$> entry train_data r c) ∧
    (∀ r c, entry test_scaled r c
            = Binary64.transform mn mx <$> entry test_data r c) ∧
    (∀ other, ∃ other_scaled,
       Binary64.scale_data train_data other = Ok (train_scaled, other_scaled) ∧
       ∀ r c, entry other_scaled r c
              = Binary64.transform mn mx <$> entry other r c) ∧
    (∀ d, Binary64.nsub mx mn = Fin d → d ≠ 0%Qc →
       (∀ r c y, entry train_scaled r c = Some y → in_unit_interval y) ∧
       (∀ r c mn' mx' q,
          mn = Fin mn' → mx = Fin mx' →
          entry test_data r c = Some (Fin q) → (mn' ≤ q)%Qc → (q ≤ mx')%Qc →
          ∃ y, entry test_scaled r c = Some y ∧ in_unit_interval y)).
Proof.
  intros Hmin Hmax.
  eexists _, _. split; [by apply binary64_scale_data_Ok|].
  split; [intros r c; apply binary64_entry_scaled|].
  split; [intros r c; apply binary64_entry_scaled|].
  split.
  { intros other. eexists. split; [by apply binary64_scale_data_Ok|].
    intros r c. apply binary64_entry_scaled. }
  intros d Hd Hd0.
  destruct (binary64_nsub_Fin _ _ _ Hd) as (mx' & mn' & -> & ->).
  split.
  - intros r c y. rewrite binary64_entry_scaled.
    destruct (entry train_data r c) as [x|] eqn:Hx; [|done].
    intros [= <-]. apply entry_cells in Hx.
    destruct (cell_between _ _ _ _ Hmin Hmax Hx) as (q & -> & Hlo & Hhi).
    by apply (binary64_transform_unit mn' mx' q d).
  - intros r c ? ? q [= <-] [= <-] Hq Hlo Hhi.
    rewrite binary64_entry_scaled, Hq. eexists. split; [done|].
    by apply (binary64_transform_unit mn' mx' q d).
Qed.

(** C5, the claim as stated fails for either partition: a test reading above
    the training maximum is scaled to a value above one, and with the
    training readings [-2^1023] and [2^1023] the difference [max - min]
    overflows, so that the scaled training maximum is [NaN]. *)
Lemma scale_data_outside_unit_interval :
  (∃ train_scaled test_scaled y,
     Binary64.scale_data (Matrix 2 [readings [1; 2]%Z]) (Matrix 1 [readings [3]%Z])
       = Ok (train_scaled, test_scaled) ∧
     entry test_scaled 0 0 = Some y ∧ ¬ in_unit_interval y) ∧
  (∃ train_scaled test_scaled y,
     Binary64.scale_data (Matrix 2 [readings [- 2 ^ 1023; 2 ^ 1023]%Z])
                         (Matrix 1 [readings [0]%Z])
       = Ok (train_scaled, test_scaled) ∧
     entry train_scaled 0 1 = Some y ∧ ¬ in_unit_interval y).
Proof.
  split.
  - exists (Matrix 2 [readings [0; 1]%Z]), (Matrix 1 [readings [2]%Z]), (of_int 2).
    split; [compute_done|]. split; [compute_done|].
    cbn. intros [_ H]. by vm_compute in H.
  - exists (Matrix 2 [[of_int 0; NaN]]), (Matrix 1 [[of_int 0]]), NaN.
    split; [compute_done|]. split; [compute_done|]. cbn. tauto.
Qed.

Lemma ndiv_zero_not_finite x : ¬ finite (ndiv x (Fin 0%Qc)).
Proof.
  destruct x as [a| | |]; cbn; try tauto.
  case_decide; [|done]. destruct (a ?= 0)%Qc; cbn; tauto.
Qed.

Lemma nsub_diag c : nsub (Fin c) (Fin c) = Fin 0%Qc.
Proof. cbn. f_equal. apply Qcplus_opp_r. Qed.

Lemma ndiv_nan_r x : ndiv x NaN = NaN.
Proof. by destruct x. Qed.

(** C3, as the code has it. When the training maximum equals the training
    minimum, [scale_data] raises nothing: it returns two arrays, every cell
    of the scaled training partition is [NaN], and no cell of the scaled test
    partition is finite. *)
Theorem scale_data_constant_training train_data test_data v :
  amin train_data = Ok v → amax train_data = Ok v →
  ∃ train_scaled test_scaled,
    scale_data train_data test_data = Ok (train_scaled, test_scaled) ∧
    (∀ r k y, entry train_scaled r k = Some y → y = NaN) ∧
    (∀ r k y, entry test_scaled r k = Some y → ¬ finite y).
Proof.
  intros Hmin Hmax.
  eexists _, _. split; [by apply scale_data_Ok|].
  destruct v as [c| | |].
  - rewrite nsub_diag. split.
    + intros r k y. rewrite entry_scaled.
      destruct (entry train_data r k) as [x|] eqn:Hx; [|done].
      intros [= <-]. apply entry_cells in Hx.
      destruct (cell_between _ _ _ _ Hmin Hmax Hx) as (q & -> & Hq1 & Hq2).
      assert (q = c) as -> by (by apply Qcle_antisym).
      rewrite nsub_diag. cbn. by case_decide.
    + intros r k y. rewrite entry_scaled.
      destruct (entry test_data r k) as [x|]; [|done].
      intros [= <-]. apply ndiv_zero_not_finite.
  - cbn [nsub]. split; intros r k y; rewrite entry_scaled;
      (destruct (entry _ r k) as [x|]; [|done]);
      intros [= <-]; rewrite ndiv_nan_r; cbn; tauto.
  - cbn [nsub]. split; intros r k y; rewrite entry_scaled;
      (destruct (entry _ r k) as [x|]; [|done]);
      intros [= <-]; rewrite ndiv_nan_r; cbn; tauto.
  - cbn [nsub]. split; intros r k y; rewrite entry_scaled;
      (destruct (entry _ r k) as [x|]; [|done]);
      intros [= <-]; rewrite ndiv_nan_r; cbn; tauto.
Qed.

(** C3, the claim as stated fails: on a constant training partition
    [scale_data] returns, and the arrays it returns hold [NaN]. *)
Lemma scale_data_constant_returns_nan :
  amax (Matrix 2 [readings [3; 3]%Z]) = amin (Matrix 2 [readings [3; 3]%Z]) ∧
  scale_data (Matrix 2 [readings [3; 3]%Z]) (Matrix 3 [readings [3; 4; 2]%Z])
    = Ok (Matrix 2 [[NaN; NaN]], Matrix 3 [[NaN; PInf; NInf]]) ∧
  ¬ raises
      (scale_data (Matrix 2 [readings [3; 3]%Z]) (Matrix 3 [readings [3; 4; 2]%Z])).
Proof.
  split; [compute_done|]. split; [compute_done|].
  assert (H : scale_data (Matrix 2 [readings [3; 3]%Z])
                (Matrix 3 [readings [3; 4; 2]%Z])
              = Ok (Matrix 2 [[NaN; NaN]], Matrix 3 [[NaN; PInf; NInf]]))
    by compute_done.
  rewrite H. cbn. tauto.
Qed.

(** C4, as the code has it. With positive parameters the call returns
    normally whatever the number of columns; a partition with fewer than
    [seq_len + pre_len] columns contributes zero examples, as two empty
    arrays and with no error or flag. *)
Theorem sequence_data_preparation_short_partition
    seq_len pre_len train_data test_data :
  (1 ≤ seq_len)%Z → (1 ≤ pre_len)%Z →
  ∃ trainX trainY testX testY,
    sequence_data_preparation seq_len pre_len train_data test_data
      = Ok (trainX, trainY, testX, testY) ∧
    ((Z.of_nat (ncols train_data) < seq_len + pre_len)%Z →
       trainX = [] ∧ trainY = []) ∧
    ((Z.of_nat (ncols test_data) < seq_len + pre_len)%Z →
       testX = [] ∧ testY = []).
Proof.
  intros Hs Hp. unfold sequence_data_preparation.
  pose proof (windows_Ok seq_len pre_len train_data Hs Hp) as H1.
  pose proof (windows_Ok seq_len pre_len test_data Hs Hp) as H2.
  cbn zeta in H1, H2. rewrite H1, H2. cbn.
  eexists _, _, _, _. split; [reflexivity|].
  split; intros HT.
  - replace (Z.to_nat (Z.of_nat (ncols train_data) - (seq_len + pre_len - 1)))
      with 0%nat by lia. done.
  - replace (Z.to_nat (Z.of_nat (ncols test_data) - (seq_len + pre_len - 1)))
      with 0%nat by lia. done.
Qed.

(** C4, the claim as stated fails: four columns with [seq_len = 3] and
    [pre_len = 2] give a normal return of four empty arrays, not an error. *)
Lemma sequence_data_preparation_short_is_silent :
  let data := Matrix 4 [readings [1; 2; 3; 4]%Z] in
  (Z.of_nat (ncols data) < 3 + 2)%Z ∧
  sequence_data_preparation 3 2 data data = Ok ([], [], [], []) ∧
  ¬ raises (sequence_data_preparation 3 2 data data).
Proof.
  cbn zeta. split; [cbn; lia|]. split; [compute_done|].
  assert (H : sequence_data_preparation 3 2 (Matrix 4 [readings [1; 2; 3; 4]%Z])
                (Matrix 4 [readings [1; 2; 3; 4]%Z]) = Ok ([], [], [], []))
    by compute_done.
  rewrite H. cbn. tauto.
Qed.

(** ** Rescaling *)

Lemma smul_cell Y c i r : cell (smul Y c) i r = rescale c <$> cell Y i r.
Proof.
  unfold cell, smul. rewrite list_lookup_fmap.
  destruct (Y !! i) as [y|]; cbn; [|done]. by rewrite list_lookup_fmap.
Qed.

Lemma rescale_reference_Ok train_data trainY testY mn mx :
  amin train_data = Ok mn → amax train_data = Ok mx →
  rescale_reference train_data trainY testY
    = Ok (mx, smul trainY mx, smul testY mx).
Proof. intros Hmin Hmax. unfold rescale_reference. by rewrite Hmax, Hmin. Qed.

Lemma binary64_smul_cell Y c i r :
  cell (Binary64.smul Y c) i r = Binary64.rescale c <$> cell Y i r.
Proof.
  unfold cell, Binary64.smul. rewrite list_lookup_fmap.
  destruct (Y !! i) as [y|]; cbn; [|done]. by rewrite list_lookup_fmap.
Qed.

Lemma binary64_rescale_reference_Ok train_data trainY testY mn mx :
  amin train_data = Ok mn → amax train_data = Ok mx →
  Binary64.rescale_reference train_data trainY testY
    = Ok (mx, Binary64.smul trainY mx, Binary64.smul testY mx).
Proof.
  intros Hmin Hmax. unfold Binary64.rescale_reference. by rewrite Hmax, Hmin.
Qed.

(** C6, as the code has it. The "Rescale values" cell reads the training
    maximum again and multiplies every target by it; the minimum it also
    reads is used nowhere. So a cell scaled from the reading [x] is reported
    as [((x - min) / (max - min)) * max], each of the four operations rounded
    to binary64 in this order. On the training data [1, 2, 3, 4, 5] the
    bounds are 1 and 5, the reading 3 is scaled to 0.5 and reported as
    2.5. *)
Theorem reporting_inverse_min_unadjusted :
  (∀ train_data test_data trainY testY mn mx,
     amin train_data = Ok mn → amax train_data = Ok mx →
     ∃ train_scaled test_scaled train_rescref test_rescref,
       Binary64.scale_data train_data test_data
         = Ok (train_scaled, test_scaled) ∧
       Binary64.rescale_reference train_data trainY testY
         = Ok (mx, train_rescref, test_rescref) ∧
       (∀ i r, cell train_rescref i r
               = (λ y, Binary64.nmul y mx) <$> cell trainY i r) ∧
       (∀ i r, cell test_rescref i r
               = (λ y, Binary64.nmul y mx) <$> cell testY i r) ∧
       (∀ r c,
          Binary64.rescale mx <$> entry train_scaled r c
          = (λ x, Binary64.nmul
                    (Binary64.ndiv (Binary64.nsub x mn) (Binary64.nsub mx mn)) mx)
              <$> entry train_data r c) ∧
       (∀ r c,
          Binary64.rescale mx <$> entry test_scaled r c
          = (λ x, Binary64.nmul
                    (Binary64.ndiv (Binary64.nsub x mn) (Binary64.nsub mx mn)) mx)
              <$> entry test_data r c)) ∧
  (amin (Matrix 5 [readings [1; 2; 3; 4; 5]%Z]) = Ok (of_int 1) ∧
   amax (Matrix 5 [readings [1; 2; 3; 4; 5]%Z]) = Ok (of_int 5) ∧
   Binary64.scale_data (Matrix 5 [readings [1; 2; 3; 4; 5]%Z])
                       (Matrix 5 [readings [1; 2; 3; 4; 5]%Z])
     = Ok (Matrix 5 [[of_int 0; reading 1 4; reading 1 2; reading 3 4; of_int 1]],
           Matrix 5 [[of_int 0; reading 1 4; reading 1 2; reading 3 4; of_int 1]]) ∧
   Binary64.transform (of_int 1) (of_int 5) (of_int 3) = reading 1 2 ∧
   Binary64.rescale_reference (Matrix 5 [readings [1; 2; 3; 4; 5]%Z])
       [[reading 1 2]] [[reading 1 2]]
     = Ok (of_int 5, [[reading 5 2]], [[reading 5 2]])).
Proof.
  split.
  - intros train_data test_data trainY testY mn mx Hmin Hmax.
    eexists _, _, _, _.
    split; [by apply binary64_scale_data_Ok|].
    split; [by apply binary64_rescale_reference_Ok with (mn := mn)|].
    split; [intros i r; apply binary64_smul_cell|].
    split; [intros i r; apply binary64_smul_cell|].
    split; intros r c; rewrite binary64_entry_scaled, <- option_fmap_compose;
      by apply option_fmap_ext.
  - repeat split; compute_done.
Qed.

(** C6, the claim as stated fails: with the training readings 0, 1 and 49
    the reading 1 is scaled to the double nearest 1/49 and reported as
    0.9999999999999999, where [(x - min) * max / (max - min)] is 1, as a
    real number and also when it is evaluated in binary64. *)
Lemma reporting_inverse_is_rounded :
  ∃ train_scaled test_scaled train_rescref test_rescref y,
    Binary64.scale_data (Matrix 3 [readings [0; 1; 49]%Z])
                        (Matrix 3 [readings [0; 1; 49]%Z])
      = Ok (train_scaled, test_scaled) ∧
    entry train_scaled 0 1 = Some y ∧
    Binary64.rescale_reference (Matrix 3 [readings [0; 1; 49]%Z]) [[y]] [[y]]
      = Ok (of_int 49, train_rescref, test_rescref) ∧
    cell train_rescref 0 0
      = Some (Fin (Q2Qc (9007199254740991 # 9007199254740992))) ∧
    ndiv (nmul (nsub (of_int 1) (of_int 0)) (of_int 49))
         (nsub (of_int 49) (of_int 0)) = of_int 1 ∧
    Binary64.ndiv (Binary64.nmul (Binary64.nsub (of_int 1) (of_int 0)) (of_int 49))
                  (Binary64.nsub (of_int 49) (of_int 0)) = of_int 1 ∧
    cell train_rescref 0 0 ≠ Some (of_int 1).
Proof.
  eexists (Matrix 3 [[of_int 0; Binary64.double 1 49; of_int 1]]),
          (Matrix 3 [[of_int 0; Binary64.double 1 49; of_int 1]]),
          [[Fin (Q2Qc (9007199254740991 # 9007199254740992))]],
          [[Fin (Q2Qc (9007199254740991 # 9007199254740992))]],
          (Binary64.double 1 49).
  repeat split; compute_done.
Qed.

(** ** Shapes *)

Lemma wf_scaled m a d : wf_matrix m → wf_matrix (mdiv_scalar (msub_scalar m a) d).
Proof.
  unfold wf_matrix, mdiv_scalar, msub_scalar. cbn [ncols mrows].
  intros Hwf. rewrite <- list_fmap_compose. apply Forall_fmap.
  eapply Forall_impl; [exact Hwf|]. intros row Hrow. cbn.
  by rewrite !length_fmap.
Qed.

Lemma wf_window_at seq_len data i :
  wf_matrix data → (0 ≤ seq_len)%Z →
  (Z.of_nat i + seq_len ≤ Z.of_nat (ncols data))%Z →
  wf_matrix (window_at seq_len data i).
Proof.
  unfold wf_matrix, window_at. cbn [ncols mrows]. intros Hwf Hs Hi.
  apply Forall_fmap. eapply Forall_impl; [exact Hwf|]. intros row Hrow.
  cbn in *. rewrite length_take, length_drop. lia.
Qed.

(** ** The naive benchmark *)

Lemma traverse_Ok {A B} (f : A → result B) (g : A → B) (l : list A) :
  Forall (λ a, f a = Ok (g a)) l → traverse f l = Ok (g <$> l).
Proof.
  induction 1 as [|a l Ha _ IH]; [done|].
  cbn. rewrite Ha. cbn. by rewrite IH.
Qed.

Lemma col_last w : (1 ≤ ncols w)%nat → col (-1) w = Ok (last_cells w).
Proof.
  intros Hw. unfold col, last_cells. cbn [Z.ltb Z.compare].
  rewrite bool_decide_true by lia.
  do 2 f_equal. replace (Z.to_nat (-1 + Z.of_nat (ncols w))) with (ncols w - 1)%nat by lia.
  done.
Qed.

Lemma last_cells_lookup w r :
  wf_matrix w → (1 ≤ ncols w)%nat →
  last_cells w !! r = entry w r (ncols w - 1).
Proof.
  intros Hwf Hw. unfold last_cells, entry. rewrite list_lookup_fmap.
  destruct (mrows w !! r) as [row|] eqn:Hrow; cbn; [|done].
  destruct (lookup_lt_is_Some_2 row (ncols w - 1)) as [x Hx].
  { rewrite (Forall_lookup_1 _ _ _ _ Hwf Hrow). lia. }
  by rewrite Hx.
Qed.

Lemma last_of_windows_Ok X :
  X ≠ [] → Forall (λ w, 1 ≤ ncols w)%nat X →
  last_of_windows X = Ok (last_cells <$> X).
Proof.
  intros Hne HX. unfold last_of_windows. destruct X as [|w X]; [done|].
  apply traverse_Ok. eapply Forall_impl; [exact HX|].
  intros w' Hw'. by apply col_last.
Qed.

Lemma sequence_data_preparation_Ok seq_len pre_len train_data test_data :
  (1 ≤ seq_len)%Z → (1 ≤ pre_len)%Z →
  let n1 := Z.to_nat (Z.of_nat (ncols train_data) - (seq_len + pre_len - 1)) in
  let n2 := Z.to_nat (Z.of_nat (ncols test_data) - (seq_len + pre_len - 1)) in
  sequence_data_preparation seq_len pre_len train_data test_data =
    Ok (window_at seq_len train_data <$> seq 0 n1,
        target_at seq_len pre_len train_data <$> seq 0 n1,
        window_at seq_len test_data <$> seq 0 n2,
        target_at seq_len pre_len test_data <$> seq 0 n2).
Proof.
  intros Hs Hp n1 n2. unfold sequence_data_preparation.
  pose proof (windows_Ok seq_len pre_len train_data Hs Hp) as H1.
  pose proof (windows_Ok seq_len pre_len test_data Hs Hp) as H2.
  cbn zeta in H1, H2. by rewrite H1, H2.
Qed.

(** C7. On the test examples of the pipeline the naive benchmark returns one
    vector per example; for example [i] and sensor [r] its cell is the last
    cell of row [r] of the input window of example [i], that is the reading
    at column [i + seq_len - 1] of the scaled test partition, multiplied by
    [max_speed]; the model predictions are multiplied by the same
    [max_speed]. *)
Theorem naive_prediction_last_observed seq_len pre_len train_scaled test_scaled
    max_speed trainX trainY testX testY :
  wf_matrix test_scaled → (1 ≤ seq_len)%Z → (1 ≤ pre_len)%Z →
  (seq_len + pre_len ≤ Z.of_nat (ncols test_scaled))%Z →
  sequence_data_preparation seq_len pre_len train_scaled test_scaled
    = Ok (trainX, trainY, testX, testY) →
  ∃ testnpredc,
    naive_prediction max_speed testX = Ok testnpredc ∧
    length testnpredc = length testX ∧
    (∀ i w, testX !! i = Some w → ∀ r,
       cell testnpredc i r
         = rescale max_speed <$> entry w r (Z.to_nat seq_len - 1) ∧
       entry w r (Z.to_nat seq_len - 1)
         = entry test_scaled r (i + (Z.to_nat seq_len - 1))) ∧
    (∀ ythat yhat i r,
       cell (rescale_predictions max_speed ythat yhat).2 i r
         = rescale max_speed <$> cell yhat i r).
Proof.
  intros Hwf Hs Hp HT.
  rewrite sequence_data_preparation_Ok by done. cbn zeta.
  set (n := Z.to_nat (Z.of_nat (ncols test_scaled) - (seq_len + pre_len - 1))).
  intros [= <- <- <- <-].
  assert (Hn : (0 < n)%nat) by (subst n; lia).
  assert (Hcols : Forall (λ w, 1 ≤ ncols w)%nat
                    (window_at seq_len test_scaled <$> seq 0 n)).
  { apply Forall_fmap, Forall_forall. intros i _. cbn. lia. }
  assert (Hne : window_at seq_len test_scaled <$> seq 0 n ≠ []).
  { destruct n; [lia|done]. }
  exists (smul (last_cells <$> (window_at seq_len test_scaled <$> seq 0 n)) max_speed).
  split; [|split; [|split]].
  - unfold naive_prediction. by rewrite last_of_windows_Ok.
  - unfold smul. by rewrite !length_fmap.
  - intros i w Hw r.
    apply list_lookup_fmap_Some_1 in Hw as (j & -> & Hj).
    apply lookup_seq in Hj as [-> Hi]. cbn [Nat.add].
    assert (Hwfw : wf_matrix (window_at seq_len test_scaled i)).
    { apply wf_window_at; [done|lia|subst n; lia]. }
    split.
    + rewrite smul_cell. f_equal. unfold cell.
      rewrite !list_lookup_fmap, lookup_seq_lt by done.
      cbn [fmap option_fmap option_map mbind option_bind Nat.add].
      rewrite last_cells_lookup; [done|done|cbn; lia].
    + destruct (window_at_is_window seq_len test_scaled i) as (_ & _ & Hcells).
      apply Hcells. lia.
  - intros ythat yhat i r. cbn. apply smul_cell.
Qed.

Lemma binary64_wf_scaled m a d :
  wf_matrix m → wf_matrix (Binary64.mdiv_scalar (Binary64.msub_scalar m a) d).
Proof.
  unfold wf_matrix, Binary64.mdiv_scalar, Binary64.msub_scalar.
  cbn [ncols mrows].
  intros Hwf. rewrite <- list_fmap_compose. apply Forall_fmap.
  eapply Forall_impl; [exact Hwf|]. intros row Hrow. cbn.
  by rewrite !length_fmap.
Qed.

Lemma binary64_rescaled_target seq_len pre_len data mn mx i r x n :
  wf_matrix data → (1 ≤ seq_len)%Z → (1 ≤ pre_len)%Z →
  n = Z.to_nat (Z.of_nat (ncols data) - (seq_len + pre_len - 1)) →
  (i < n)%nat →
  entry data r (i + Z.to_nat (seq_len + pre_len - 1)) = Some x →
  cell (Binary64.smul
          (target_at seq_len pre_len
             (Binary64.mdiv_scalar (Binary64.msub_scalar data mn)
                (Binary64.nsub mx mn))
           <$> seq 0 n) mx) i r
  = Some (Binary64.rescale mx (Binary64.transform mn mx x)).
Proof.
  intros Hwf Hs Hp -> Hi Hx.
  rewrite binary64_smul_cell. unfold cell.
  rewrite list_lookup_fmap, lookup_seq_lt by done.
  cbn [fmap option_fmap option_map mbind option_bind Nat.add].
  destruct (target_at_is_column seq_len pre_len
              (Binary64.mdiv_scalar (Binary64.msub_scalar data mn)
                 (Binary64.nsub mx mn)) i)
    as [_ Hcol]; [by apply binary64_wf_scaled|cbn; lia|].
  by rewrite Hcol, binary64_entry_scaled, Hx.
Qed.

(** C10, as the code has it. The reference values given to the performance
    loop are the scaled targets times the training maximum: for the reading
    [x] behind a target they are [((x - min) / (max - min)) * max] in
    binary64, in both partitions, and the model predictions and the naive
    predictions are multiplied by the same maximum. Whether a reference
    value equals its reading is not decided by the training minimum. *)
Theorem reference_values_rescaled_units seq_len pre_len train_data test_data
    mn mx train_scaled test_scaled trainX trainY testX testY :
  wf_matrix train_data → wf_matrix test_data →
  (1 ≤ seq_len)%Z → (1 ≤ pre_len)%Z →
  amin train_data = Ok mn → amax train_data = Ok mx →
  Binary64.scale_data train_data test_data = Ok (train_scaled, test_scaled) →
  sequence_data_preparation seq_len pre_len train_scaled test_scaled
    = Ok (trainX, trainY, testX, testY) →
  ∃ train_rescref test_rescref,
    Binary64.rescale_reference train_data trainY testY
      = Ok (mx, train_rescref, test_rescref) ∧
    (∀ i r x, (i < length trainY)%nat →
       entry train_data r (i + Z.to_nat (seq_len + pre_len - 1)) = Some x →
       cell train_rescref i r
         = Some (Binary64.nmul
                   (Binary64.ndiv (Binary64.nsub x mn) (Binary64.nsub mx mn))
                   mx)) ∧
    (∀ i r x, (i < length testY)%nat →
       entry test_data r (i + Z.to_nat (seq_len + pre_len - 1)) = Some x →
       cell test_rescref i r
         = Some (Binary64.nmul
                   (Binary64.ndiv (Binary64.nsub x mn) (Binary64.nsub mx mn))
                   mx)) ∧
    (∀ ythat yhat i r,
       cell (Binary64.rescale_predictions mx ythat yhat).1 i r
         = (λ y, Binary64.nmul y mx) <$> cell ythat i r ∧
       cell (Binary64.rescale_predictions mx ythat yhat).2 i r
         = (λ y, Binary64.nmul y mx) <$> cell yhat i r) ∧
    (∀ testnpredc, Binary64.naive_prediction mx testX = Ok testnpredc →
       ∀ i r, cell testnpredc i r
              = (λ y, Binary64.nmul y mx) <$> cell (last_cells <$> testX) i r).
Proof.
  intros Hwf1 Hwf2 Hs Hp Hmin Hmax.
  rewrite (binary64_scale_data_Ok _ _ _ _ Hmin Hmax). intros [= <- <-].
  rewrite sequence_data_preparation_Ok by done. cbn zeta.
  cbn [ncols Binary64.mdiv_scalar Binary64.msub_scalar].
  intros [= <- <- <- <-].
  eexists _, _.
  split; [by apply binary64_rescale_reference_Ok with (mn := mn)|].
  split; [|split; [|split]].
  - intros i r x Hi Hx. rewrite length_fmap, length_seq in Hi.
    by eapply binary64_rescaled_target.
  - intros i r x Hi Hx. rewrite length_fmap, length_seq in Hi.
    by eapply binary64_rescaled_target.
  - intros ythat yhat i r. cbn. split; apply binary64_smul_cell.
  - intros testnpredc. unfold Binary64.naive_prediction.
    destruct (last_of_windows _) as [l|e] eqn:Hl; cbn; [|done].
    intros [= <-] i r.
    rewrite last_of_windows_Ok in Hl.
    + injection Hl as <-. apply binary64_smul_cell.
    + intros Hnil. by rewrite Hnil in Hl.
    + apply Forall_fmap, Forall_forall. intros j _. cbn. lia.
Qed.

(** C10, the claim as stated fails in both directions. With the training
    readings 1, 5, 5 the minimum is 1 and yet each reference value is the
    reading behind it; with the training readings 0, 59, 99 the minimum is 0
    and yet the reading 59 comes back as 58.99999999999999. *)
Lemma reference_values_against_readings :
  (amin (Matrix 3 [readings [1; 5; 5]%Z]) = Ok (of_int 1) ∧
   ∃ train_scaled test_scaled trainX trainY testX testY test_rescref,
     Binary64.scale_data (Matrix 3 [readings [1; 5; 5]%Z])
                         (Matrix 3 [readings [1; 5; 5]%Z])
       = Ok (train_scaled, test_scaled) ∧
     sequence_data_preparation 1 1 train_scaled test_scaled
       = Ok (trainX, trainY, testX, testY) ∧
     Binary64.rescale_reference (Matrix 3 [readings [1; 5; 5]%Z]) trainY testY
       = Ok (of_int 5, [readings [5]%Z; readings [5]%Z], test_rescref) ∧
     entry (Matrix 3 [readings [1; 5; 5]%Z]) 0 1 = Some (of_int 5) ∧
     entry (Matrix 3 [readings [1; 5; 5]%Z]) 0 2 = Some (of_int 5)) ∧
  (amin (Matrix 3 [readings [0; 59; 99]%Z]) = Ok (of_int 0) ∧
   ∃ train_scaled test_scaled trainX trainY testX testY train_rescref
     test_rescref,
     Binary64.scale_data (Matrix 3 [readings [0; 59; 99]%Z])
                         (Matrix 3 [readings [0; 59; 99]%Z])
       = Ok (train_scaled, test_scaled) ∧
     sequence_data_preparation 1 1 train_scaled test_scaled
       = Ok (trainX, trainY, testX, testY) ∧
     Binary64.rescale_reference (Matrix 3 [readings [0; 59; 99]%Z]) trainY testY
       = Ok (of_int 99, train_rescref, test_rescref) ∧
     entry (Matrix 3 [readings [0; 59; 99]%Z]) 0 1 = Some (of_int 59) ∧
     cell train_rescref 0 0
       = Some (Fin (Q2Qc (8303511812964351 # 140737488355328))) ∧
     cell train_rescref 0 0 ≠ Some (of_int 59)).
Proof.
  split; (split; [compute_done|]).
  - eexists (Matrix 3 [readings [0; 1; 1]%Z]), (Matrix 3 [readings [0; 1; 1]%Z]),
      [Matrix 1 [readings [0]%Z]; Matrix 1 [readings [1]%Z]],
      [readings [1]%Z; readings [1]%Z],
      [Matrix 1 [readings [0]%Z]; Matrix 1 [readings [1]%Z]],
      [readings [1]%Z; readings [1]%Z],
      [readings [5]%Z; readings [5]%Z].
    repeat split; compute_done.
  - eexists (Matrix 3 [[of_int 0; Binary64.double 59 99; of_int 1]]),
      (Matrix 3 [[of_int 0; Binary64.double 59 99; of_int 1]]),
      [Matrix 1 [[of_int 0]]; Matrix 1 [[Binary64.double 59 99]]],
      [[Binary64.double 59 99]; [of_int 1]],
      [Matrix 1 [[of_int 0]]; Matrix 1 [[Binary64.double 59 99]]],
      [[Binary64.double 59 99]; [of_int 1]],
      [[Fin (Q2Qc (8303511812964351 # 140737488355328))]; [of_int 99]],
      [[Fin (Q2Qc (8303511812964351 # 140737488355328))]; [of_int 99]].
    repeat split; compute_done.
Qed.

(** ** Performance measures *)

Lemma for_each_invariant {St} (P : St → Prop) idxs (body : nat → St → result St) :
  (∀ i s s', P s → body i s = Ok s' → P s') →
  ∀ s s', P s → for_each idxs body s = Ok s' → P s'.
Proof.
  intros Hbody. induction idxs as [|i idxs IH]; intros s s' Hs; cbn.
  - by intros [= <-].
  - destruct (body i s) as [s1|e] eqn:Hstep; cbn; [|done].
    apply IH. by eapply Hbody.
Qed.

Lemma for_each_length {St} (len : St → nat) idxs (body : nat → St → result St) :
  (∀ i s s', body i s = Ok s' → len s' = S (len s)) →
  ∀ s s', for_each idxs body s = Ok s' → len s' = (len s + length idxs)%nat.
Proof.
  intros Hbody. induction idxs as [|i idxs IH]; intros s s'; cbn.
  - intros [= <-]. lia.
  - destruct (body i s) as [s1|e] eqn:Hstep; cbn; [|done].
    intros Hrest. apply IH in Hrest. apply Hbody in Hstep. lia.
Qed.

Lemma measure_step_Ok ref pred npred j acc acc' :
  measure_step ref pred npred j acc = Ok acc' →
  ∃ mae nmae,
    seg_mael acc' = seg_mael acc ++ [mae] ∧
    seg_nmael acc' = seg_nmael acc ++ [nmae] ∧
    seg_masel acc' = seg_masel acc ++ [if nonzero nmae then ndiv mae nmae else NaN].
Proof.
  unfold measure_step.
  destruct (transposed_row j ref) as [r|]; cbn; [|done].
  destruct (transposed_row j pred) as [p|]; cbn; [|done].
  destruct (vsub r p) as [d|]; cbn; [|done].
  destruct (transposed_row j npred) as [n|]; cbn; [|done].
  destruct (vsub r n) as [nd|]; cbn; [|done].
  intros [= <-]. cbn. eexists _, _. split; [done|]. split; [done|].
  by destruct (nonzero _).
Qed.

Lemma measure_step_lengths ref pred npred j acc acc' :
  measure_step ref pred npred j acc = Ok acc' →
  length (seg_mael acc') = S (length (seg_mael acc)) ∧
  length (seg_nmael acc') = S (length (seg_nmael acc)) ∧
  length (seg_masel acc') = S (length (seg_masel acc)).
Proof.
  intros Hstep.
  destruct (measure_step_Ok _ _ _ _ _ _ Hstep) as (mae & nmae & -> & -> & ->).
  rewrite !length_app. cbn. lia.
Qed.

(** The loop leaves one entry per round in each of its three lists, and it
    runs [testX.shape[-1]] rounds: the width of a window. *)
Lemma segment_measures_length testX ref pred npred ms :
  segment_measures testX ref pred npred = Ok ms →
  length (seg_mael ms) = shape_last testX ∧
  length (seg_nmael ms) = shape_last testX ∧
  length (seg_masel ms) = shape_last testX.
Proof.
  unfold segment_measures, range. intros Hrun.
  assert (H1 := for_each_length (λ s, length (seg_mael s)) _ _
                  (λ i s s' H, proj1 (measure_step_lengths _ _ _ _ _ _ H))
                  _ _ Hrun).
  assert (H2 := for_each_length (λ s, length (seg_nmael s)) _ _
                  (λ i s s' H, proj1 (proj2 (measure_step_lengths _ _ _ _ _ _ H)))
                  _ _ Hrun).
  assert (H3 := for_each_length (λ s, length (seg_masel s)) _ _
                  (λ i s s' H, proj2 (proj2 (measure_step_lengths _ _ _ _ _ _ H)))
                  _ _ Hrun).
  cbn in H1, H2, H3. rewrite length_seq in H1, H2, H3. lia.
Qed.

(** Every round that ran marks a zero naive error with [NaN] and records
    the ratio otherwise. *)
Lemma segment_measures_marked testX ref pred npred ms :
  segment_measures testX ref pred npred = Ok ms → marked ms.
Proof.
  unfold segment_measures. intros Hrun.
  enough (H : length (seg_mael ms) = length (seg_nmael ms) ∧
              length (seg_masel ms) = length (seg_nmael ms) ∧ marked ms) by tauto.
  refine (for_each_invariant
            (λ ms, length (seg_mael ms) = length (seg_nmael ms) ∧
                   length (seg_masel ms) = length (seg_nmael ms) ∧ marked ms)
            _ _ _ _ _ _ Hrun).
  - intros i s s' (Hl1 & Hl2 & Hs) Hstep.
    destruct (measure_step_Ok _ _ _ _ _ _ Hstep) as (mae & nmae & E1 & E2 & E3).
    split; [rewrite E1, E2, !length_app; cbn; lia|].
    split; [rewrite E3, E2, !length_app; cbn; lia|].
    intros j x. rewrite E1, E2, E3. intros Hj.
    apply lookup_app_Some in Hj as [Hj|[Hge Hj]].
    + destruct (Hs j x Hj) as (m & Hm1 & Hm2). exists m.
      split; by apply lookup_app_l_Some.
    + apply list_lookup_singleton_Some in Hj as [Hj <-].
      assert (j = length (seg_nmael s)) as -> by lia.
      exists mae. split.
      * rewrite lookup_app_r by lia. by rewrite Hl1, Nat.sub_diag.
      * rewrite lookup_app_r by lia. by rewrite Hl2, Nat.sub_diag.
  - split; [done|]. split; [done|]. intros j x. cbn. by destruct j.
Qed.

(** C2, on the code. Two sensors with windows of width one: the examples of
    the scaled test partition are the three windows and targets below, the
    performance loop makes one round, for sensor 0 alone, and the totals it
    reports are those of sensor 0; over both sensors the model errors are
    2/3 and 0, with mean 1/3. *)
Theorem segment_measures_cover_window_width_only :
  sequence_data_preparation 1 1 demo_test_scaled demo_test_scaled
    = Ok (demo_testX, demo_testY, demo_testX, demo_testY) ∧
  shape_sensors demo_testX = 2%nat ∧ shape_last demo_testX = 1%nat ∧
  evaluate demo_train_data demo_testX demo_testY demo_testY demo_yhat demo_yhat
    = Ok (Measures [reading 2 3] [reading 1 3] [of_int 2],
          Totals (reading 2 3) (of_int 2) (reading 1 3)) ∧
  (∃ max_speed ref npred,
     rescale_reference demo_train_data demo_testY demo_testY
       = Ok (max_speed, ref, ref) ∧
     naive_prediction max_speed demo_testX = Ok npred ∧
     segment_measures_per_sensor demo_testX ref
         (rescale_predictions max_speed demo_yhat demo_yhat).2 npred
       = Ok (Measures [reading 2 3; of_int 0] [reading 1 3; NaN]
                      [of_int 2; of_int 0]) ∧
     mean [reading 2 3; of_int 0] = reading 1 3).
Proof.
  split; [compute_done|]. split; [done|]. split; [done|].
  split; [compute_done|].
  exists (of_int 2), (smul demo_testY (of_int 2)),
         (smul (last_cells <$> demo_testX) (of_int 2)).
  repeat split; compute_done.
Qed.

(** C8, on the code. In the same run sensor 1 has a naive error of exactly
    zero, which a round for sensor 1 marks with [NaN]; the loop of the
    notebook makes no such round, and its list of ratios has no entry for
    sensor 1 and holds no [NaN]. *)
Theorem zero_naive_error_outside_loop_is_unmarked :
  ∃ ms per_sensor,
    segment_measures demo_testX (smul demo_testY (of_int 2))
        (smul demo_yhat (of_int 2)) (smul (last_cells <$> demo_testX) (of_int 2))
      = Ok ms ∧
    segment_measures_per_sensor demo_testX (smul demo_testY (of_int 2))
        (smul demo_yhat (of_int 2)) (smul (last_cells <$> demo_testX) (of_int 2))
      = Ok per_sensor ∧
    seg_nmael per_sensor !! 1%nat = Some (of_int 0) ∧
    seg_masel per_sensor !! 1%nat = Some NaN ∧
    seg_nmael ms !! 1%nat = None ∧
    seg_masel ms !! 1%nat = None ∧
    NaN ∉ seg_masel ms.
Proof.
  exists (Measures [reading 2 3] [reading 1 3] [of_int 2]),
         (Measures [reading 2 3; of_int 0] [reading 1 3; NaN] [of_int 2; of_int 0]).
  split; [compute_done|]. split; [compute_done|].
  split; [compute_done|]. split; [done|]. split; [done|]. split; [done|].
  cbn. intros H. apply list_elem_of_singleton in H. discriminate H.
Qed.

(** ** The statements above at concrete runs *)

(** C1 on the ramp: windows of three readings, horizon two. *)
Lemma sequence_data_preparation_examples_ramp :
  ∃ trainX trainY testX testY,
    sequence_data_preparation 3 2 ramp_train ramp_test
      = Ok (trainX, trainY, testX, testY) ∧
    ((3 + 2 ≤ Z.of_nat (ncols ramp_train))%Z →
       windowed 3 2 ramp_train trainX trainY) ∧
    ((3 + 2 ≤ Z.of_nat (ncols ramp_test))%Z →
       windowed 3 2 ramp_test testX testY).
Proof.
  apply (sequence_data_preparation_examples 3 2 ramp_train ramp_test).
  - compute_done.
  - compute_done.
  - lia.
  - lia.
Defined.

(** C3 on a training partition of two equal readings. *)
Lemma scale_data_constant_training_threes :
  ∃ train_scaled test_scaled,
    scale_data (Matrix 2 [readings [3; 3]%Z]) (Matrix 3 [readings [3; 4; 2]%Z])
      = Ok (train_scaled, test_scaled) ∧
    (∀ r k y, entry train_scaled r k = Some y → y = NaN) ∧
    (∀ r k y, entry test_scaled r k = Some y → ¬ finite y).
Proof.
  apply (scale_data_constant_training _ _ (of_int 3)).
  - compute_done.
  - compute_done.
Defined.

(** C4 on the ramp with [seq_len + pre_len = 7]: enough training columns,
    too few test columns. *)
Lemma sequence_data_preparation_short_partition_ramp :
  ∃ trainX trainY testX testY,
    sequence_data_preparation 5 2 ramp_train ramp_test
      = Ok (trainX, trainY, testX, testY) ∧
    ((Z.of_nat (ncols ramp_train) < 5 + 2)%Z → trainX = [] ∧ trainY = []) ∧
    ((Z.of_nat (ncols ramp_test) < 5 + 2)%Z → testX = [] ∧ testY = []).
Proof.
  apply (sequence_data_preparation_short_partition 5 2 ramp_train ramp_test).
  - lia.
  - lia.
Defined.

(** C5 on the ramp: training bounds 0 and 18. *)
Lemma scale_data_fits_on_training_ramp :
  (∃ train_scaled test_scaled,
    Binary64.scale_data ramp_train ramp_test = Ok (train_scaled, test_scaled) ∧
    (∀ r c, entry train_scaled r c
            = Binary64.transform (of_int 0) (of_int 18) <$> entry ramp_train r c) ∧
    (∀ r c, entry test_scaled r c
            = Binary64.transform (of_int 0) (of_int 18) <$> entry ramp_test r c) ∧
    (∀ other, ∃ other_scaled,
       Binary64.scale_data ramp_train other = Ok (train_scaled, other_scaled) ∧
       ∀ r c, entry other_scaled r c
              = Binary64.transform (of_int 0) (of_int 18) <$> entry other r c) ∧
    (∀ d, Binary64.nsub (of_int 18) (of_int 0) = Fin d → d ≠ 0%Qc →
       (∀ r c y, entry train_scaled r c = Some y → in_unit_interval y) ∧
       (∀ r c mn' mx' q,
          of_int 0 = Fin mn' → of_int 18 = Fin mx' →
          entry ramp_test r c = Some (Fin q) → (mn' ≤ q)%Qc → (q ≤ mx')%Qc →
          ∃ y, entry test_scaled r c = Some y ∧ in_unit_interval y))) ∧
  Binary64.nsub (of_int 18) (of_int 0) = of_int 18.
Proof.
  split; [|compute_done].
  apply (scale_data_fits_on_training ramp_train ramp_test (of_int 0) (of_int 18)).
  - compute_done.
  - compute_done.
Defined.

(** C7 on the two-sensor run. *)
Lemma naive_prediction_last_observed_demo :
  ∃ testnpredc,
    naive_prediction (of_int 2) demo_testX = Ok testnpredc ∧
    length testnpredc = length demo_testX ∧
    (∀ i w, demo_testX !! i = Some w → ∀ r,
       cell testnpredc i r
         = rescale (of_int 2) <$> entry w r (Z.to_nat 1 - 1) ∧
       entry w r (Z.to_nat 1 - 1)
         = entry demo_test_scaled r (i + (Z.to_nat 1 - 1))) ∧
    (∀ ythat yhat i r,
       cell (rescale_predictions (of_int 2) ythat yhat).2 i r
         = rescale (of_int 2) <$> cell yhat i r).
Proof.
  apply (naive_prediction_last_observed 1 1 demo_test_scaled demo_test_scaled
           (of_int 2) demo_testX demo_testY demo_testX demo_testY).
  - compute_done.
  - lia.
  - lia.
  - cbn. lia.
  - compute_done.
Defined.

(** C10 on one sensor with training bounds 1 and 5. *)
Lemma reference_values_rescaled_units_odd_even :
  ∃ train_rescref test_rescref,
    Binary64.rescale_reference odd_train
        [[reading 1 2]; [of_int 1]] [[reading 3 4]; [reading 5 4]]
      = Ok (of_int 5, train_rescref, test_rescref) ∧
    (∀ i r x, (i < length [[reading 1 2]; [of_int 1]])%nat →
       entry odd_train r (i + Z.to_nat (1 + 1 - 1)) = Some x →
       cell train_rescref i r
         = Some (Binary64.nmul
                   (Binary64.ndiv (Binary64.nsub x (of_int 1))
                      (Binary64.nsub (of_int 5) (of_int 1)))
                   (of_int 5))) ∧
    (∀ i r x, (i < length [[reading 3 4]; [reading 5 4]])%nat →
       entry even_test r (i + Z.to_nat (1 + 1 - 1)) = Some x →
       cell test_rescref i r
         = Some (Binary64.nmul
                   (Binary64.ndiv (Binary64.nsub x (of_int 1))
                      (Binary64.nsub (of_int 5) (of_int 1)))
                   (of_int 5))) ∧
    (∀ ythat yhat i r,
       cell (Binary64.rescale_predictions (of_int 5) ythat yhat).1 i r
         = (λ y, Binary64.nmul y (of_int 5)) <$> cell ythat i r ∧
       cell (Binary64.rescale_predictions (of_int 5) ythat yhat).2 i r
         = (λ y, Binary64.nmul y (of_int 5)) <$> cell yhat i r) ∧
    (∀ testnpredc,
       Binary64.naive_prediction (of_int 5)
         [Matrix 1 [[reading 1 4]]; Matrix 1 [[reading 3 4]]] = Ok testnpredc →
       ∀ i r, cell testnpredc i r
              = (λ y, Binary64.nmul y (of_int 5))
                  <$> cell (last_cells
                              <$> [Matrix 1 [[reading 1 4]]; Matrix 1 [[reading 3 4]]])
                        i r).
Proof.
  apply (reference_values_rescaled_units 1 1 odd_train even_test
           (of_int 1) (of_int 5) odd_train_scaled even_test_scaled
           [Matrix 1 [[of_int 0]]; Matrix 1 [[reading 1 2]]]
           [[reading 1 2]; [of_int 1]]
           [Matrix 1 [[reading 1 4]]; Matrix 1 [[reading 3 4]]]
           [[reading 3 4]; [reading 5 4]]).
  - compute_done.
  - compute_done.
  - lia.
  - lia.
  - compute_done.
  - compute_done.
  - compute_done.
  - compute_done.
Defined.

(** ** Sample runs *)

(** The split of the ramp at the double 0.6: the product [15 * 0.6] is
    rounded to 9.0, nine training and six test columns. *)
Example train_test_split_ramp :
  Binary64.train_test_split ramp (Binary64.double 6 10)
    = Ok (ramp_train, ramp_test).
Proof. compute_done. Qed.

(** Fifty timesteps at 0.58 are cut after column 28, three timesteps at the
    double [1 / 3] after column 1, and a product beyond the largest double
    fails in [int()]. *)
Example train_test_split_rounded_products :
  Binary64.train_test_split (Matrix 50 []) (Binary64.double 58 100)
    = Ok (Matrix 28 [], Matrix 22 []) ∧
  Binary64.train_test_split (Matrix 3 []) (Binary64.ndiv (of_int 1) (of_int 3))
    = Ok (Matrix 1 [], Matrix 2 []) ∧
  Binary64.train_test_split ramp (Binary64.double (10 ^ 308) 1)
    = Raise OverflowError.
Proof. repeat split; compute_done. Qed.

Example train_test_split_nan : train_test_split ramp NaN = Raise ValueError.
Proof. reflexivity. Qed.

(** No maximum of an array without cells. *)
Example scale_data_no_cells :
  scale_data (Matrix 0 [[]; []]) ramp_test = Raise ValueError.
Proof. reflexivity. Qed.

(** With [seq_len + pre_len = 0] the first round takes the last column of a
    slice without columns. *)
Example sequence_data_preparation_zero_parameters :
  sequence_data_preparation 0 0 ramp_train ramp_test = Raise IndexError.
Proof. compute_done. Qed.

(** One sensor, three examples: true values 10, 20, 30, predictions 11, 19,
    33 and naive predictions 9, 21, 30 give, before rounding, errors 5/3 and
    2/3 and the ratio 5/2. *)
Example segment_measures_scenario :
  segment_measures [Matrix 1 [[NaN]]]
      [readings [10]%Z; readings [20]%Z; readings [30]%Z]
      [readings [11]%Z; readings [19]%Z; readings [33]%Z]
      [readings [9]%Z; readings [21]%Z; readings [30]%Z]
    = Ok (Measures [reading 5 3] [reading 5 2] [reading 2 3]).
Proof. compute_done. Qed.

(** [np.nanmean] skips the marker; [np.mean] does not. *)
Example nanmean_skips_marker :
  nanmean [reading 1 3; NaN; of_int 1] = reading 2 3 ∧
  mean [reading 1 3; NaN; of_int 1] = NaN ∧
  nanmean [NaN; NaN] = NaN.
Proof. repeat split; compute_done. Qed.

(** No test example: the naive benchmark indexes a third axis that the empty
    array does not have. *)
Example naive_prediction_no_examples :
  naive_prediction (of_int 2) [] = Raise IndexError.
Proof. reflexivity. Qed.

(** ** The store model: what a call may touch *)

Lemma heap_bind_unfold {A B} (c : Heap.M A) (k : A → Heap.M B) h :
  (c ≫= k) h =
    match c h with
    | (Ok a, h') => k a h'
    | (Raise e, h') => (Raise e, h')
    end.
Proof. reflexivity. Qed.

Lemma keeps_ret {A} D (a : A) (Q : A → Prop) : Q a → Heap.keeps D (mret a) Q.
Proof.
  intros Ha h HD. cbn. split; [done|]. split; [done|]. by intros a' [= <-].
Qed.

Lemma keeps_raise {A} D e (Q : A → Prop) : Heap.keeps D (Heap.raise e) Q.
Proof. intros h HD. cbn. split; [done|]. by split. Qed.

Lemma keeps_lift {A} D (r : result A) : Heap.keeps D (Heap.lift r) (λ _, True).
Proof. intros h HD. cbn. split; [done|]. by split. Qed.

Lemma keeps_bind {A B} D (c : Heap.M A) (k : A → Heap.M B) Q R :
  Heap.keeps D c Q → (∀ a, Q a → Heap.keeps D (k a) R) →
  Heap.keeps D (c ≫= k) R.
Proof.
  intros Hc Hk h HD. rewrite heap_bind_unfold.
  destruct (Hc h HD) as (Hdom & Hsame & HQ).
  destruct (c h) as [[a|e] h1]; cbn in *; [|by split].
  destruct (Hk a (HQ a eq_refl) h1) as (Hdom' & Hsame' & HR); [set_solver|].
  split; [set_solver|]. split; [|done].
  intros l Hl. rewrite Hsame' by done. by apply Hsame.
Qed.

Lemma keeps_alloc D o : Heap.keeps D (Heap.alloc o) (λ l, l ∉ D).
Proof.
  intros h HD. unfold Heap.alloc. cbn.
  pose proof (is_fresh (dom h)) as Hfresh.
  split; [apply dom_insert_subseteq|]. split.
  - intros l Hl. apply lookup_insert_ne. set_solver.
  - intros l [= <-]. set_solver.
Qed.

Lemma keeps_matrix_at D l : Heap.keeps D (Heap.matrix_at l) (λ _, True).
Proof.
  intros h HD. unfold Heap.matrix_at.
  destruct (h !! l) as [[]|]; cbn; by repeat split.
Qed.

Lemma keeps_list_at D l : Heap.keeps D (Heap.list_at l) (λ _, True).
Proof.
  intros h HD. unfold Heap.list_at.
  destruct (h !! l) as [[]|]; cbn; by repeat split.
Qed.

(** An in-place update is harmless when its target lies outside [D]. *)
Lemma keeps_append D l v : l ∉ D → Heap.keeps D (Heap.append l v) (λ _, True).
Proof.
  intros Hl h HD. unfold Heap.append.
  destruct (h !! l) as [[]|]; cbn; try by repeat split.
  split; [apply dom_insert_subseteq|]. split; [|done].
  intros l' Hl'. apply lookup_insert_ne. set_solver.
Qed.

Lemma keeps_for_each {S} D idxs (body : nat → S → Heap.M S) :
  (∀ i s, Heap.keeps D (body i s) (λ _, True)) →
  ∀ s, Heap.keeps D (Heap.for_each idxs body s) (λ _, True).
Proof.
  intros Hbody. induction idxs as [|i idxs IH]; intros s; cbn.
  - by apply keeps_ret.
  - eapply keeps_bind; [apply Hbody|]. intros s' _. apply IH.
Qed.

Lemma keeps_traverse {A B} D (f : A → Heap.M B) l :
  (∀ a, Heap.keeps D (f a) (λ _, True)) →
  Heap.keeps D (Heap.traverse f l) (λ _, True).
Proof.
  intros Hf. induction l as [|a l IH]; cbn.
  - by apply keeps_ret.
  - eapply keeps_bind; [apply Hf|]. intros b _.
    eapply keeps_bind; [apply IH|]. intros bs _. by apply keeps_ret.
Qed.

Lemma keeps_shape1 D r : Heap.keeps D (Heap.shape1 r) (λ _, True).
Proof.
  destruct r; cbn.
  - eapply keeps_bind; [apply keeps_matrix_at|]. intros m _. by apply keeps_ret.
  - by apply keeps_ret.
  - apply keeps_raise.
Qed.

Lemma keeps_slice_view D lo hi r :
  Heap.keeps D (Heap.slice_view lo hi r) (λ _, True).
Proof.
  destruct r; cbn.
  - eapply keeps_bind; [apply keeps_matrix_at|]. intros m _. by apply keeps_ret.
  - by apply keeps_ret.
  - apply keeps_raise.
Qed.

Lemma keeps_col_view D k r : Heap.keeps D (Heap.col_view k r) (λ _, True).
Proof.
  unfold Heap.col_view. eapply keeps_bind; [apply keeps_shape1|].
  intros n _. cbn. case_bool_decide; [|apply keeps_raise].
  destruct r; first [by apply keeps_ret | apply keeps_raise].
Qed.

Lemma keeps_read_matrix D r : Heap.keeps D (Heap.read_matrix r) (λ _, True).
Proof.
  destruct r; cbn.
  - apply keeps_matrix_at.
  - eapply keeps_bind; [apply keeps_matrix_at|]. intros m _. by apply keeps_ret.
  - apply keeps_raise.
Qed.

Lemma keeps_read_vector D r : Heap.keeps D (Heap.read_vector r) (λ _, True).
Proof.
  destruct r; cbn; try apply keeps_raise.
  eapply keeps_bind; [apply keeps_matrix_at|]. intros m _. by apply keeps_ret.
Qed.

Ltac keeps_step :=
  first
    [ apply keeps_matrix_at | apply keeps_list_at | apply keeps_shape1
    | apply keeps_slice_view | apply keeps_col_view | apply keeps_read_matrix
    | apply keeps_read_vector | apply keeps_lift | apply keeps_raise
    | apply keeps_alloc
    | apply keeps_traverse; intros ?
    | eapply keeps_bind; [|intros ? ?] ].

Lemma keeps_own_fresh D l : l ∉ D → Heap.keeps D (mret (Heap.Own l)) (Heap.fresh_array D).
Proof. intros Hl. apply keeps_ret. by exists l. Qed.

Lemma keeps_np_array D r : Heap.keeps D (Heap.np_array r) (Heap.fresh_array D).
Proof.
  unfold Heap.np_array. repeat keeps_step. by apply keeps_own_fresh.
Qed.

Lemma keeps_np_array_X D lst : Heap.keeps D (Heap.np_array_X lst) (Heap.fresh_array D).
Proof.
  unfold Heap.np_array_X. repeat keeps_step. by apply keeps_own_fresh.
Qed.

Lemma keeps_np_array_Y D lst : Heap.keeps D (Heap.np_array_Y lst) (Heap.fresh_array D).
Proof.
  unfold Heap.np_array_Y. repeat keeps_step. by apply keeps_own_fresh.
Qed.

Lemma keeps_sub_scalar D r c : Heap.keeps D (Heap.sub_scalar r c) (Heap.fresh_array D).
Proof.
  unfold Heap.sub_scalar. repeat keeps_step. by apply keeps_own_fresh.
Qed.

Lemma keeps_div_scalar D r c : Heap.keeps D (Heap.div_scalar r c) (Heap.fresh_array D).
Proof.
  unfold Heap.div_scalar. repeat keeps_step. by apply keeps_own_fresh.
Qed.

Lemma keeps_max_of D r : Heap.keeps D (Heap.max_of r) (λ _, True).
Proof. unfold Heap.max_of. repeat keeps_step. Qed.

Lemma keeps_min_of D r : Heap.keeps D (Heap.min_of r) (λ _, True).
Proof. unfold Heap.min_of. repeat keeps_step. Qed.

Lemma keeps_train_test_split D data train_portion :
  Heap.keeps D (Heap.train_test_split data train_portion)
    (λ r, Heap.fresh_array D r.1 ∧ Heap.fresh_array D r.2).
Proof.
  unfold Heap.train_test_split.
  eapply keeps_bind; [apply keeps_shape1|]. intros time_len _.
  eapply keeps_bind; [apply keeps_lift|]. intros train_size _.
  eapply keeps_bind; [apply keeps_slice_view|]. intros train_view _.
  eapply keeps_bind; [apply keeps_np_array|]. intros train_data Htrain.
  eapply keeps_bind; [apply keeps_slice_view|]. intros test_view _.
  eapply keeps_bind; [apply keeps_np_array|]. intros test_data Htest.
  by apply keeps_ret.
Qed.

Lemma keeps_scale_data D train_data test_data :
  Heap.keeps D (Heap.scale_data train_data test_data)
    (λ r, Heap.fresh_array D r.1 ∧ Heap.fresh_array D r.2).
Proof.
  unfold Heap.scale_data.
  eapply keeps_bind; [apply keeps_max_of|]. intros max_speed _.
  eapply keeps_bind; [apply keeps_min_of|]. intros min_speed _.
  eapply keeps_bind; [apply keeps_sub_scalar|]. intros train_shifted _.
  eapply keeps_bind; [apply keeps_div_scalar|]. intros train_scaled Htrain.
  eapply keeps_bind; [apply keeps_sub_scalar|]. intros test_shifted _.
  eapply keeps_bind; [apply keeps_div_scalar|]. intros test_scaled Htest.
  by apply keeps_ret.
Qed.

(** The loops write to their two lists and to nothing else. *)
Lemma keeps_windows D seq_len pre_len data X Y :
  X ∉ D → Y ∉ D →
  Heap.keeps D (Heap.windows seq_len pre_len data X Y) (λ _, True).
Proof.
  intros HX HY. unfold Heap.windows.
  eapply keeps_bind; [apply keeps_shape1|]. intros n _.
  apply keeps_for_each. intros i []. unfold Heap.window_step.
  eapply keeps_bind; [apply keeps_slice_view|]. intros a _.
  eapply keeps_bind; [apply keeps_slice_view|]. intros w _.
  eapply keeps_bind; [by apply keeps_append|]. intros _ _.
  eapply keeps_bind; [apply keeps_col_view|]. intros y _.
  by apply keeps_append.
Qed.

Lemma keeps_sequence_data_preparation D seq_len pre_len train_data test_data :
  Heap.keeps D (Heap.sequence_data_preparation seq_len pre_len train_data test_data)
    (λ r, Heap.fresh_array D r.1.1.1 ∧ Heap.fresh_array D r.1.1.2 ∧
          Heap.fresh_array D r.1.2 ∧ Heap.fresh_array D r.2).
Proof.
  unfold Heap.sequence_data_preparation.
  eapply keeps_bind; [apply keeps_alloc|]. intros trainX HtrainX.
  eapply keeps_bind; [apply keeps_alloc|]. intros trainY HtrainY.
  eapply keeps_bind; [apply keeps_alloc|]. intros testX HtestX.
  eapply keeps_bind; [apply keeps_alloc|]. intros testY HtestY.
  eapply keeps_bind; [by apply keeps_windows|]. intros _ _.
  eapply keeps_bind; [by apply keeps_windows|]. intros _ _.
  eapply keeps_bind; [apply keeps_np_array_X|]. intros trainX' H1.
  eapply keeps_bind; [apply keeps_np_array_Y|]. intros trainY' H2.
  eapply keeps_bind; [apply keeps_np_array_X|]. intros testX' H3.
  eapply keeps_bind; [apply keeps_np_array_Y|]. intros testY' H4.
  by apply keeps_ret.
Qed.

Lemma keeps_preprocess D speed_data train_rate seq_len pre_len :
  Heap.keeps D (Heap.preprocess speed_data train_rate seq_len pre_len)
    (λ r, Heap.fresh_array D r.1.1.1 ∧ Heap.fresh_array D r.1.1.2 ∧
          Heap.fresh_array D r.1.2 ∧ Heap.fresh_array D r.2).
Proof.
  unfold Heap.preprocess.
  eapply keeps_bind; [apply keeps_train_test_split|].
  intros [train_data test_data] _.
  eapply keeps_bind; [apply keeps_scale_data|].
  intros [train_scaled test_scaled] _.
  apply keeps_sequence_data_preparation.
Qed.

(** From [keeps] at the domain of the store to the store itself. *)
Lemma keeps_run {A} (c : Heap.M A) (Q : gset Heap.loc → A → Prop) h :
  (∀ D, Heap.keeps D c (Q D)) →
  h ⊆ (c h).2 ∧ ∀ a, (c h).1 = Ok a → Q (dom h) a.
Proof.
  intros Hc. destruct (Hc (dom h) h) as (Hdom & Hsame & HQ); [done|].
  split; [|done]. apply map_subseteq_spec. intros l o Hl.
  rewrite Hsame; [done|]. by eapply elem_of_dom_2.
Qed.

(** ** The store model computes the same arrays *)

Lemma fresh_unused (h : Heap.heap) : h !! fresh (dom h) = None.
Proof. apply not_elem_of_dom, is_fresh. Qed.

Lemma lookup_insert_old (h : Heap.heap) l l' o o' :
  h !! l = None → h !! l' = Some o' → <[l := o]> h !! l' = Some o'.
Proof.
  intros Hl Hl'. rewrite lookup_insert_ne; [done|]. intros ->. congruence.
Qed.

Lemma matrix_at_buffer h l m :
  h !! l = Some (Heap.Buffer m) → Heap.matrix_at l h = (Ok m, h).
Proof. intros H. unfold Heap.matrix_at. by rewrite H. Qed.

Lemma matrix_at_frame h l m :
  h !! l = Some (Heap.DataFrame m) → Heap.matrix_at l h = (Ok m, h).
Proof. intros H. unfold Heap.matrix_at. by rewrite H. Qed.

(** A new object lands at an unused location. *)
Lemma alloc_run h o :
  ∃ l, h !! l = None ∧ Heap.alloc o h = (Ok l, <[l := o]> h).
Proof. exists (fresh (dom h)). split; [apply fresh_unused|done]. Qed.

Lemma np_array_run h r m :
  Heap.read_matrix r h = (Ok m, h) →
  ∃ l, h !! l = None ∧
    Heap.np_array r h = (Ok (Heap.Own l), <[l := Heap.Buffer m]> h).
Proof.
  intros Hr. exists (fresh (dom h)). split; [apply fresh_unused|].
  unfold Heap.np_array. rewrite heap_bind_unfold, Hr. done.
Qed.

Lemma slice_of_frame h data m lo hi :
  h !! data = Some (Heap.DataFrame m) →
  ∃ v, Heap.slice_view lo hi (Heap.Own data) h = (Ok v, h) ∧
       ∀ h', h' !! data = Some (Heap.DataFrame m) →
         Heap.read_matrix v h' = (Ok (slice_cols lo hi m), h').
Proof.
  intros Hdata. eexists. split.
  - cbn. rewrite heap_bind_unfold, (matrix_at_frame _ _ _ Hdata). done.
  - intros h' Hdata'. cbn.
    rewrite heap_bind_unfold, (matrix_at_frame _ _ _ Hdata'). done.
Qed.

(** [train_test_split] on a frame holding [m]: the outcome of the function on
    [m], as two new buffers. *)
Lemma train_test_split_refines h data m train_portion :
  h !! data = Some (Heap.DataFrame m) →
  match train_test_split m train_portion with
  | Ok (train_data, test_data) =>
      ∃ l1 l2 h',
        Heap.train_test_split data train_portion h
          = (Ok (Heap.Own l1, Heap.Own l2), h') ∧
        h' !! l1 = Some (Heap.Buffer train_data) ∧
        h' !! l2 = Some (Heap.Buffer test_data)
  | Raise e => Heap.train_test_split data train_portion h = (Raise e, h)
  end.
Proof.
  intros Hdata. unfold train_test_split, Heap.train_test_split.
  rewrite heap_bind_unfold. cbn [Heap.shape1].
  rewrite heap_bind_unfold, (matrix_at_frame _ _ _ Hdata).
  cbn [mret Heap.M_ret Heap.ret]. rewrite heap_bind_unfold. unfold Heap.lift.
  destruct (py_int _) as [train_size|e]; cbn [mbind result_bind]; [|done].
  destruct (slice_of_frame h data m None (Some train_size) Hdata)
    as (v1 & Hv1 & Hread1).
  rewrite heap_bind_unfold, Hv1.
  destruct (np_array_run h v1 _ (Hread1 h Hdata)) as (l1 & Hl1 & Hcopy1).
  rewrite heap_bind_unfold, Hcopy1.
  set (h1 := <[l1 := Heap.Buffer (slice_cols None (Some train_size) m)]> h).
  assert (Hdata1 : h1 !! data = Some (Heap.DataFrame m))
    by (by apply lookup_insert_old).
  destruct (slice_of_frame h1 data m (Some train_size) None Hdata1)
    as (v2 & Hv2 & Hread2).
  rewrite heap_bind_unfold, Hv2.
  destruct (np_array_run h1 v2 _ (Hread2 h1 Hdata1)) as (l2 & Hl2 & Hcopy2).
  rewrite heap_bind_unfold, Hcopy2.
  eexists l1, l2, _. split; [reflexivity|]. split.
  - apply lookup_insert_old; [done|]. subst h1. apply lookup_insert_eq.
  - apply lookup_insert_eq.
Qed.

Lemma sub_scalar_run h l m c :
  h !! l = Some (Heap.Buffer m) →
  ∃ l', h !! l' = None ∧
    Heap.sub_scalar (Heap.Own l) c h
      = (Ok (Heap.Own l'), <[l' := Heap.Buffer (msub_scalar m c)]> h).
Proof.
  intros Hl. exists (fresh (dom h)). split; [apply fresh_unused|].
  unfold Heap.sub_scalar. cbn [Heap.read_matrix].
  by rewrite heap_bind_unfold, (matrix_at_buffer _ _ _ Hl).
Qed.

Lemma div_scalar_run h l m c :
  h !! l = Some (Heap.Buffer m) →
  ∃ l', h !! l' = None ∧
    Heap.div_scalar (Heap.Own l) c h
      = (Ok (Heap.Own l'), <[l' := Heap.Buffer (mdiv_scalar m c)]> h).
Proof.
  intros Hl. exists (fresh (dom h)). split; [apply fresh_unused|].
  unfold Heap.div_scalar. cbn [Heap.read_matrix].
  by rewrite heap_bind_unfold, (matrix_at_buffer _ _ _ Hl).
Qed.

(** [scale_data] on two buffers: the outcome of the function on their cells,
    as two new buffers. *)
Lemma scale_data_refines h l1 l2 m1 m2 :
  h !! l1 = Some (Heap.Buffer m1) → h !! l2 = Some (Heap.Buffer m2) →
  match scale_data m1 m2 with
  | Ok (train_scaled, test_scaled) =>
      ∃ s1 s2 h',
        Heap.scale_data (Heap.Own l1) (Heap.Own l2) h
          = (Ok (Heap.Own s1, Heap.Own s2), h') ∧
        h ⊆ h' ∧
        h' !! s1 = Some (Heap.Buffer train_scaled) ∧
        h' !! s2 = Some (Heap.Buffer test_scaled)
  | Raise e => Heap.scale_data (Heap.Own l1) (Heap.Own l2) h = (Raise e, h)
  end.
Proof.
  intros H1 H2. unfold scale_data, Heap.scale_data, Heap.max_of, Heap.min_of.
  cbn [Heap.read_matrix].
  rewrite !heap_bind_unfold, (matrix_at_buffer _ _ _ H1). unfold Heap.lift.
  destruct (amax m1) as [max_speed|e]; cbn [mbind result_bind]; [|done].
  rewrite !heap_bind_unfold, (matrix_at_buffer _ _ _ H1).
  destruct (amin m1) as [min_speed|e]; cbn [mbind result_bind]; [|done].
  destruct (sub_scalar_run h l1 m1 min_speed H1) as (t1 & Ht1 & E1).
  rewrite heap_bind_unfold, E1.
  set (h1 := <[t1 := _]> h).
  destruct (div_scalar_run h1 t1 _ (nsub max_speed min_speed)
              (lookup_insert_eq _ _ _)) as (s1 & Hs1 & E2).
  rewrite heap_bind_unfold, E2.
  set (h2 := <[s1 := _]> h1).
  assert (H2' : h2 !! l2 = Some (Heap.Buffer m2)).
  { apply lookup_insert_old; [done|]. by apply lookup_insert_old. }
  destruct (sub_scalar_run h2 l2 m2 min_speed H2') as (t2 & Ht2 & E3).
  rewrite heap_bind_unfold, E3.
  set (h3 := <[t2 := _]> h2).
  destruct (div_scalar_run h3 t2 _ (nsub max_speed min_speed)
              (lookup_insert_eq _ _ _)) as (s2 & Hs2 & E4).
  rewrite heap_bind_unfold, E4.
  eexists s1, s2, _. split; [reflexivity|]. split; [|split].
  - etrans; [by apply (insert_subseteq h t1)|]. fold h1.
    etrans; [by apply (insert_subseteq h1 s1)|]. fold h2.
    etrans; [by apply (insert_subseteq h2 t2)|]. fold h3.
    by apply insert_subseteq.
  - apply lookup_insert_old; [done|]. apply lookup_insert_old; [done|].
    apply lookup_insert_eq.
  - apply lookup_insert_eq.
Qed.

Lemma append_run h l items v :
  h !! l = Some (Heap.PyList items) →
  Heap.append l v h = (Ok (), <[l := Heap.PyList (items ++ [v])]> h).
Proof. intros Hl. unfold Heap.append. by rewrite Hl. Qed.

Lemma window_step_run seq_len pre_len h l m X Y xs ys i :
  (1 ≤ seq_len)%Z → (1 ≤ pre_len)%Z →
  (Z.of_nat i + seq_len + pre_len ≤ Z.of_nat (ncols m))%Z →
  h !! l = Some (Heap.Buffer m) →
  h !! X = Some (Heap.PyList xs) → h !! Y = Some (Heap.PyList ys) → X ≠ Y →
  Heap.window_step seq_len pre_len (Heap.Own l) X Y i () h =
    (Ok (),
     <[Y := Heap.PyList (ys ++ [Heap.target_view seq_len pre_len l i])]>
       (<[X := Heap.PyList (xs ++ [Heap.window_view seq_len l i])]> h)).
Proof.
  intros Hs Hp Hi Hl HX HY Hne. unfold Heap.window_step.
  cbn [Heap.slice_view].
  rewrite !heap_bind_unfold, (matrix_at_buffer _ _ _ Hl).
  cbn [mret Heap.M_ret Heap.ret].
  cbn [slice_start slice_stop from_option].
  rewrite (adjust_index_inside i) by lia.
  rewrite (adjust_index_nonneg (Z.of_nat i + seq_len + pre_len)) by lia.
  replace (Z.to_nat (Z.of_nat i + seq_len + pre_len) - i)%nat
    with (Z.to_nat (seq_len + pre_len)) by lia.
  cbn [Heap.slice_view slice_start slice_stop from_option].
  rewrite (adjust_index_nonneg seq_len) by lia.
  rewrite heap_bind_unfold. cbn [mret Heap.M_ret Heap.ret].
  replace (Heap.Cols l (i + 0) (Z.to_nat seq_len - 0))
    with (Heap.window_view seq_len l i)
    by (unfold Heap.window_view; f_equal; lia).
  rewrite heap_bind_unfold, (append_run _ _ _ _ HX).
  unfold Heap.col_view. cbn [Heap.shape1].
  rewrite heap_bind_unfold. cbn [mret Heap.M_ret Heap.ret].
  rewrite heap_bind_unfold. cbn [mret Heap.M_ret Heap.ret Z.ltb Z.compare].
  rewrite bool_decide_true by lia.
  replace (Heap.Column l (i + Z.to_nat (-1 + Z.of_nat (Z.to_nat (seq_len + pre_len)))))
    with (Heap.target_view seq_len pre_len l i)
    by (unfold Heap.target_view; f_equal; lia).
  apply append_run. by rewrite lookup_insert_ne.
Qed.

(** The loop from start index [start]: the two lists grow by one view per
    round and nothing else changes. *)
Lemma heap_windows_loop seq_len pre_len l m X Y n : ∀ start xs ys h,
  (1 ≤ seq_len)%Z → (1 ≤ pre_len)%Z →
  ((0 < n)%nat →
   (Z.of_nat (start + n) + seq_len + pre_len - 1 ≤ Z.of_nat (ncols m))%Z) →
  h !! l = Some (Heap.Buffer m) →
  h !! X = Some (Heap.PyList xs) → h !! Y = Some (Heap.PyList ys) → X ≠ Y →
  ∃ h',
    Heap.for_each (seq start n)
      (Heap.window_step seq_len pre_len (Heap.Own l) X Y) () h = (Ok (), h') ∧
    h' !! X = Some (Heap.PyList
                      (xs ++ (Heap.window_view seq_len l <$> seq start n))) ∧
    h' !! Y = Some (Heap.PyList
                      (ys ++ (Heap.target_view seq_len pre_len l <$> seq start n))) ∧
    ∀ l', l' ≠ X → l' ≠ Y → h' !! l' = h !! l'.
Proof.
  induction n as [|n IH]; intros start xs ys h Hs Hp Hn Hl HX HY Hne.
  - exists h. cbn. rewrite !app_nil_r. by repeat split.
  - specialize (Hn ltac:(lia)). cbn [seq Heap.for_each].
    rewrite heap_bind_unfold.
    rewrite (window_step_run seq_len pre_len h l m X Y xs ys start)
      by (done || lia).
    set (h1 := <[Y := _]> (<[X := _]> h)).
    assert (HlX : l ≠ X) by (intros ->; congruence).
    assert (HlY : l ≠ Y) by (intros ->; congruence).
    destruct (IH (S start) (xs ++ [Heap.window_view seq_len l start])
                (ys ++ [Heap.target_view seq_len pre_len l start]) h1)
      as (h' & Hrun & HX' & HY' & Hrest); try done.
    + lia.
    + subst h1. by rewrite !lookup_insert_ne.
    + subst h1. rewrite lookup_insert_ne by done. apply lookup_insert_eq.
    + subst h1. apply lookup_insert_eq.
    + exists h'. split; [done|]. rewrite fmap_cons.
      rewrite <- !app_assoc in HX', HY'. split; [done|]. split; [done|].
      intros l' H1 H2. rewrite Hrest by done. subst h1.
      by rewrite !lookup_insert_ne.
Qed.

Lemma heap_traverse_run {I A B} (mk : I → A) (f : A → Heap.M B) (g : I → B)
    idxs h :
  Forall (λ i, f (mk i) h = (Ok (g i), h)) idxs →
  Heap.traverse f (mk <$> idxs) h = (Ok (g <$> idxs), h).
Proof.
  induction 1 as [|i idxs Hi _ IH]; [done|].
  rewrite fmap_cons. cbn [Heap.traverse]. rewrite heap_bind_unfold, Hi.
  rewrite heap_bind_unfold, IH. done.
Qed.

Lemma np_array_X_run seq_len h lst l m n :
  h !! lst = Some (Heap.PyList (Heap.window_view seq_len l <$> seq 0 n)) →
  h !! l = Some (Heap.Buffer m) →
  ∃ a, h !! a = None ∧
    Heap.np_array_X lst h
      = (Ok (Heap.Own a),
         <[a := Heap.StackX (window_at seq_len m <$> seq 0 n)]> h).
Proof.
  intros Hlst Hl. exists (fresh (dom h)). split; [apply fresh_unused|].
  unfold Heap.np_array_X, Heap.list_at.
  rewrite heap_bind_unfold, Hlst.
  rewrite heap_bind_unfold.
  rewrite (heap_traverse_run _ _ (window_at seq_len m)); [done|].
  apply Forall_forall. intros i _. cbn.
  by rewrite heap_bind_unfold, (matrix_at_buffer _ _ _ Hl).
Qed.

Lemma np_array_Y_run seq_len pre_len h lst l m n :
  h !! lst
    = Some (Heap.PyList (Heap.target_view seq_len pre_len l <$> seq 0 n)) →
  h !! l = Some (Heap.Buffer m) →
  ∃ a, h !! a = None ∧
    Heap.np_array_Y lst h
      = (Ok (Heap.Own a),
         <[a := Heap.StackY (target_at seq_len pre_len m <$> seq 0 n)]> h).
Proof.
  intros Hlst Hl. exists (fresh (dom h)). split; [apply fresh_unused|].
  unfold Heap.np_array_Y, Heap.list_at.
  rewrite heap_bind_unfold, Hlst.
  rewrite heap_bind_unfold.
  rewrite (heap_traverse_run _ _ (target_at seq_len pre_len m)); [done|].
  apply Forall_forall. intros i _. cbn.
  by rewrite heap_bind_unfold, (matrix_at_buffer _ _ _ Hl).
Qed.

Lemma heap_windows_run seq_len pre_len h l m X Y :
  (1 ≤ seq_len)%Z → (1 ≤ pre_len)%Z →
  h !! l = Some (Heap.Buffer m) →
  h !! X = Some (Heap.PyList []) → h !! Y = Some (Heap.PyList []) → X ≠ Y →
  let n := Z.to_nat (Z.of_nat (ncols m) - (seq_len + pre_len - 1)) in
  ∃ h',
    Heap.windows seq_len pre_len (Heap.Own l) X Y h = (Ok (), h') ∧
    h' !! X = Some (Heap.PyList (Heap.window_view seq_len l <$> seq 0 n)) ∧
    h' !! Y = Some (Heap.PyList (Heap.target_view seq_len pre_len l <$> seq 0 n)) ∧
    ∀ l', l' ≠ X → l' ≠ Y → h' !! l' = h !! l'.
Proof.
  intros Hs Hp Hl HX HY Hne n. unfold Heap.windows. cbn [Heap.shape1].
  rewrite !heap_bind_unfold, (matrix_at_buffer _ _ _ Hl).
  cbn [mret Heap.M_ret Heap.ret]. unfold range. fold n.
  destruct (heap_windows_loop seq_len pre_len l m X Y n 0 [] [] h)
    as (h' & Hrun & HX' & HY' & Hrest); try done.
  { subst n. lia. }
  by exists h'.
Qed.

Ltac old_lookup :=
  first [ done | apply lookup_insert_eq
        | apply lookup_insert_old; [done | old_lookup] ].

(** [sequence_data_preparation] on two buffers, positive parameters: the four
    arrays of the function on their cells, each in a new object. *)
Lemma sequence_data_preparation_refines seq_len pre_len h l1 l2 m1 m2 :
  (1 ≤ seq_len)%Z → (1 ≤ pre_len)%Z →
  h !! l1 = Some (Heap.Buffer m1) → h !! l2 = Some (Heap.Buffer m2) →
  ∃ a b c d h' trainX trainY testX testY,
    Heap.sequence_data_preparation seq_len pre_len (Heap.Own l1) (Heap.Own l2) h
      = (Ok (Heap.Own a, Heap.Own b, Heap.Own c, Heap.Own d), h') ∧
    sequence_data_preparation seq_len pre_len m1 m2
      = Ok (trainX, trainY, testX, testY) ∧
    h' !! a = Some (Heap.StackX trainX) ∧ h' !! b = Some (Heap.StackY trainY) ∧
    h' !! c = Some (Heap.StackX testX) ∧ h' !! d = Some (Heap.StackY testY).
Proof.
  intros Hs Hp H1 H2. unfold Heap.sequence_data_preparation.
  destruct (alloc_run h (Heap.PyList [])) as (tX & HtX & E).
  rewrite heap_bind_unfold, E. clear E. set (h1 := <[tX := _]> h).
  destruct (alloc_run h1 (Heap.PyList [])) as (tY & HtY & E).
  rewrite heap_bind_unfold, E. clear E. set (h2 := <[tY := _]> h1).
  destruct (alloc_run h2 (Heap.PyList [])) as (eX & HeX & E).
  rewrite heap_bind_unfold, E. clear E. set (h3 := <[eX := _]> h2).
  destruct (alloc_run h3 (Heap.PyList [])) as (eY & HeY & E).
  rewrite heap_bind_unfold, E. clear E. set (h4 := <[eY := _]> h3).
  assert (L1 : h1 !! l1 = Some (Heap.Buffer m1)) by (subst h1; old_lookup).
  assert (L2 : h1 !! l2 = Some (Heap.Buffer m2)) by (subst h1; old_lookup).
  assert (TX1 : h1 !! tX = Some (Heap.PyList [])) by (subst h1; old_lookup).
  assert (L1' : h2 !! l1 = Some (Heap.Buffer m1)) by (subst h2; old_lookup).
  assert (L2' : h2 !! l2 = Some (Heap.Buffer m2)) by (subst h2; old_lookup).
  assert (TX2 : h2 !! tX = Some (Heap.PyList [])) by (subst h2; old_lookup).
  assert (TY2 : h2 !! tY = Some (Heap.PyList [])) by (subst h2; old_lookup).
  assert (L1'' : h3 !! l1 = Some (Heap.Buffer m1)) by (subst h3; old_lookup).
  assert (L2'' : h3 !! l2 = Some (Heap.Buffer m2)) by (subst h3; old_lookup).
  assert (TX3 : h3 !! tX = Some (Heap.PyList [])) by (subst h3; old_lookup).
  assert (TY3 : h3 !! tY = Some (Heap.PyList [])) by (subst h3; old_lookup).
  assert (EX3 : h3 !! eX = Some (Heap.PyList [])) by (subst h3; old_lookup).
  assert (B1 : h4 !! l1 = Some (Heap.Buffer m1)) by (subst h4; old_lookup).
  assert (B2 : h4 !! l2 = Some (Heap.Buffer m2)) by (subst h4; old_lookup).
  assert (TX4 : h4 !! tX = Some (Heap.PyList [])) by (subst h4; old_lookup).
  assert (TY4 : h4 !! tY = Some (Heap.PyList [])) by (subst h4; old_lookup).
  assert (EX4 : h4 !! eX = Some (Heap.PyList [])) by (subst h4; old_lookup).
  assert (EY4 : h4 !! eY = Some (Heap.PyList [])) by (subst h4; old_lookup).
  assert (tX ≠ tY) by (intros ->; congruence).
  assert (eX ≠ eY) by (intros ->; congruence).
  assert (eX ≠ tX) by (intros ->; congruence).
  assert (eX ≠ tY) by (intros ->; congruence).
  assert (eY ≠ tX) by (intros ->; congruence).
  assert (eY ≠ tY) by (intros ->; congruence).
  assert (l1 ≠ tX ∧ l1 ≠ tY ∧ l1 ≠ eX ∧ l1 ≠ eY) as (? & ? & ? & ?)
    by (repeat split; intros ->; congruence).
  assert (l2 ≠ tX ∧ l2 ≠ tY ∧ l2 ≠ eX ∧ l2 ≠ eY) as (? & ? & ? & ?)
    by (repeat split; intros ->; congruence).
  clearbody h1 h2 h3 h4.
  destruct (heap_windows_run seq_len pre_len h4 l1 m1 tX tY)
    as (h5 & E & TX5 & TY5 & R5); try done.
  rewrite heap_bind_unfold, E. clear E.
  destruct (heap_windows_run seq_len pre_len h5 l2 m2 eX eY)
    as (h6 & E & EX6 & EY6 & R6); try done; try (by rewrite R5).
  rewrite heap_bind_unfold, E. clear E.
  set (n1 := Z.to_nat (Z.of_nat (ncols m1) - (seq_len + pre_len - 1))) in *.
  set (n2 := Z.to_nat (Z.of_nat (ncols m2) - (seq_len + pre_len - 1))) in *.
  assert (B1' : h6 !! l1 = Some (Heap.Buffer m1)) by (by rewrite R6, R5).
  assert (B2' : h6 !! l2 = Some (Heap.Buffer m2)) by (by rewrite R6, R5).
  assert (TX6 : h6 !! tX = _) by (rewrite R6 by done; exact TX5).
  assert (TY6 : h6 !! tY = _) by (rewrite R6 by done; exact TY5).
  destruct (np_array_X_run seq_len h6 tX l1 m1 n1 TX6 B1') as (a & Ha & E).
  rewrite heap_bind_unfold, E. clear E. set (h7 := <[a := _]> h6).
  destruct (np_array_Y_run seq_len pre_len h7 tY l1 m1 n1)
    as (b & Hb & E); [subst h7; old_lookup..|].
  rewrite heap_bind_unfold, E. clear E. set (h8 := <[b := _]> h7).
  destruct (np_array_X_run seq_len h8 eX l2 m2 n2)
    as (c & Hc & E); [subst h8 h7; old_lookup..|].
  rewrite heap_bind_unfold, E. clear E. set (h9 := <[c := _]> h8).
  destruct (np_array_Y_run seq_len pre_len h9 eY l2 m2 n2)
    as (d & Hd & E); [subst h9 h8 h7; old_lookup..|].
  rewrite heap_bind_unfold, E. clear E.
  eexists a, b, c, d, _, _, _, _, _.
  split; [reflexivity|].
  split; [by apply sequence_data_preparation_Ok|].
  fold n1 n2. subst h9 h8 h7. repeat split; old_lookup.
Qed.

(** The three calls in sequence on a frame holding [m], positive parameters:
    when the functions succeed on [m], the store model returns four new
    objects holding their arrays, and the frame still holds [m]. *)
Lemma preprocess_refines h data m train_rate seq_len pre_len
    trainX trainY testX testY :
  (1 ≤ seq_len)%Z → (1 ≤ pre_len)%Z →
  h !! data = Some (Heap.DataFrame m) →
  preprocess m train_rate seq_len pre_len = Ok (trainX, trainY, testX, testY) →
  ∃ a b c d h',
    Heap.preprocess data train_rate seq_len pre_len h
      = (Ok (Heap.Own a, Heap.Own b, Heap.Own c, Heap.Own d), h') ∧
    h' !! a = Some (Heap.StackX trainX) ∧ h' !! b = Some (Heap.StackY trainY) ∧
    h' !! c = Some (Heap.StackX testX) ∧ h' !! d = Some (Heap.StackY testY) ∧
    h' !! data = Some (Heap.DataFrame m).
Proof.
  intros Hs Hp Hdata. unfold preprocess, Heap.preprocess.
  pose proof (train_test_split_refines h data m train_rate Hdata) as Hsplit.
  destruct (train_test_split m train_rate) as [[train_data test_data]|e];
    cbn [mbind result_bind]; [|done].
  destruct Hsplit as (l1 & l2 & h1 & E1 & Hl1 & Hl2).
  pose proof (scale_data_refines h1 l1 l2 _ _ Hl1 Hl2) as Hscale.
  destruct (scale_data train_data test_data) as [[train_scaled test_scaled]|e];
    cbn [mbind result_bind]; [|done].
  destruct Hscale as (s1 & s2 & h2 & E2 & _ & Hs1 & Hs2).
  intros Hprep.
  destruct (sequence_data_preparation_refines seq_len pre_len h2 s1 s2 _ _
              Hs Hp Hs1 Hs2)
    as (a & b & c & d & h3 & X & Y & X' & Y' & E3 & Hpure & Ha & Hb & Hc & Hd).
  rewrite Hprep in Hpure. injection Hpure as <- <- <- <-.
  exists a, b, c, d, h3.
  assert (Hrun : Heap.preprocess data train_rate seq_len pre_len h
                 = (Ok (Heap.Own a, Heap.Own b, Heap.Own c, Heap.Own d), h3)).
  { unfold Heap.preprocess. rewrite heap_bind_unfold, E1.
    rewrite heap_bind_unfold, E2. exact E3. }
  split; [exact Hrun|]. repeat (split; [done|]).
  destruct (keeps_run (Heap.preprocess data train_rate seq_len pre_len)
              (λ D r, Heap.fresh_array D r.1.1.1 ∧ Heap.fresh_array D r.1.1.2 ∧
                      Heap.fresh_array D r.1.2 ∧ Heap.fresh_array D r.2) h)
    as [Hsub _]; [intros D; apply keeps_preprocess|].
  rewrite Hrun in Hsub. by eapply lookup_weaken.
Qed.

(** C9. In the store model each of the three functions, run on any store and
    any arguments, leaves every object of that store as it was, whether
    it returns or raises; every array it returns owns a buffer that was not
    in the store before the call. The same holds for the three calls in
    sequence, so the frame of observations is unchanged by preprocessing;
    and when the three functions succeed on the observations, with positive
    window parameters, the calls do return, with the arrays of the functions
    in four objects that are new to the store. *)
Theorem preprocessing_keeps_its_inputs :
  (∀ h data train_portion,
     h ⊆ (Heap.train_test_split data train_portion h).2 ∧
     ∀ r, (Heap.train_test_split data train_portion h).1 = Ok r →
       Heap.fresh_array (dom h) r.1 ∧ Heap.fresh_array (dom h) r.2) ∧
  (∀ h train_data test_data,
     h ⊆ (Heap.scale_data train_data test_data h).2 ∧
     ∀ r, (Heap.scale_data train_data test_data h).1 = Ok r →
       Heap.fresh_array (dom h) r.1 ∧ Heap.fresh_array (dom h) r.2) ∧
  (∀ h seq_len pre_len train_data test_data,
     h ⊆ (Heap.sequence_data_preparation seq_len pre_len train_data test_data h).2 ∧
     ∀ r, (Heap.sequence_data_preparation seq_len pre_len train_data test_data h).1
            = Ok r →
       Heap.fresh_array (dom h) r.1.1.1 ∧ Heap.fresh_array (dom h) r.1.1.2 ∧
       Heap.fresh_array (dom h) r.1.2 ∧ Heap.fresh_array (dom h) r.2) ∧
  (∀ h speed_data observations train_rate seq_len pre_len,
     h !! speed_data = Some (Heap.DataFrame observations) →
     (Heap.preprocess speed_data train_rate seq_len pre_len h).2 !! speed_data
       = Some (Heap.DataFrame observations)) ∧
  (∀ h speed_data observations train_rate seq_len pre_len
     trainX trainY testX testY,
     (1 ≤ seq_len)%Z → (1 ≤ pre_len)%Z →
     h !! speed_data = Some (Heap.DataFrame observations) →
     preprocess observations train_rate seq_len pre_len
       = Ok (trainX, trainY, testX, testY) →
     ∃ a b c d h',
       Heap.preprocess speed_data train_rate seq_len pre_len h
         = (Ok (Heap.Own a, Heap.Own b, Heap.Own c, Heap.Own d), h') ∧
       h ⊆ h' ∧ (a ∉ dom h) ∧ (b ∉ dom h) ∧ (c ∉ dom h) ∧ (d ∉ dom h) ∧
       h' !! a = Some (Heap.StackX trainX) ∧ h' !! b = Some (Heap.StackY trainY) ∧
       h' !! c = Some (Heap.StackX testX) ∧ h' !! d = Some (Heap.StackY testY)).
Proof.
  split; [|split; [|split; [|split]]].
  - intros h data train_portion.
    apply (keeps_run _ (λ D r, Heap.fresh_array D r.1 ∧ Heap.fresh_array D r.2)).
    intros D. apply keeps_train_test_split.
  - intros h train_data test_data.
    apply (keeps_run _ (λ D r, Heap.fresh_array D r.1 ∧ Heap.fresh_array D r.2)).
    intros D. apply keeps_scale_data.
  - intros h seq_len pre_len train_data test_data.
    apply (keeps_run _
      (λ D r, Heap.fresh_array D r.1.1.1 ∧ Heap.fresh_array D r.1.1.2 ∧
              Heap.fresh_array D r.1.2 ∧ Heap.fresh_array D r.2)).
    intros D. apply keeps_sequence_data_preparation.
  - intros h speed_data observations train_rate seq_len pre_len Hdata.
    destruct (keeps_run (Heap.preprocess speed_data train_rate seq_len pre_len)
                (λ D r, Heap.fresh_array D r.1.1.1 ∧ Heap.fresh_array D r.1.1.2 ∧
                        Heap.fresh_array D r.1.2 ∧ Heap.fresh_array D r.2) h)
      as [Hsub _]; [intros D; apply keeps_preprocess|].
    by eapply lookup_weaken.
  - intros h data m train_rate seq_len pre_len X Y X' Y' Hs Hp Hdata Hpure.
    destruct (preprocess_refines h data m train_rate seq_len pre_len
                X Y X' Y' Hs Hp Hdata Hpure)
      as (a & b & c & d & h' & Hrun & Ha & Hb & Hc & Hd & _).
    destruct (keeps_run (Heap.preprocess data train_rate seq_len pre_len)
                (λ D r, Heap.fresh_array D r.1.1.1 ∧ Heap.fresh_array D r.1.1.2 ∧
                        Heap.fresh_array D r.1.2 ∧ Heap.fresh_array D r.2) h)
      as [Hsub Hfresh]; [intros D; apply keeps_preprocess|].
    rewrite Hrun in Hsub, Hfresh. cbn in Hsub.
    destruct (Hfresh _ eq_refl)
      as ((a' & [= <-] & Ha') & (b' & [= <-] & Hb') &
          (c' & [= <-] & Hc') & (d' & [= <-] & Hd')).
    exists a, b, c, d, h'. by repeat split.
Qed.

(** C9 on the ramp of fifteen timesteps, split at 0.6 and windowed with
    [seq_len = 3] and [pre_len = 2]: five training and two test examples,
    in four new objects of a store that held the frame alone. *)
Lemma preprocessing_keeps_its_inputs_ramp :
  ∃ trainX trainY testX testY a b c d h',
    preprocess ramp (reading 6 10) 3 2 = Ok (trainX, trainY, testX, testY) ∧
    length trainX = 5%nat ∧ length testX = 2%nat ∧
    Heap.preprocess 0%nat (reading 6 10) 3 2 {[ 0%nat := Heap.DataFrame ramp ]}
      = (Ok (Heap.Own a, Heap.Own b, Heap.Own c, Heap.Own d), h') ∧
    h' !! 0%nat = Some (Heap.DataFrame ramp) ∧
    a ≠ 0%nat ∧ b ≠ 0%nat ∧ c ≠ 0%nat ∧ d ≠ 0%nat ∧
    h' !! a = Some (Heap.StackX trainX) ∧ h' !! b = Some (Heap.StackY trainY) ∧
    h' !! c = Some (Heap.StackX testX) ∧ h' !! d = Some (Heap.StackY testY).
Proof.
  assert (E : ∃ X Y X' Y',
             preprocess ramp (reading 6 10) 3 2 = Ok (X, Y, X', Y') ∧
             length X = 5%nat ∧ length X' = 2%nat).
  { eexists _, _, _, _. split; [vm_compute; reflexivity|]. split; reflexivity. }
  destruct E as (X & Y & X' & Y' & E & L1 & L2).
  destruct preprocessing_keeps_its_inputs as (_ & _ & _ & _ & H).
  destruct (H {[ 0%nat := Heap.DataFrame ramp ]} 0%nat ramp (reading 6 10)
              3%Z 2%Z X Y X' Y')
    as (a & b & c & d & h' & Hrun & Hsub & Ha & Hb & Hc & Hd & Hh);
    [lia|lia|apply lookup_singleton_eq|exact E|].
  exists X, Y, X', Y', a, b, c, d, h'.
  split; [exact E|]. split; [exact L1|]. split; [exact L2|].
  split; [exact Hrun|].
  split; [eapply lookup_weaken; [apply lookup_singleton_eq|exact Hsub]|].
  rewrite dom_singleton_L, not_elem_of_singleton in Ha, Hb, Hc, Hd.
  split; [exact Ha|]. split; [exact Hb|]. split; [exact Hc|].
  split; [exact Hd|]. exact Hh.
Defined.

(** * Further properties of the notebook's functions *)

(** ** [train_test_split] *)

Lemma slice_stop_le hi n : (slice_stop hi n ≤ n)%nat.
Proof.
  destruct hi as [k|]; cbn; [|done].
  unfold adjust_index. destruct (Z.ltb_spec k 0); lia.
Qed.

Lemma split_at_partitions data k :
  wf_matrix data →
  wf_matrix (slice_cols None (Some k) data) ∧
  wf_matrix (slice_cols (Some k) None data) ∧
  nrows (slice_cols None (Some k) data) = nrows data ∧
  nrows (slice_cols (Some k) None data) = nrows data ∧
  (ncols (slice_cols None (Some k) data) + ncols (slice_cols (Some k) None data)
   = ncols data)%nat ∧
  ∀ r row, mrows data !! r = Some row →
    ∃ a b, mrows (slice_cols None (Some k) data) !! r = Some a ∧
           mrows (slice_cols (Some k) None data) !! r = Some b ∧
           a ++ b = row.
Proof.
  intros Hwf.
  unfold slice_cols. unfold nrows. cbn [slice_start slice_stop from_option ncols mrows].
  set (c := adjust_index k (ncols data)).
  assert (Hc : (c ≤ ncols data)%nat) by apply (slice_stop_le (Some k)).
  rewrite Nat.sub_0_r.
  split; [|split; [|split; [|split; [|split]]]].
  - apply Forall_fmap. eapply Forall_impl; [exact Hwf|]. intros row Hrow.
    cbn in *. rewrite length_take, length_drop. lia.
  - apply Forall_fmap. eapply Forall_impl; [exact Hwf|]. intros row Hrow.
    cbn in *. rewrite length_take, length_drop. lia.
  - by rewrite length_fmap.
  - by rewrite length_fmap.
  - lia.
  - intros r row Hrow. rewrite !list_lookup_fmap, Hrow. cbn.
    eexists _, _. split; [done|]. split; [done|].
    rewrite drop_0, take_take_drop.
    apply take_ge. rewrite (Forall_lookup_1 _ _ _ _ Hwf Hrow). lia.
Qed.

Lemma py_int_raises x e :
  py_int x = Raise e → e = ValueError ∨ e = OverflowError.
Proof. destruct x; cbn; intros [= <-]; tauto. Qed.

Lemma float_of_int_raises z e :
  Binary64.float_of_int z = Raise e → e = OverflowError.
Proof.
  unfold Binary64.float_of_int. destruct (Binary64.round _); by intros [= <-].
Qed.

(** The outcomes of the split: an error of one of the two conversions, or
    the two slices at the integer that [int()] returned. *)
Lemma binary64_train_test_split_cases data train_portion :
  (∃ e, Binary64.train_test_split data train_portion = Raise e ∧
        (e = ValueError ∨ e = OverflowError)) ∨
  (∃ train_size,
     Binary64.train_test_split data train_portion
       = Ok (slice_cols None (Some train_size) data,
             slice_cols (Some train_size) None data)).
Proof.
  unfold Binary64.train_test_split.
  destruct (Binary64.float_of_int _) as [t|e] eqn:Ht; cbn [mbind result_bind].
  - destruct (py_int _) as [k|e] eqn:Hk; cbn [mbind result_bind].
    + right. by exists k.
    + left. exists e. split; [done|]. by eapply py_int_raises.
  - left. exists e. split; [done|]. right. by eapply float_of_int_raises.
Qed.

(** X1. On a well-formed frame [train_test_split], with its product rounded
    to binary64, either fails in a conversion, with [ValueError] or
    [OverflowError], or returns two well-formed arrays with the rows of the
    frame cut at one common column: no column is lost, repeated or
    reordered, whatever the portion. *)
Theorem train_test_split_partitions_columns data train_portion :
  wf_matrix data →
  match Binary64.train_test_split data train_portion with
  | Ok (train_data, test_data) =>
      wf_matrix train_data ∧ wf_matrix test_data ∧
      nrows train_data = nrows data ∧ nrows test_data = nrows data ∧
      (ncols train_data + ncols test_data = ncols data)%nat ∧
      ∀ r row, mrows data !! r = Some row →
        ∃ a b, mrows train_data !! r = Some a ∧
               mrows test_data !! r = Some b ∧ a ++ b = row
  | Raise e => e = ValueError ∨ e = OverflowError
  end.
Proof.
  intros Hwf.
  destruct (binary64_train_test_split_cases data train_portion)
    as [(e & -> & He)|(k & ->)]; [done|].
  by apply split_at_partitions.
Qed.

(** X1 on the ramp, split at the double 0.6: nine and six columns. *)
Lemma train_test_split_partitions_columns_ramp :
  Binary64.train_test_split ramp (Binary64.double 6 10)
    = Ok (ramp_train, ramp_test) ∧
  wf_matrix ramp_train ∧ wf_matrix ramp_test ∧
  nrows ramp_train = nrows ramp ∧ nrows ramp_test = nrows ramp ∧
  (ncols ramp_train + ncols ramp_test = ncols ramp)%nat ∧
  ∀ r row, mrows ramp !! r = Some row →
    ∃ a b, mrows ramp_train !! r = Some a ∧
           mrows ramp_test !! r = Some b ∧ a ++ b = row.
Proof.
  pose proof (train_test_split_partitions_columns ramp (Binary64.double 6 10)
                ltac:(compute_done)) as H.
  assert (E : Binary64.train_test_split ramp (Binary64.double 6 10)
              = Ok (ramp_train, ramp_test)) by compute_done.
  rewrite E in H. split; [exact E|exact H].
Defined.

Lemma py_int_floor (x : Qc) :
  (0 ≤ x)%Qc → py_int (Fin x) = Ok (Qfloor x).
Proof.
  intros Hx. cbn. f_equal. destruct x as [[n d] Hc]. cbn in *.
  apply Z.quot_div_nonneg; [|done].
  unfold Qcle, Qle in Hx. cbn in Hx.
  change (Qred 0) with 0%Q in Hx. cbn in Hx. lia.
Qed.

(** X2. For a [train_portion] between 0 and 1 and a frame of fewer than
    [2^53] timesteps the split returns: [int()] of the rounded product
    [T * train_portion] is some [k] with [0 <= k <= T], the training
    partition is the first [k] columns of the frame and the test partition
    is the remaining ones, in order. *)
Theorem train_test_split_sizes data q :
  (0 ≤ q)%Qc → (q ≤ 1)%Qc → (Z.of_nat (ncols data) < 2 ^ 53)%Z →
  ∃ k train_data test_data,
    py_int (Binary64.nmul (of_int (Z.of_nat (ncols data))) (Fin q)) = Ok k ∧
    (0 ≤ k ≤ Z.of_nat (ncols data))%Z ∧
    Binary64.train_test_split data (Fin q) = Ok (train_data, test_data) ∧
    ncols train_data = Z.to_nat k ∧
    ncols test_data = (ncols data - Z.to_nat k)%nat ∧
    (∀ r c, (c < Z.to_nat k)%nat → entry train_data r c = entry data r c) ∧
    (∀ r c, (Z.to_nat k + c < ncols data)%nat →
       entry test_data r c = entry data r (Z.to_nat k + c)).
Proof.
  intros Hq0 Hq1 HT. set (T := Z.of_nat (ncols data)) in *.
  assert (HT0 : (0 ≤ Qc_of_Z T)%Qc)
    by (apply (proj1 (Qc_of_Z_le 0 T)); subst T; lia).
  assert (Hx0 : (0 ≤ Qc_of_Z T * q)%Qc) by (by apply Qcmult_nonneg_nonneg).
  assert (HxT : (Qc_of_Z T * q ≤ Qc_of_Z T)%Qc).
  { apply Qcle_trans with (Qc_of_Z T * 1)%Qc.
    - by apply Qcmult_le_mono_nonneg_l.
    - rewrite Qcmult_1_r. apply Qcle_refl. }
  assert (Hround : Binary64.round (of_int T) = of_int T)
    by (apply binary64_round_small_int; subst T; lia).
  destruct (binary64_round_mono _ _ _ Hx0 HxT Hround) as (p & Hp & Hp0 & HpT).
  assert (Hmul : Binary64.nmul (of_int T) (Fin q) = Fin p) by exact Hp.
  assert (Hk : (0 ≤ Qfloor p ≤ T)%Z).
  { split.
    - change 0%Z with (Qfloor (inject_Z 0)). apply Qfloor_resp_le. exact Hp0.
    - apply Z.le_trans with (Qfloor (inject_Z T)).
      + apply Qfloor_resp_le. exact HpT.
      + by rewrite Qfloor_Z. }
  exists (Qfloor p). rewrite Hmul, py_int_floor by done.
  unfold Binary64.train_test_split, Binary64.float_of_int. fold T.
  rewrite Hround. unfold of_int at 1. cbn [mbind result_bind].
  fold (of_int T). rewrite Hmul, py_int_floor by done. cbn [mbind result_bind].
  eexists _, _. split; [done|]. split; [done|]. split; [reflexivity|].
  unfold slice_cols, entry.
  cbn [slice_start slice_stop from_option ncols mrows].
  rewrite (adjust_index_nonneg (Qfloor p)) by (subst T; lia).
  rewrite Nat.sub_0_r. split; [done|]. split; [done|]. split.
  - intros r c Hc. rewrite list_lookup_fmap.
    destruct (mrows data !! r) as [row|]; cbn; [|done].
    by rewrite lookup_take_lt, drop_0.
  - intros r c Hc. rewrite list_lookup_fmap.
    destruct (mrows data !! r) as [row|]; cbn; [|done].
    rewrite lookup_take_lt by lia. by rewrite lookup_drop.
Qed.

(** X2 on the ramp at the double 0.6, which is
    5404319552844595 / 2^53. *)
Lemma train_test_split_sizes_ramp :
  (∃ k train_data test_data,
     py_int (Binary64.nmul (of_int (Z.of_nat (ncols ramp)))
               (Fin (Q2Qc (5404319552844595 # 9007199254740992)))) = Ok k ∧
     (0 ≤ k ≤ Z.of_nat (ncols ramp))%Z ∧
     Binary64.train_test_split ramp
       (Fin (Q2Qc (5404319552844595 # 9007199254740992)))
       = Ok (train_data, test_data) ∧
     ncols train_data = Z.to_nat k ∧
     ncols test_data = (ncols ramp - Z.to_nat k)%nat ∧
     (∀ r c, (c < Z.to_nat k)%nat → entry train_data r c = entry ramp r c) ∧
     (∀ r c, (Z.to_nat k + c < ncols ramp)%nat →
        entry test_data r c = entry ramp r (Z.to_nat k + c))) ∧
  Binary64.double 6 10 = Fin (Q2Qc (5404319552844595 # 9007199254740992)) ∧
  py_int (Binary64.nmul (of_int (Z.of_nat (ncols ramp))) (Binary64.double 6 10))
    = Ok 9%Z.
Proof.
  split; [|split; compute_done].
  apply (train_test_split_sizes ramp
           (Q2Qc (5404319552844595 # 9007199254740992))
           ltac:(compute_done) ltac:(compute_done)).
  cbn. lia.
Defined.

(** ** [scale_data] *)

Lemma cells_nil_shape m :
  wf_matrix m → cells m = [] ↔ nrows m = 0%nat ∨ ncols m = 0%nat.
Proof.
  unfold wf_matrix, cells, nrows. destruct m as [n rows]. cbn.
  induction rows as [|row rows IH]; intros Hwf.
  - cbn. split; [by left|done].
  - apply Forall_cons in Hwf as [Hrow Hwf]. cbn. split.
    + intros H. apply app_eq_nil in H as [-> H]. right. symmetry. exact Hrow.
    + intros [H|H]; [done|]. rewrite H in Hrow.
      apply length_zero_iff_nil in Hrow as ->.
      cbn. apply IH; [done|]. by right.
Qed.

Lemma amax_Ok_iff m : (∃ v, amax m = Ok v) ↔ cells m ≠ [].
Proof.
  unfold amax, cells. destruct (concat (mrows m)); split; try done.
  - by intros [v Hv].
  - intros _. by eexists.
Qed.

Lemma amin_Ok_iff m : (∃ v, amin m = Ok v) ↔ cells m ≠ [].
Proof.
  unfold amin, cells. destruct (concat (mrows m)); split; try done.
  - by intros [v Hv].
  - intros _. by eexists.
Qed.

(** X3. [scale_data] fails exactly when the training partition has no cell,
    that is no row or no column, and then with [ValueError] from [max()];
    the test partition plays no part in this, it may be empty. *)
Theorem scale_data_raises_iff_training_empty train_data test_data :
  wf_matrix train_data →
  (nrows train_data = 0%nat ∨ ncols train_data = 0%nat →
     scale_data train_data test_data = Raise ValueError) ∧
  ((0 < nrows train_data)%nat → (0 < ncols train_data)%nat →
     ∃ train_scaled test_scaled,
       scale_data train_data test_data = Ok (train_scaled, test_scaled)).
Proof.
  intros Hwf. pose proof (cells_nil_shape _ Hwf) as Hshape. split.
  - intros H. apply Hshape in H. unfold scale_data, amax.
    unfold cells in H. by rewrite H.
  - intros Hr Hc.
    assert (Hne : cells train_data ≠ []).
    { intros H. apply Hshape in H. lia. }
    destruct (proj2 (amax_Ok_iff _) Hne) as [mx Hmx].
    destruct (proj2 (amin_Ok_iff _) Hne) as [mn Hmn].
    eexists _, _. by apply scale_data_Ok.
Qed.

(** X3 on the ramp, and on a training partition without columns. *)
Lemma scale_data_raises_iff_training_empty_ramp :
  ((nrows (Matrix 0 [[]; []]) = 0%nat ∨ ncols (Matrix 0 [[]; []]) = 0%nat →
     scale_data (Matrix 0 [[]; []]) ramp_test = Raise ValueError) ∧
   ((0 < nrows (Matrix 0 [[]; []]))%nat → (0 < ncols (Matrix 0 [[]; []]))%nat →
     ∃ train_scaled test_scaled,
       scale_data (Matrix 0 [[]; []]) ramp_test = Ok (train_scaled, test_scaled))) ∧
  ((nrows ramp_train = 0%nat ∨ ncols ramp_train = 0%nat →
     scale_data ramp_train (Matrix 0 []) = Raise ValueError) ∧
   ((0 < nrows ramp_train)%nat → (0 < ncols ramp_train)%nat →
     ∃ train_scaled test_scaled,
       scale_data ramp_train (Matrix 0 []) = Ok (train_scaled, test_scaled))).
Proof.
  split.
  - apply (scale_data_raises_iff_training_empty (Matrix 0 [[]; []]) ramp_test).
    compute_done.
  - apply (scale_data_raises_iff_training_empty ramp_train (Matrix 0 [])).
    compute_done.
Defined.

(** X4. A successful [scale_data] keeps the shape of both partitions: the
    scaled arrays have the rows and columns of their inputs and are
    well-formed when the inputs are. *)
Theorem scale_data_keeps_shape train_data test_data train_scaled test_scaled :
  scale_data train_data test_data = Ok (train_scaled, test_scaled) →
  ncols train_scaled = ncols train_data ∧ nrows train_scaled = nrows train_data ∧
  ncols test_scaled = ncols test_data ∧ nrows test_scaled = nrows test_data ∧
  (wf_matrix train_data → wf_matrix train_scaled) ∧
  (wf_matrix test_data → wf_matrix test_scaled) ∧
  (∀ r c, is_Some (entry train_scaled r c) ↔ is_Some (entry train_data r c)) ∧
  (∀ r c, is_Some (entry test_scaled r c) ↔ is_Some (entry test_data r c)).
Proof.
  unfold scale_data.
  destruct (amax train_data) as [mx|]; cbn [mbind result_bind]; [|done].
  destruct (amin train_data) as [mn|]; cbn [mbind result_bind]; [|done].
  intros [= <- <-]. unfold nrows. cbn [ncols mrows mdiv_scalar msub_scalar].
  rewrite !length_fmap.
  repeat split; try done; try apply wf_scaled.
  all: try (intros H; apply wf_scaled; exact H).
  all: rewrite entry_scaled, fmap_is_Some; done.
Qed.

(** X4 on the ramp. *)
Lemma scale_data_keeps_shape_ramp :
  ∃ train_scaled test_scaled,
    scale_data ramp_train ramp_test = Ok (train_scaled, test_scaled) ∧
    ncols train_scaled = ncols ramp_train ∧ nrows train_scaled = nrows ramp_train ∧
    ncols test_scaled = ncols ramp_test ∧ nrows test_scaled = nrows ramp_test.
Proof.
  destruct (scale_data ramp_train ramp_test) as [[a b]|e] eqn:E;
    [|by vm_compute in E].
  exists a, b. split; [done|].
  destruct (scale_data_keeps_shape ramp_train ramp_test a b E)
    as (H1 & H2 & H3 & H4 & _).
  by repeat split.
Defined.

Lemma nmax_cases x y : nmax x y = NaN ∨ nmax x y = x ∨ nmax x y = y.
Proof.
  destruct x as [a| | |], y as [b| | |]; cbn; auto.
  case_decide; auto.
Qed.

Lemma nmin_cases x y : nmin x y = NaN ∨ nmin x y = x ∨ nmin x y = y.
Proof.
  destruct x as [a| | |], y as [b| | |]; cbn; auto.
  case_decide; auto.
Qed.

Lemma foldl_nmax_attained l : ∀ x,
  foldl nmax x l = NaN ∨ foldl nmax x l ∈ x :: l.
Proof.
  induction l as [|y l IH]; intros x; cbn.
  - right. apply list_elem_of_singleton. done.
  - destruct (IH (nmax x y)) as [H|H]; [by left|].
    apply elem_of_cons in H as [H|H].
    + rewrite H. destruct (nmax_cases x y) as [E|[E|E]]; rewrite E.
      * by left.
      * right. apply elem_of_cons. by left.
      * right. apply elem_of_cons. right. apply elem_of_cons. by left.
    + right. apply elem_of_cons. right. apply elem_of_cons. by right.
Qed.

Lemma foldl_nmin_attained l : ∀ x,
  foldl nmin x l = NaN ∨ foldl nmin x l ∈ x :: l.
Proof.
  induction l as [|y l IH]; intros x; cbn.
  - right. apply list_elem_of_singleton. done.
  - destruct (IH (nmin x y)) as [H|H]; [by left|].
    apply elem_of_cons in H as [H|H].
    + rewrite H. destruct (nmin_cases x y) as [E|[E|E]]; rewrite E.
      * by left.
      * right. apply elem_of_cons. by left.
      * right. apply elem_of_cons. right. apply elem_of_cons. by left.
    + right. apply elem_of_cons. right. apply elem_of_cons. by right.
Qed.

(** A finite maximum, respectively minimum, is one of the cells. *)
Lemma amax_attained m M : amax m = Ok (Fin M) → Fin M ∈ cells m.
Proof.
  unfold amax, cells. destruct (concat (mrows m)) as [|x l]; [done|].
  intros [= H]. destruct (foldl_nmax_attained l x) as [E|E]; [congruence|].
  by rewrite H in E.
Qed.

Lemma amin_attained m M : amin m = Ok (Fin M) → Fin M ∈ cells m.
Proof.
  unfold amin, cells. destruct (concat (mrows m)) as [|x l]; [done|].
  intros [= H]. destruct (foldl_nmin_attained l x) as [E|E]; [congruence|].
  by rewrite H in E.
Qed.

Lemma nmax_finite x y : finite x → finite y → finite (nmax x y).
Proof. destruct x, y; cbn; tauto. Qed.

Lemma nmin_finite x y : finite x → finite y → finite (nmin x y).
Proof. destruct x, y; cbn; tauto. Qed.

Lemma foldl_nmax_finite l : ∀ x,
  finite x → Forall finite l → finite (foldl nmax x l).
Proof.
  induction l as [|y l IH]; intros x Hx Hl; cbn; [done|].
  apply Forall_cons in Hl as [Hy Hl]. apply IH; [|done]. by apply nmax_finite.
Qed.

Lemma foldl_nmin_finite l : ∀ x,
  finite x → Forall finite l → finite (foldl nmin x l).
Proof.
  induction l as [|y l IH]; intros x Hx Hl; cbn; [done|].
  apply Forall_cons in Hl as [Hy Hl]. apply IH; [|done]. by apply nmin_finite.
Qed.

(** A cell that bounds all cells of an array of finite cells is its
    maximum, respectively its minimum. *)
Lemma amax_unique m M :
  Forall finite (cells m) → Fin M ∈ cells m → Forall (at_most M) (cells m) →
  amax m = Ok (Fin M).
Proof.
  intros Hfin Hin Hub.
  destruct (amax m) as [w|e] eqn:Hw.
  - assert (Hwfin : finite w).
    { revert Hw Hfin. unfold amax, cells.
      destruct (concat (mrows m)) as [|x l]; [done|].
      intros [= <-] Hfin. apply Forall_cons in Hfin as [Hx Hl].
      by apply foldl_nmax_finite. }
    destruct w as [M'| | |]; try done.
    pose proof (amax_attained _ _ Hw) as Hin'.
    pose proof (amax_upper_bound _ _ _ Hw Hin) as H1.
    pose proof (proj1 (Forall_forall _ _) Hub _ Hin') as H2.
    cbn in H1, H2. do 2 f_equal. by apply Qcle_antisym.
  - exfalso. revert Hw Hin. unfold amax, cells.
    destruct (concat (mrows m)); [|done]. intros _ H.
    by apply elem_of_nil in H.
Qed.

Lemma amin_unique m M :
  Forall finite (cells m) → Fin M ∈ cells m → Forall (at_least M) (cells m) →
  amin m = Ok (Fin M).
Proof.
  intros Hfin Hin Hlb.
  destruct (amin m) as [w|e] eqn:Hw.
  - assert (Hwfin : finite w).
    { revert Hw Hfin. unfold amin, cells.
      destruct (concat (mrows m)) as [|x l]; [done|].
      intros [= <-] Hfin. apply Forall_cons in Hfin as [Hx Hl].
      by apply foldl_nmin_finite. }
    destruct w as [M'| | |]; try done.
    pose proof (amin_attained _ _ Hw) as Hin'.
    pose proof (amin_lower_bound _ _ _ Hw Hin) as H1.
    pose proof (proj1 (Forall_forall _ _) Hlb _ Hin') as H2.
    cbn in H1, H2. do 2 f_equal. by apply Qcle_antisym.
  - exfalso. revert Hw Hin. unfold amin, cells.
    destruct (concat (mrows m)); [|done]. intros _ H.
    by apply elem_of_nil in H.
Qed.

Lemma binary64_cells_scaled m a d :
  cells (Binary64.mdiv_scalar (Binary64.msub_scalar m a) d)
  = (λ x, Binary64.ndiv (Binary64.nsub x a) d) <$> cells m.
Proof.
  unfold cells, Binary64.mdiv_scalar, Binary64.msub_scalar. cbn [mrows].
  induction (mrows m) as [|row rows IH]; [done|].
  cbn. rewrite fmap_app, <- IH. f_equal. by rewrite <- list_fmap_compose.
Qed.

Lemma binary64_round_zero : Binary64.round (Fin 0%Qc) = Fin 0%Qc.
Proof. reflexivity. Qed.

(** The scaled cells of a training partition whose [max - min] is a finite
    number other than zero. *)
Lemma binary64_scaled_training_unit train_data mn mx d :
  amin train_data = Ok (Fin mn) → amax train_data = Ok (Fin mx) →
  Binary64.nsub (Fin mx) (Fin mn) = Fin d → d ≠ 0%Qc →
  Forall in_unit_interval
    (cells (Binary64.mdiv_scalar (Binary64.msub_scalar train_data (Fin mn))
              (Binary64.nsub (Fin mx) (Fin mn)))).
Proof.
  intros Hmin Hmax Hd Hd0.
  rewrite binary64_cells_scaled. apply Forall_fmap, Forall_forall.
  intros x Hx. cbn.
  destruct (cell_between _ _ _ _ Hmin Hmax Hx) as (q & -> & Hlo & Hhi).
  by apply (binary64_transform_unit mn mx q d).
Qed.

(** X5. When [max - min] of the training partition is computed as a finite
    number other than zero, the scaled training partition has minimum
    exactly 0 and maximum exactly 1: the bounds of the unit interval are
    reached, at the cells that held the extremes. *)
Theorem scale_data_training_extremes train_data test_data mn mx d
    train_scaled test_scaled :
  amin train_data = Ok (Fin mn) → amax train_data = Ok (Fin mx) →
  Binary64.nsub (Fin mx) (Fin mn) = Fin d → d ≠ 0%Qc →
  Binary64.scale_data train_data test_data = Ok (train_scaled, test_scaled) →
  amin train_scaled = Ok (Fin 0%Qc) ∧ amax train_scaled = Ok (Fin 1%Qc) ∧
  (∀ r c, entry train_data r c = Some (Fin mn) →
          entry train_scaled r c = Some (Fin 0%Qc)) ∧
  (∀ r c, entry train_data r c = Some (Fin mx) →
          entry train_scaled r c = Some (Fin 1%Qc)).
Proof.
  intros Hmin Hmax Hd Hd0. rewrite (binary64_scale_data_Ok _ _ _ _ Hmin Hmax).
  intros [= <- <-].
  assert (H0 : Binary64.ndiv (Binary64.nsub (Fin mn) (Fin mn))
                 (Binary64.nsub (Fin mx) (Fin mn)) = Fin 0%Qc).
  { rewrite Hd. unfold Binary64.nsub, Binary64.ndiv. cbn [nsub].
    unfold Qcminus. rewrite Qcplus_opp_r, binary64_round_zero.
    cbn [ndiv]. rewrite decide_False by done.
    replace (0 / d)%Qc with 0%Qc by (field; done).
    apply binary64_round_zero. }
  assert (H1 : Binary64.ndiv (Binary64.nsub (Fin mx) (Fin mn))
                 (Binary64.nsub (Fin mx) (Fin mn)) = Fin 1%Qc).
  { rewrite Hd. unfold Binary64.ndiv. cbn [ndiv]. rewrite decide_False by done.
    replace (d / d)%Qc with 1%Qc by (field; done).
    apply binary64_round_one. }
  pose proof (binary64_scaled_training_unit _ _ _ _ Hmin Hmax Hd Hd0) as Hunit.
  split; [|split; [|split]].
  - apply amin_unique.
    + eapply Forall_impl; [exact Hunit|]. by intros [].
    + rewrite binary64_cells_scaled. apply list_elem_of_fmap.
      exists (Fin mn). split; [symmetry; exact H0|by apply amin_attained].
    + eapply Forall_impl; [exact Hunit|]. intros [q| | |]; cbn; tauto.
  - apply amax_unique.
    + eapply Forall_impl; [exact Hunit|]. by intros [].
    + rewrite binary64_cells_scaled. apply list_elem_of_fmap.
      exists (Fin mx). split; [symmetry; exact H1|by apply amax_attained].
    + eapply Forall_impl; [exact Hunit|]. intros [q| | |]; cbn; tauto.
  - intros r c Hrc. rewrite binary64_entry_scaled, Hrc.
    cbn [fmap option_fmap option_map]. f_equal. exact H0.
  - intros r c Hrc. rewrite binary64_entry_scaled, Hrc.
    cbn [fmap option_fmap option_map]. f_equal. exact H1.
Qed.

(** X5 on one sensor with readings 1, 3, 5. *)
Lemma scale_data_training_extremes_odd :
  amin odd_train_scaled = Ok (Fin 0%Qc) ∧ amax odd_train_scaled = Ok (Fin 1%Qc) ∧
  (∀ r c, entry odd_train r c = Some (Fin (Qc_of_Z 1)) →
          entry odd_train_scaled r c = Some (Fin 0%Qc)) ∧
  (∀ r c, entry odd_train r c = Some (Fin (Qc_of_Z 5)) →
          entry odd_train_scaled r c = Some (Fin 1%Qc)).
Proof.
  apply (scale_data_training_extremes odd_train even_test (Qc_of_Z 1) (Qc_of_Z 5)
           (Qc_of_Z 4) odd_train_scaled even_test_scaled); compute_done.
Defined.

Lemma binary64_round_nonneg_cases (q : Qc) :
  (0 ≤ q)%Qc →
  Binary64.round (Fin q) = PInf ∨ ∃ r, Binary64.round (Fin q) = Fin r.
Proof.
  intros Hq. unfold Binary64.round.
  destruct (Qc_sign_cases q) as [[E _]|[[E Hq0]|[E Hq0]]]; rewrite E.
  - right. by eexists.
  - destruct (round_pos_cases q Hq0) as [[-> _]|(-> & _)];
      [by left|right; by eexists].
  - exfalso. by apply (Qclt_not_le _ _ Hq0).
Qed.

Lemma binary64_range_positive train_data mn mx d :
  amin train_data = Ok (Fin mn) → amax train_data = Ok (Fin mx) →
  Binary64.nsub (Fin mx) (Fin mn) = Fin d → d ≠ 0%Qc → (0 < d)%Qc.
Proof.
  intros Hmin Hmax Hd Hd0.
  pose proof (amin_lower_bound _ _ _ Hmin (amax_attained _ _ Hmax)) as Hle.
  cbn in Hle.
  destruct (binary64_round_mono 0 (mx - mn) d) as (z & Hz & _ & Hzd);
    [apply Qcle_refl|by apply Qcle_minus_iff in Hle|exact Hd|].
  rewrite binary64_round_zero in Hz. injection Hz as <-.
  destruct (Qcle_lt_or_eq _ _ Hzd) as [H|H]; [done|]. by destruct Hd0.
Qed.

(** Scaling does not reverse the order of two readings at or above the
    training minimum. *)
Lemma binary64_transform_mono (mn mx d x y y' : Qc) :
  Binary64.nsub (Fin mx) (Fin mn) = Fin d → (0 < d)%Qc →
  (mn ≤ x)%Qc → (x ≤ y)%Qc →
  Binary64.transform (Fin mn) (Fin mx) (Fin y) = Fin y' →
  ∃ x', Binary64.transform (Fin mn) (Fin mx) (Fin x) = Fin x' ∧
        (0 ≤ x')%Qc ∧ (x' ≤ y')%Qc.
Proof.
  intros Hd Hdpos Hlo Hxy. unfold Binary64.transform. rewrite Hd.
  assert (Hd0 : d ≠ 0%Qc) by (intros ->; by apply (irreflexivity Qclt 0%Qc)).
  assert (Hx0 : (0 ≤ x - mn)%Qc) by (by apply Qcle_minus_iff in Hlo).
  assert (Hsub : (x - mn ≤ y - mn)%Qc)
    by (unfold Qcminus; by apply Qcplus_le_mono_r).
  unfold Binary64.nsub. cbn [nsub].
  destruct (binary64_round_nonneg_cases (y - mn)) as [Hy|[a Hy]];
    [by apply Qcle_trans with (x - mn)%Qc| |]; rewrite Hy.
  { unfold Binary64.ndiv. cbn [ndiv].
    rewrite decide_False by (by apply Qcle_not_lt, Qclt_le_weak). done. }
  destruct (binary64_round_mono _ _ _ Hx0 Hsub Hy) as (b & -> & Hb0 & Hba).
  unfold Binary64.ndiv. cbn [ndiv]. rewrite !decide_False by done.
  intros Hy'.
  assert (Hq0 : (0 ≤ b / d)%Qc).
  { apply Qcmult_nonneg_nonneg; [done|]. by apply Qclt_le_weak, Qcinv_pos. }
  assert (Hq : (b / d ≤ a / d)%Qc).
  { unfold Qcdiv. apply Qcmult_le_mono_pos_r; [by apply Qcinv_pos|done]. }
  exact (binary64_round_mono _ _ _ Hq0 Hq Hy').
Qed.

(** X6. When [max - min] of the training partition is computed as a finite
    number other than zero, scaling never reverses the order of two finite
    readings that are not below the training minimum, within and across the
    two partitions: the scaled value of the smaller one is finite and not
    above the scaled value of the larger one. (Distinct readings can be
    scaled to the same double.) *)
Theorem scale_data_preserves_order train_data test_data mn mx d
    train_scaled test_scaled :
  amin train_data = Ok (Fin mn) → amax train_data = Ok (Fin mx) →
  Binary64.nsub (Fin mx) (Fin mn) = Fin d → d ≠ 0%Qc →
  Binary64.scale_data train_data test_data = Ok (train_scaled, test_scaled) →
  ∀ m s m' s',
    (m, s) ∈ [(train_data, train_scaled); (test_data, test_scaled)] →
    (m', s') ∈ [(train_data, train_scaled); (test_data, test_scaled)] →
    ∀ r c r' c' x y y',
      entry m r c = Some (Fin x) → entry m' r' c' = Some (Fin y) →
      (mn ≤ x)%Qc → (x ≤ y)%Qc →
      entry s' r' c' = Some (Fin y') →
      ∃ x', entry s r c = Some (Fin x') ∧ (x' ≤ y')%Qc.
Proof.
  intros Hmin Hmax Hd Hd0. rewrite (binary64_scale_data_Ok _ _ _ _ Hmin Hmax).
  pose proof (binary64_range_positive _ _ _ _ Hmin Hmax Hd Hd0) as Hdpos.
  intros [= <- <-] m s m' s' Hm Hm' r c r' c' x y y' Hx Hy Hlo Hxy.
  assert (Hs : ∀ a b,
            (a, b) ∈ [(train_data,
                        Binary64.mdiv_scalar
                          (Binary64.msub_scalar train_data (Fin mn))
                          (Binary64.nsub (Fin mx) (Fin mn)));
                      (test_data,
                        Binary64.mdiv_scalar
                          (Binary64.msub_scalar test_data (Fin mn))
                          (Binary64.nsub (Fin mx) (Fin mn)))] →
            b = Binary64.mdiv_scalar (Binary64.msub_scalar a (Fin mn))
                  (Binary64.nsub (Fin mx) (Fin mn))).
  { intros a b H. apply elem_of_cons in H as [[= -> ->]|H]; [done|].
    apply list_elem_of_singleton in H as [= -> ->]. done. }
  rewrite (Hs _ _ Hm), (Hs _ _ Hm'), !binary64_entry_scaled, Hx, Hy.
  cbn [fmap option_fmap option_map]. intros [= Hy'].
  destruct (binary64_transform_mono mn mx d x y y' Hd Hdpos Hlo Hxy Hy')
    as (x' & Hx' & _ & Hle).
  exists x'. split; [|done]. f_equal. exact Hx'.
Qed.

(** X6 on the readings 1, 3, 5 and 2, 4, 6: the test reading 2 against the
    training reading 3. *)
Lemma scale_data_preserves_order_odd_even :
  ∃ x', entry even_test_scaled 0 0 = Some (Fin x') ∧ (x' ≤ Q2Qc (1 # 2))%Qc.
Proof.
  apply (scale_data_preserves_order odd_train even_test (Qc_of_Z 1) (Qc_of_Z 5)
           (Qc_of_Z 4) odd_train_scaled even_test_scaled
           ltac:(compute_done) ltac:(compute_done) ltac:(compute_done)
           ltac:(compute_done) ltac:(compute_done)
           even_test even_test_scaled odd_train odd_train_scaled
           ltac:(compute_done) ltac:(compute_done)
           0%nat 0%nat 0%nat 1%nat (Qc_of_Z 2) (Qc_of_Z 3) (Q2Qc (1 # 2))
           ltac:(compute_done) ltac:(compute_done) ltac:(compute_done)
           ltac:(compute_done) ltac:(compute_done)).
Defined.

(** ** [sequence_data_preparation] with any integer parameters *)

Lemma for_each_appends {A B} (body : nat → list A * list B → result (list A * list B))
    (f : nat → A) (g : nat → B) idxs :
  (∀ i acc, i ∈ idxs → body i acc = Ok (acc.1 ++ [f i], acc.2 ++ [g i])) →
  ∀ acc, for_each idxs body acc = Ok (acc.1 ++ (f <$> idxs), acc.2 ++ (g <$> idxs)).
Proof.
  induction idxs as [|i idxs IH]; intros Hbody acc.
  - cbn. rewrite !app_nil_r. by destruct acc.
  - cbn [for_each]. rewrite Hbody by (apply elem_of_cons; by left).
    rewrite bind_Ok, IH.
    + cbn [fst snd]. by rewrite !fmap_cons, <- !app_assoc.
    + intros j acc' Hj. apply Hbody. apply elem_of_cons. by right.
Qed.

Lemma for_each_Ok_all {St} (body : nat → St → result St) idxs : ∀ s s' j,
  for_each idxs body s = Ok s' → j ∈ idxs → ∃ s1 s2, body j s1 = Ok s2.
Proof.
  induction idxs as [|i idxs IH]; intros s s' j Hrun Hj.
  - by apply elem_of_nil in Hj.
  - cbn in Hrun. destruct (body i s) as [s1|e] eqn:Hstep; cbn in Hrun; [|done].
    apply elem_of_cons in Hj as [->|Hj]; [by eexists _, _|]. by eapply IH.
Qed.

Lemma for_each_raises_only {St} (body : nat → St → result St) e idxs :
  (∀ i s e', body i s = Raise e' → e' = e) →
  ∀ s e', for_each idxs body s = Raise e' → e' = e.
Proof.
  intros Hbody. induction idxs as [|i idxs IH]; intros s e'; cbn; [done|].
  destruct (body i s) as [s1|e1] eqn:Hstep; cbn.
  - apply IH.
  - intros [= <-]. by eapply Hbody.
Qed.

Lemma window_step_cases seq_len pre_len data i acc :
  match window_step seq_len pre_len data i acc with
  | Ok _ => (0 < ncols (round_slice seq_len pre_len data i))%nat
  | Raise e => e = IndexError ∧ ncols (round_slice seq_len pre_len data i) = 0%nat
  end.
Proof.
  unfold window_step. fold (round_slice seq_len pre_len data i).
  unfold col. cbn [Z.ltb Z.compare].
  case_bool_decide as H; cbn [mbind result_bind]; [lia|]. split; [done|lia].
Qed.

Lemma window_step_general seq_len pre_len data i acc :
  (1 ≤ seq_len + pre_len)%Z →
  (Z.of_nat i + seq_len + pre_len ≤ Z.of_nat (ncols data))%Z →
  window_step seq_len pre_len data i acc =
    Ok (acc.1 ++ [slice_cols None (Some seq_len) (round_slice seq_len pre_len data i)],
        acc.2 ++ [target_at seq_len pre_len data i]).
Proof.
  intros Hsp Hi. unfold window_step.
  fold (round_slice seq_len pre_len data i).
  assert (Hround : round_slice seq_len pre_len data i =
            Matrix (Z.to_nat (seq_len + pre_len))
              ((λ r, take (Z.to_nat (seq_len + pre_len)) (drop i r)) <$> mrows data)).
  { unfold round_slice, slice_cols. cbn [slice_start slice_stop from_option].
    rewrite (adjust_index_inside i) by lia.
    rewrite (adjust_index_nonneg (Z.of_nat i + seq_len + pre_len)) by lia.
    by replace (Z.to_nat (Z.of_nat i + seq_len + pre_len) - i)%nat
      with (Z.to_nat (seq_len + pre_len)) by lia. }
  assert (Hcol : col (-1) (round_slice seq_len pre_len data i)
                 = Ok (target_at seq_len pre_len data i)).
  { rewrite Hround. unfold col, target_at. cbn [Z.ltb Z.compare ncols mrows].
    rewrite bool_decide_true by lia. f_equal.
    rewrite <- list_fmap_compose. apply list_fmap_ext. intros _ r _. cbn.
    rewrite lookup_take_lt by lia. rewrite lookup_drop. do 2 f_equal. lia. }
  by rewrite Hcol.
Qed.

Lemma windows_general seq_len pre_len data :
  (1 ≤ seq_len + pre_len)%Z →
  let n := Z.to_nat (Z.of_nat (ncols data) - (seq_len + pre_len - 1)) in
  windows seq_len pre_len data =
    Ok ((λ i, slice_cols None (Some seq_len) (round_slice seq_len pre_len data i))
          <$> seq 0 n,
        target_at seq_len pre_len data <$> seq 0 n).
Proof.
  intros Hsp n. unfold windows, range. fold n.
  rewrite (for_each_appends _
             (λ i, slice_cols None (Some seq_len) (round_slice seq_len pre_len data i))
             (target_at seq_len pre_len data)); [done|].
  intros i acc Hi. apply elem_of_seq in Hi.
  apply window_step_general; [done|]. subst n. lia.
Qed.

(** With [seq_len + pre_len <= 0] some round meets a slice without columns. *)
Lemma windows_nonpositive seq_len pre_len data :
  (seq_len + pre_len ≤ 0)%Z → windows seq_len pre_len data = Raise IndexError.
Proof.
  intros Hsp.
  set (T := ncols data). set (k := Z.to_nat (- (seq_len + pre_len))).
  set (j := if decide (T ≤ k)%nat then 0%nat else k).
  assert (Hj : j ∈ range (Z.of_nat (ncols data) - (seq_len + pre_len - 1))).
  { unfold range. apply elem_of_seq. subst j k T. case_decide; lia. }
  assert (Hwidth : ncols (round_slice seq_len pre_len data j) = 0%nat).
  { unfold round_slice, slice_cols. cbn [slice_start slice_stop from_option ncols].
    fold T. unfold adjust_index. subst j k.
    case_decide;
      repeat match goal with
             | |- context [(?a <? ?b)%Z] => destruct (Z.ltb_spec a b)
             end; lia. }
  destruct (windows seq_len pre_len data) as [r|e] eqn:Hrun.
  - exfalso. unfold windows in Hrun.
    destruct (for_each_Ok_all _ _ _ _ j Hrun Hj) as (s1 & s2 & Hstep).
    pose proof (window_step_cases seq_len pre_len data j s1) as Hc.
    rewrite Hstep in Hc. lia.
  - f_equal. unfold windows in Hrun.
    apply (for_each_raises_only _ IndexError) in Hrun; [done|].
    intros i s e' Hstep.
    pose proof (window_step_cases seq_len pre_len data i s) as Hc.
    rewrite Hstep in Hc. tauto.
Qed.

(** X7. [sequence_data_preparation] checks nothing about its parameters: it
    returns exactly when [seq_len + pre_len >= 1], with
    [max(0, T - (seq_len + pre_len - 1))] examples per partition whatever
    the sign of each parameter, and it raises [IndexError] whenever
    [seq_len + pre_len <= 0], whatever the arrays. *)
Theorem sequence_data_preparation_returns_iff seq_len pre_len train_data test_data :
  ((1 ≤ seq_len + pre_len)%Z →
     ∃ trainX trainY testX testY,
       sequence_data_preparation seq_len pre_len train_data test_data
         = Ok (trainX, trainY, testX, testY) ∧
       length trainX
         = Z.to_nat (Z.of_nat (ncols train_data) - (seq_len + pre_len - 1)) ∧
       length trainY = length trainX ∧
       length testX
         = Z.to_nat (Z.of_nat (ncols test_data) - (seq_len + pre_len - 1)) ∧
       length testY = length testX) ∧
  ((seq_len + pre_len ≤ 0)%Z →
     sequence_data_preparation seq_len pre_len train_data test_data
       = Raise IndexError).
Proof.
  split; intros Hsp; unfold sequence_data_preparation.
  - pose proof (windows_general seq_len pre_len train_data Hsp) as H1.
    pose proof (windows_general seq_len pre_len test_data Hsp) as H2.
    cbn zeta in H1, H2. rewrite H1, H2. cbn.
    eexists _, _, _, _. split; [reflexivity|].
    rewrite !length_fmap, !length_seq. by repeat split.
  - rewrite (windows_nonpositive _ _ train_data) by done. reflexivity.
Qed.

(** X7 on the ramp: a negative horizon that leaves [seq_len + pre_len = 2],
    and parameters that sum to zero. *)
Lemma sequence_data_preparation_returns_iff_ramp :
  (∃ trainX trainY testX testY,
     sequence_data_preparation 3 (-1) ramp_train ramp_test
       = Ok (trainX, trainY, testX, testY) ∧
     length trainX = 8%nat ∧ length trainY = 8%nat ∧
     length testX = 5%nat ∧ length testY = 5%nat) ∧
  sequence_data_preparation 3 (-3) ramp_train ramp_test = Raise IndexError.
Proof.
  split.
  - destruct (proj1 (sequence_data_preparation_returns_iff 3 (-1)
                       ramp_train ramp_test))
      as (X & Y & X' & Y' & E & H1 & H2 & H3 & H4); [lia|].
    exists X, Y, X', Y'. split; [exact E|].
    rewrite H2, H4, H1, H3. by repeat split.
  - apply (proj2 (sequence_data_preparation_returns_iff 3 (-3)
                    ramp_train ramp_test)). lia.
Defined.

Lemma last_cells_window_at seq_len pre_len data i :
  (1 ≤ seq_len)%Z → (1 ≤ pre_len)%Z →
  last_cells (window_at seq_len data (i + Z.to_nat pre_len))
  = target_at seq_len pre_len data i.
Proof.
  intros Hs Hp. unfold last_cells, window_at, target_at. cbn [ncols mrows].
  rewrite <- list_fmap_compose. apply list_fmap_ext. intros _ row _. cbn.
  rewrite lookup_take_lt by lia. rewrite lookup_drop. do 2 f_equal. lia.
Qed.

(** X8. The naive benchmark and the targets read the same cells, [pre_len]
    examples apart: the naive prediction for test example [i + pre_len] is
    the rescaled target of test example [i], for every sensor. *)
Theorem naive_prediction_is_earlier_target seq_len pre_len train_scaled
    test_scaled max_speed trainX trainY testX testY testnpredc :
  (1 ≤ seq_len)%Z → (1 ≤ pre_len)%Z →
  sequence_data_preparation seq_len pre_len train_scaled test_scaled
    = Ok (trainX, trainY, testX, testY) →
  naive_prediction max_speed testX = Ok testnpredc →
  ∀ i r, (i + Z.to_nat pre_len < length testX)%nat →
    cell testnpredc (i + Z.to_nat pre_len) r = cell (smul testY max_speed) i r.
Proof.
  intros Hs Hp. rewrite sequence_data_preparation_Ok by done. cbn zeta.
  set (n := Z.to_nat (Z.of_nat (ncols test_scaled) - (seq_len + pre_len - 1))).
  intros [= <- <- <- <-] Hnaive i r Hi.
  rewrite length_fmap, length_seq in Hi.
  unfold naive_prediction in Hnaive.
  rewrite last_of_windows_Ok in Hnaive.
  - cbn in Hnaive. injection Hnaive as <-.
    rewrite !smul_cell. f_equal. unfold cell.
    rewrite !list_lookup_fmap, !lookup_seq_lt by lia.
    cbn [fmap option_fmap option_map mbind option_bind Nat.add].
    by rewrite last_cells_window_at.
  - destruct n; [lia|done].
  - apply Forall_fmap, Forall_forall. intros j _. cbn. lia.
Qed.

(** X8 on the two-sensor run: the naive prediction for the second example
    against the target of the first, at sensor 0. *)
Lemma naive_prediction_is_earlier_target_demo :
  cell (smul (last_cells <$> demo_testX) (of_int 2)) (0 + Z.to_nat 1) 0
  = cell (smul demo_testY (of_int 2)) 0 0.
Proof.
  apply (naive_prediction_is_earlier_target 1 1 demo_test_scaled demo_test_scaled
           (of_int 2) demo_testX demo_testY demo_testX demo_testY
           (smul (last_cells <$> demo_testX) (of_int 2))
           ltac:(lia) ltac:(lia) ltac:(compute_done) ltac:(compute_done)
           0%nat 0%nat ltac:(compute_done)).
Defined.

Lemma entry_window_at seq_len data i r c y :
  entry (window_at seq_len data i) r c = Some y → y ∈ cells data.
Proof.
  unfold window_at, entry. cbn [mrows]. rewrite list_lookup_fmap.
  destruct (mrows data !! r) as [row|] eqn:Hrow; cbn; [|done].
  intros H. apply lookup_take_Some in H as [H _]. rewrite lookup_drop in H.
  apply (entry_cells data r (i + c)). unfold entry. by rewrite Hrow.
Qed.

(** X9. When [max - min] of the training partition is computed as a finite
    number other than zero, every cell the network is trained on lies in
    the unit interval: each cell of each training window and each training
    target. *)
Theorem training_examples_in_unit_interval seq_len pre_len train_data test_data
    mn mx d train_scaled test_scaled trainX trainY testX testY :
  wf_matrix train_data → (1 ≤ seq_len)%Z → (1 ≤ pre_len)%Z →
  amin train_data = Ok (Fin mn) → amax train_data = Ok (Fin mx) →
  Binary64.nsub (Fin mx) (Fin mn) = Fin d → d ≠ 0%Qc →
  Binary64.scale_data train_data test_data = Ok (train_scaled, test_scaled) →
  sequence_data_preparation seq_len pre_len train_scaled test_scaled
    = Ok (trainX, trainY, testX, testY) →
  (∀ i w r c y, trainX !! i = Some w → entry w r c = Some y →
     in_unit_interval y) ∧
  (∀ i r y, cell trainY i r = Some y → in_unit_interval y).
Proof.
  intros Hwf Hs Hp Hmin Hmax Hd Hd0.
  rewrite (binary64_scale_data_Ok _ _ _ _ Hmin Hmax). intros [= <- <-].
  pose proof (binary64_scaled_training_unit _ _ _ _ Hmin Hmax Hd Hd0) as Hall.
  set (ts := Binary64.mdiv_scalar (Binary64.msub_scalar train_data (Fin mn))
               (Binary64.nsub (Fin mx) (Fin mn))) in *.
  assert (Hunit : ∀ y, y ∈ cells ts → in_unit_interval y)
    by (by apply Forall_forall).
  rewrite sequence_data_preparation_Ok by done. cbn zeta.
  intros [= <- <- <- <-]. split.
  - intros i w r c y Hw Hy.
    apply list_lookup_fmap_Some_1 in Hw as (j & -> & Hj).
    apply Hunit. by eapply entry_window_at.
  - intros i r y. unfold cell. rewrite list_lookup_fmap.
    destruct (seq 0 _ !! i) as [j|] eqn:Hj; cbn; [|done].
    apply lookup_seq in Hj as [-> Hi]. cbn [Nat.add].
    destruct (target_at_is_column seq_len pre_len ts i) as [_ Hcol].
    { subst ts. by apply binary64_wf_scaled. }
    { subst ts. cbn [ncols Binary64.mdiv_scalar Binary64.msub_scalar] in *. lia. }
    rewrite Hcol. intros Hy. apply Hunit. by eapply entry_cells.
Qed.

(** X9 on the ramp. *)
Lemma training_examples_in_unit_interval_ramp :
  ∃ train_scaled test_scaled trainX trainY testX testY,
    Binary64.scale_data ramp_train ramp_test = Ok (train_scaled, test_scaled) ∧
    sequence_data_preparation 3 2 train_scaled test_scaled
      = Ok (trainX, trainY, testX, testY) ∧
    length trainX = 5%nat ∧
    (∀ i w r c y, trainX !! i = Some w → entry w r c = Some y →
       in_unit_interval y) ∧
    (∀ i r y, cell trainY i r = Some y → in_unit_interval y).
Proof.
  assert (E1 := binary64_scale_data_Ok ramp_train ramp_test (of_int 0) (of_int 18)
                  ltac:(compute_done) ltac:(compute_done)).
  assert (E2 := sequence_data_preparation_Ok 3 2
                  (Binary64.mdiv_scalar (Binary64.msub_scalar ramp_train (of_int 0))
                     (Binary64.nsub (of_int 18) (of_int 0)))
                  (Binary64.mdiv_scalar (Binary64.msub_scalar ramp_test (of_int 0))
                     (Binary64.nsub (of_int 18) (of_int 0)))
                  ltac:(lia) ltac:(lia)).
  cbn zeta in E2.
  eexists _, _, _, _, _, _.
  split; [exact E1|]. split; [exact E2|]. split; [reflexivity|].
  apply (training_examples_in_unit_interval 3 2 ramp_train ramp_test
           (Qc_of_Z 0) (Qc_of_Z 18) (Qc_of_Z 18) _ _ _ _ _ _
           ltac:(compute_done) ltac:(lia) ltac:(lia)
           ltac:(compute_done) ltac:(compute_done) ltac:(compute_done)
           ltac:(compute_done) E1 E2).
Defined.

(** ** The performance loop *)

Lemma transposed_row_inside E N Y j :
  (0 < E)%nat → stacked E N Y → (j < N)%nat →
  transposed_row j Y = Ok (column j Y).
Proof.
  intros HE [Hlen Hrows] Hj. unfold transposed_row.
  destruct Y as [|y Y]; [cbn in Hlen; lia|].
  apply Forall_cons in Hrows as [Hy _]. cbn in Hy.
  by rewrite decide_True by lia.
Qed.

Lemma transposed_row_outside E N Y j :
  stacked E N Y → (N ≤ j)%nat → transposed_row j Y = Raise IndexError.
Proof.
  intros [Hlen Hrows] Hj. unfold transposed_row.
  destruct Y as [|y Y]; [done|].
  apply Forall_cons in Hrows as [Hy _]. cbn in Hy.
  by rewrite decide_False by lia.
Qed.

Lemma vsub_same_length u v :
  length u = length v → vsub u v = Ok (zip_with nsub u v).
Proof. intros H. unfold vsub. by rewrite decide_True. Qed.

Lemma length_column j Y : length (column j Y) = length Y.
Proof. unfold column. by rewrite length_fmap. Qed.

Lemma measure_step_inside E N ref pred npred j acc :
  (0 < E)%nat → stacked E N ref → stacked E N pred → stacked E N npred →
  (j < N)%nat →
  measure_step ref pred npred j acc =
    Ok (Measures
          (seg_mael acc ++ [column_mae ref pred j])
          (seg_masel acc ++ [ratio_or_marker (column_mae ref pred j)
                                             (column_mae ref npred j)])
          (seg_nmael acc ++ [column_mae ref npred j])).
Proof.
  intros HE Href Hpred Hnpred Hj. unfold measure_step.
  rewrite (transposed_row_inside E N ref j), (transposed_row_inside E N pred j),
    (transposed_row_inside E N npred j) by done.
  cbn [mbind result_bind].
  rewrite !vsub_same_length
    by (rewrite !length_column; destruct Href, Hpred, Hnpred; congruence).
  cbn [mbind result_bind]. unfold ratio_or_marker, column_mae.
  by destruct (nonzero _).
Qed.

Lemma measure_step_outside E N ref pred npred j acc :
  stacked E N ref → (N ≤ j)%nat →
  measure_step ref pred npred j acc = Raise IndexError.
Proof.
  intros Href Hj. unfold measure_step.
  by rewrite (transposed_row_outside E N ref j).
Qed.

Lemma for_each_measures E N ref pred npred n : ∀ start acc,
  (0 < E)%nat → stacked E N ref → stacked E N pred → stacked E N npred →
  (start + n ≤ N)%nat →
  for_each (seq start n) (measure_step ref pred npred) acc =
    Ok (Measures
          (seg_mael acc ++ (column_mae ref pred <$> seq start n))
          (seg_masel acc ++
             ((λ j, ratio_or_marker (column_mae ref pred j) (column_mae ref npred j))
                <$> seq start n))
          (seg_nmael acc ++ (column_mae ref npred <$> seq start n))).
Proof.
  induction n as [|n IH]; intros start acc HE Href Hpred Hnpred Hn.
  - cbn. rewrite !app_nil_r. by destruct acc.
  - cbn [seq for_each].
    rewrite (measure_step_inside E N) by (done || lia). rewrite bind_Ok.
    rewrite IH by (done || lia). cbn [seg_mael seg_masel seg_nmael].
    by rewrite !fmap_cons, <- !app_assoc.
Qed.

Lemma for_each_app {St} (body : nat → St → result St) l1 l2 : ∀ s,
  for_each (l1 ++ l2) body s = for_each l1 body s ≫= for_each l2 body.
Proof.
  induction l1 as [|i l1 IH]; intros s; cbn; [done|].
  destruct (body i s) as [s1|e]; cbn; [apply IH|done].
Qed.

Lemma segment_measures_inside testX ref pred npred E N :
  (0 < E)%nat → stacked E N ref → stacked E N pred → stacked E N npred →
  (shape_last testX ≤ N)%nat →
  segment_measures testX ref pred npred =
    Ok (Measures
          (column_mae ref pred <$> seq 0 (shape_last testX))
          ((λ j, ratio_or_marker (column_mae ref pred j) (column_mae ref npred j))
             <$> seq 0 (shape_last testX))
          (column_mae ref npred <$> seq 0 (shape_last testX))).
Proof.
  intros HE Href Hpred Hnpred Hw. unfold segment_measures, range.
  rewrite Nat2Z.id. by rewrite (for_each_measures E N) by (done || lia).
Qed.

Lemma segment_measures_outside testX ref pred npred E N :
  (0 < E)%nat → stacked E N ref → stacked E N pred → stacked E N npred →
  (N < shape_last testX)%nat →
  segment_measures testX ref pred npred = Raise IndexError.
Proof.
  intros HE Href Hpred Hnpred Hw. unfold segment_measures, range.
  rewrite Nat2Z.id.
  replace (shape_last testX) with (N + (shape_last testX - N))%nat by lia.
  rewrite seq_app, for_each_app.
  rewrite (for_each_measures E N) by (done || lia). rewrite bind_Ok.
  destruct (shape_last testX - N)%nat as [|m] eqn:Hm; [lia|].
  cbn [seq for_each Nat.add].
  by rewrite (measure_step_outside E N) by (done || lia).
Qed.

(** X10. On stacked arrays of one shape, [E >= 1] examples by [N] sensors,
    the loop returns exactly when the window width [testX.shape[-1]] is at
    most [N]; it then holds, for each [j] below that width, the mean absolute
    errors of sensor [j] and their ratio or marker. With a wider window it
    raises [IndexError]. *)
Theorem segment_measures_on_stacked testX ref pred npred E N :
  (0 < E)%nat → stacked E N ref → stacked E N pred → stacked E N npred →
  ((shape_last testX ≤ N)%nat →
     segment_measures testX ref pred npred =
       Ok (Measures
             (column_mae ref pred <$> seq 0 (shape_last testX))
             ((λ j, ratio_or_marker (column_mae ref pred j)
                                    (column_mae ref npred j))
                <$> seq 0 (shape_last testX))
             (column_mae ref npred <$> seq 0 (shape_last testX)))) ∧
  ((N < shape_last testX)%nat →
     segment_measures testX ref pred npred = Raise IndexError).
Proof.
  intros HE Href Hpred Hnpred. split; intros Hw.
  - by apply (segment_measures_inside _ _ _ _ E N).
  - by apply (segment_measures_outside _ _ _ _ E N).
Qed.

(** X10 on the two-sensor run, with windows of width one and of width
    three. *)
Lemma segment_measures_on_stacked_demo :
  segment_measures demo_testX (smul demo_testY (of_int 2))
      (smul demo_yhat (of_int 2)) (smul (last_cells <$> demo_testX) (of_int 2))
    = Ok (Measures
            (column_mae (smul demo_testY (of_int 2)) (smul demo_yhat (of_int 2))
               <$> seq 0 1)
            ((λ j, ratio_or_marker
                     (column_mae (smul demo_testY (of_int 2))
                        (smul demo_yhat (of_int 2)) j)
                     (column_mae (smul demo_testY (of_int 2))
                        (smul (last_cells <$> demo_testX) (of_int 2)) j))
               <$> seq 0 1)
            (column_mae (smul demo_testY (of_int 2))
               (smul (last_cells <$> demo_testX) (of_int 2)) <$> seq 0 1)) ∧
  segment_measures [Matrix 3 [[]; []]] (smul demo_testY (of_int 2))
      (smul demo_yhat (of_int 2)) (smul (last_cells <$> demo_testX) (of_int 2))
    = Raise IndexError.
Proof.
  split.
  - apply (proj1 (segment_measures_on_stacked demo_testX
                    (smul demo_testY (of_int 2)) (smul demo_yhat (of_int 2))
                    (smul (last_cells <$> demo_testX) (of_int 2)) 3 2
                    ltac:(lia) ltac:(compute_done) ltac:(compute_done)
                    ltac:(compute_done))).
    cbn. lia.
  - apply (proj2 (segment_measures_on_stacked [Matrix 3 [[]; []]]
                    (smul demo_testY (of_int 2)) (smul demo_yhat (of_int 2))
                    (smul (last_cells <$> demo_testX) (of_int 2)) 3 2
                    ltac:(lia) ltac:(compute_done) ltac:(compute_done)
                    ltac:(compute_done))).
    cbn. lia.
Defined.

(** ** The naive benchmark and the evaluation as a whole *)

(** X13. The naive-benchmark cell returns exactly when there is at least one
    test example and the windows have at least one column; on the empty
    array that a short test partition leaves behind, and on windows of width
    zero, the indexing [[:, :, -1]] raises [IndexError]. *)
Theorem naive_prediction_returns_iff max_speed testX s :
  Forall (λ w, ncols w = s) testX →
  (testX ≠ [] → (1 ≤ s)%nat →
     naive_prediction max_speed testX
       = Ok (smul (last_cells <$> testX) max_speed)) ∧
  (testX = [] ∨ s = 0%nat →
     naive_prediction max_speed testX = Raise IndexError).
Proof.
  intros Hw. split.
  - intros Hne Hs. unfold naive_prediction.
    rewrite last_of_windows_Ok; [done|done|].
    eapply Forall_impl; [exact Hw|]. cbn. lia.
  - intros [H|H]; subst; [done|]. unfold naive_prediction, last_of_windows.
    destruct testX as [|w X]; [done|].
    apply Forall_cons in Hw as [Hw _]. cbn [traverse].
    unfold col. rewrite Hw. by cbn.
Qed.

(** X13 on the two-sensor run and on windows without columns. *)
Lemma naive_prediction_returns_iff_demo :
  naive_prediction (of_int 2) demo_testX
    = Ok (smul (last_cells <$> demo_testX) (of_int 2)) ∧
  naive_prediction (of_int 2) [Matrix 0 [[]; []]] = Raise IndexError.
Proof.
  split.
  - apply (proj1 (naive_prediction_returns_iff (of_int 2) demo_testX 1
                    ltac:(compute_done)));
      [done|lia].
  - apply (proj2 (naive_prediction_returns_iff (of_int 2) [Matrix 0 [[]; []]] 0
                    ltac:(compute_done))).
    by right.
Defined.

Lemma stacked_smul E N Y c : stacked E N Y → stacked E N (smul Y c).
Proof.
  intros [Hlen Hrows]. unfold smul. split; [by rewrite length_fmap|].
  apply Forall_fmap. eapply Forall_impl; [exact Hrows|].
  intros y Hy. cbn. by rewrite length_fmap.
Qed.

Lemma stacked_last_cells E N X :
  length X = E → Forall (λ w, nrows w = N) X → stacked E N (last_cells <$> X).
Proof.
  intros Hlen HX. split; [by rewrite length_fmap|].
  apply Forall_fmap. eapply Forall_impl; [exact HX|].
  intros w Hw. cbn. unfold last_cells. by rewrite length_fmap.
Qed.

(** X14. The cells from "Rescale values" to the performance loop, run on
    [E >= 1] examples of [N] sensors with windows of [s >= 1] readings and a
    training partition that has a cell: they return exactly when [s <= N],
    and the three lists then have [s] entries, one per window position and
    not one per sensor; with [s > N] the loop raises [IndexError]. *)
Theorem evaluate_returns_iff train_data testX trainY testY ythat yhat E N s :
  cells train_data ≠ [] → (0 < E)%nat → (1 ≤ s)%nat →
  length testX = E → Forall (λ w, ncols w = s ∧ nrows w = N) testX →
  stacked E N testY → stacked E N yhat →
  ((s ≤ N)%nat →
     ∃ ms, evaluate train_data testX trainY testY ythat yhat
             = Ok (ms, summary ms) ∧
           length (seg_mael ms) = s ∧ length (seg_masel ms) = s ∧
           length (seg_nmael ms) = s) ∧
  ((N < s)%nat →
     evaluate train_data testX trainY testY ythat yhat = Raise IndexError).
Proof.
  intros Hcells HE Hs Hlen HX HY Hyhat.
  destruct (proj2 (amax_Ok_iff train_data) Hcells) as [mx Hmx].
  destruct (proj2 (amin_Ok_iff train_data) Hcells) as [mn Hmn].
  assert (Hne : testX ≠ []) by (intros ->; cbn in Hlen; lia).
  assert (Hshape : shape_last testX = s).
  { destruct testX as [|w X]; [done|]. apply Forall_cons in HX as [[Hw _] _].
    exact Hw. }
  assert (Hnaive : naive_prediction mx testX
                   = Ok (smul (last_cells <$> testX) mx)).
  { unfold naive_prediction. rewrite last_of_windows_Ok; [done|done|].
    eapply Forall_impl; [exact HX|]. cbn. lia. }
  assert (Hnp : stacked E N (smul (last_cells <$> testX) mx)).
  { apply stacked_smul, stacked_last_cells; [done|].
    eapply Forall_impl; [exact HX|]. cbn. tauto. }
  unfold evaluate.
  rewrite (rescale_reference_Ok _ _ _ _ _ Hmn Hmx). rewrite bind_Ok.
  unfold rescale_predictions. cbn zeta. rewrite Hnaive, bind_Ok.
  split; intros Hw.
  - rewrite (segment_measures_inside _ _ _ _ E N)
      by (done || by apply stacked_smul || lia).
    rewrite bind_Ok. eexists. split; [reflexivity|].
    cbn [seg_mael seg_masel seg_nmael].
    by rewrite !length_fmap, !length_seq, Hshape.
  - by rewrite (segment_measures_outside _ _ _ _ E N)
      by (done || by apply stacked_smul || lia).
Qed.

(** X14 on the two-sensor run, and on one example of one sensor with a
    window of two readings. *)
Lemma evaluate_returns_iff_demo :
  (∃ ms, evaluate demo_train_data demo_testX demo_testY demo_testY
                  demo_yhat demo_yhat = Ok (ms, summary ms) ∧
         length (seg_mael ms) = 1%nat ∧ length (seg_masel ms) = 1%nat ∧
         length (seg_nmael ms) = 1%nat) ∧
  evaluate demo_train_data [Matrix 2 [readings [0; 1]%Z]]
           [readings [1]%Z] [readings [1]%Z] [readings [1]%Z] [readings [1]%Z]
    = Raise IndexError.
Proof.
  split.
  - apply (proj1 (evaluate_returns_iff demo_train_data demo_testX demo_testY
                    demo_testY demo_yhat demo_yhat 3 2 1
                    ltac:(compute_done) ltac:(lia) ltac:(lia)
                    ltac:(compute_done) ltac:(compute_done)
                    ltac:(compute_done) ltac:(compute_done))).
    lia.
  - apply (proj2 (evaluate_returns_iff demo_train_data
                    [Matrix 2 [readings [0; 1]%Z]]
                    [readings [1]%Z] [readings [1]%Z] [readings [1]%Z]
                    [readings [1]%Z] 1 1 2
                    ltac:(compute_done) ltac:(lia) ltac:(lia)
                    ltac:(compute_done) ltac:(compute_done)
                    ltac:(compute_done) ltac:(compute_done))).
    lia.
Defined.

(** ** The preprocessing as a whole *)

Lemma amax_no_cells m : cells m = [] → amax m = Raise ValueError.
Proof. unfold amax, cells. by intros ->. Qed.

(** X15. The three preprocessing calls in sequence, in binary64, on a
    well-formed frame that [train_test_split] cuts into [k] training columns
    and [T - k] test columns: with at least one sensor, [k >= 1] and
    [seq_len + pre_len >= 1] they return
    [max(0, k - (seq_len + pre_len - 1))] training examples and
    [max(0, T - k - (seq_len + pre_len - 1))] test examples; with no sensor
    or [k = 0] the scaler's [max()] raises [ValueError] before any window is
    cut. *)
Theorem preprocess_example_counts speed_data train_rate seq_len pre_len
    train_data test_data :
  wf_matrix speed_data →
  Binary64.train_test_split speed_data train_rate = Ok (train_data, test_data) →
  ((0 < nrows speed_data)%nat → (1 ≤ ncols train_data)%nat →
   (1 ≤ seq_len + pre_len)%Z →
     ∃ trainX trainY testX testY,
       Binary64.preprocess speed_data train_rate seq_len pre_len
         = Ok (trainX, trainY, testX, testY) ∧
       length trainX
         = Z.to_nat (Z.of_nat (ncols train_data) - (seq_len + pre_len - 1)) ∧
       length trainY = length trainX ∧
       length testX
         = Z.to_nat (Z.of_nat (ncols speed_data) - Z.of_nat (ncols train_data)
                     - (seq_len + pre_len - 1)) ∧
       length testY = length testX) ∧
  (nrows speed_data = 0%nat ∨ ncols train_data = 0%nat →
     Binary64.preprocess speed_data train_rate seq_len pre_len
       = Raise ValueError).
Proof.
  intros Hwf Hsplit. unfold Binary64.preprocess. rewrite Hsplit, bind_Ok.
  destruct (binary64_train_test_split_cases speed_data train_rate)
    as [(e & He & _)|(k & Hk)]; [congruence|].
  rewrite Hsplit in Hk. injection Hk as -> ->.
  destruct (split_at_partitions speed_data k Hwf)
    as (Hwt & _ & Hnr & _ & Hnc & _).
  set (train_data := slice_cols None (Some k) speed_data) in *.
  set (test_data := slice_cols (Some k) None speed_data) in *.
  split.
  - intros Hrows Hk1 Hsp.
    assert (Hcells : cells train_data ≠ []).
    { rewrite cells_nil_shape by done. lia. }
    destruct (proj2 (amax_Ok_iff train_data) Hcells) as [mx Hmx].
    destruct (proj2 (amin_Ok_iff train_data) Hcells) as [mn Hmn].
    rewrite (binary64_scale_data_Ok _ _ _ _ Hmn Hmx), bind_Ok.
    unfold sequence_data_preparation.
    rewrite !windows_general by done. cbn zeta. rewrite !bind_Ok.
    eexists _, _, _, _. split; [reflexivity|].
    rewrite !length_fmap, !length_seq.
    cbn [Binary64.mdiv_scalar Binary64.msub_scalar ncols].
    repeat split; lia.
  - intros Hempty.
    assert (Hcells : cells train_data = []).
    { rewrite cells_nil_shape by done. lia. }
    unfold Binary64.scale_data. by rewrite (amax_no_cells _ Hcells).
Qed.

(** X15 on the ramp at the double 0.6 with windows of three readings and a
    horizon of two: nine training columns, five training and two test
    examples. *)
Lemma preprocess_example_counts_ramp :
  ∃ trainX trainY testX testY,
    Binary64.preprocess ramp (Binary64.double 6 10) 3 2
      = Ok (trainX, trainY, testX, testY) ∧
    length trainX = Z.to_nat (Z.of_nat (ncols ramp_train) - (3 + 2 - 1)) ∧
    length trainY = length trainX ∧
    length testX
      = Z.to_nat (Z.of_nat (ncols ramp) - Z.of_nat (ncols ramp_train)
                  - (3 + 2 - 1)) ∧
    length testY = length testX.
Proof.
  apply (proj1 (preprocess_example_counts ramp (Binary64.double 6 10) 3 2
                  ramp_train ramp_test
                  ltac:(compute_done) ltac:(compute_done)));
    [cbn; lia|cbn; lia|lia].
Defined.

(** ** Values that are not numbers *)

Lemma Qc_of_nat_compare_0 (n : nat) :
  (Qc_of_Z (Z.of_nat n) ?= 0)%Qc = if decide (n = 0%nat) then Eq else Gt.
Proof.
  destruct n as [|n]; [done|]. rewrite decide_False by done.
  apply Qcgt_alt, Qcnot_le_lt. intros H. apply (Qc_of_Z_le _ 0) in H. lia.
Qed.

(** X16. A [train_portion] that is not a finite number makes
    [train_test_split] fail in [int()]: with [ValueError] for [NaN], and for
    an infinite portion with [OverflowError], unless the frame has no
    timestep, in which case [0 * inf] is [NaN] and the error is [ValueError]
    again. *)
Theorem train_test_split_portion_not_finite data p :
  ¬ finite p →
  train_test_split data p =
    Raise (if decide (p = NaN ∨ ncols data = 0%nat) then ValueError
           else OverflowError).
Proof.
  intros Hp. unfold train_test_split, of_int.
  destruct p as [q| | |]; [by destruct Hp| | |].
  - cbn [nmul]. unfold inf_times. rewrite Qc_of_nat_compare_0.
    destruct (decide (ncols data = 0%nat)) as [H0|H0].
    + by rewrite decide_True by (by right).
    + by rewrite decide_False by (intros [?|?]; done).
  - cbn [nmul]. unfold inf_times. rewrite Qc_of_nat_compare_0.
    destruct (decide (ncols data = 0%nat)) as [H0|H0].
    + by rewrite decide_True by (by right).
    + by rewrite decide_False by (intros [?|?]; done).
  - by rewrite decide_True by (by left).
Qed.

(** X16 on the ramp with an infinite portion. *)
Lemma train_test_split_portion_not_finite_ramp :
  train_test_split ramp PInf =
    Raise (if decide (PInf = NaN ∨ ncols ramp = 0%nat) then ValueError
           else OverflowError).
Proof.
  apply (train_test_split_portion_not_finite ramp PInf). by intros [].
Defined.

Lemma foldl_nmax_nan l : ∀ x, x = NaN ∨ NaN ∈ l → foldl nmax x l = NaN.
Proof.
  induction l as [|y l IH]; intros x H.
  - destruct H as [->|H]; [done|]. by apply elem_of_nil in H.
  - cbn. apply IH. destruct H as [->|H]; [by left|].
    apply elem_of_cons in H as [<-|H]; [left; by destruct x|by right].
Qed.

Lemma foldl_nmin_nan l : ∀ x, x = NaN ∨ NaN ∈ l → foldl nmin x l = NaN.
Proof.
  induction l as [|y l IH]; intros x H.
  - destruct H as [->|H]; [done|]. by apply elem_of_nil in H.
  - cbn. apply IH. destruct H as [->|H]; [by left|].
    apply elem_of_cons in H as [<-|H]; [left; by destruct x|by right].
Qed.

(** X17. The scaler has no guard for missing readings: one [NaN] anywhere in
    the training partition makes both bounds [NaN], and then every cell of
    both scaled partitions is [NaN], without any exception. *)
Theorem scale_data_missing_reading train_data test_data :
  NaN ∈ cells train_data →
  ∃ train_scaled test_scaled,
    scale_data train_data test_data = Ok (train_scaled, test_scaled) ∧
    ncols train_scaled = ncols train_data ∧
    ncols test_scaled = ncols test_data ∧
    (∀ r c, entry train_scaled r c = (λ _, NaN) <$> entry train_data r c) ∧
    (∀ r c, entry test_scaled r c = (λ _, NaN) <$> entry test_data r c).
Proof.
  intros Hnan.
  assert (Hmax : amax train_data = Ok NaN).
  { unfold amax. unfold cells in Hnan.
    destruct (concat (mrows train_data)) as [|x l]; [by apply elem_of_nil in Hnan|].
    f_equal. apply foldl_nmax_nan.
    apply elem_of_cons in Hnan as [<-|H]; [by left|by right]. }
  assert (Hmin : amin train_data = Ok NaN).
  { unfold amin. unfold cells in Hnan.
    destruct (concat (mrows train_data)) as [|x l]; [by apply elem_of_nil in Hnan|].
    f_equal. apply foldl_nmin_nan.
    apply elem_of_cons in Hnan as [<-|H]; [by left|by right]. }
  rewrite (scale_data_Ok _ _ _ _ Hmin Hmax). eexists _, _.
  split; [reflexivity|]. split; [done|]. split; [done|].
  split; intros r c; rewrite entry_scaled;
    apply option_fmap_ext; intros x; apply ndiv_nan_r.
Qed.

(** X17 on a training partition with one missing reading. *)
Lemma scale_data_missing_reading_gap :
  ∃ train_scaled test_scaled,
    scale_data (Matrix 3 [[of_int 1; NaN; of_int 5]]) even_test
      = Ok (train_scaled, test_scaled) ∧
    ncols train_scaled = ncols (Matrix 3 [[of_int 1; NaN; of_int 5]]) ∧
    ncols test_scaled = ncols even_test ∧
    (∀ r c, entry train_scaled r c
            = (λ _, NaN) <$> entry (Matrix 3 [[of_int 1; NaN; of_int 5]]) r c) ∧
    (∀ r c, entry test_scaled r c = (λ _, NaN) <$> entry even_test r c).
Proof.
  apply (scale_data_missing_reading (Matrix 3 [[of_int 1; NaN; of_int 5]])
           even_test).
  compute_done.
Defined.
